(** * BTCResearch: the continuous-segment indicator pipeline and the gap validator

    A shallow embedding of

    - [dataset_generator/split_and_calc_index.py] ([process_crypto_data]:
      the segmentation loop, the length gate, the forward/backward fill,
      the rolling means, the warm-up trim and the per-segment record),
    - [validate_json.py] ([validate_klines]: the duplicate/missing scan;
      [sort_klines] and [main]),
    - [generate_training_dataset.py] ([calculate_indicators]: the rolling
      means, True Range, ATR(50), the Keltner columns and the [dropna]),
    - [plot_btc_ma_kc.py] ([calculate_moving_averages]: the same columns
      with Python's [max]),

    followed by the properties proved about them.

    Conventions.  A timestamp is the number of seconds since the epoch, in
    [Z]: the format ['%Y-%m-%d %H:%M:%S'] has no fraction of a second, so
    [timedelta(hours=1)] is [3600] and Python's floor division of two
    timedeltas is [Z.div]; a [datetime] is not after [datetime.max], and
    an addition that would pass it raises [OverflowError].  A float cell
    of a DataFrame is an [option Q]: [None] is NaN and the arithmetic is
    the exact one (rounding is not modelled).  A Python exception that
    leaves a function is a [Raise].  The calls of the third-party package
    [ta] are a parameter of the pipeline. *)

From Stdlib Require Import List ZArith QArith Qminmax Qabs Ascii Bool Arith Lia.
From Stdlib Require Import Lqa.
From Stdlib Require Import Permutation Sorted.
From Stdlib Require String.
Import ListNotations.
Import String.StringSyntax.

Abbreviation string := String.string.
Delimit Scope string_scope with string.

Local Open Scope Z_scope.

(** ** Exceptions *)

Inductive exn : Type :=
| IndexError
| KeyError
| OverflowError
| TypeError
| ValueError.

Inductive result (A : Type) : Type :=
| Return (a : A)
| Raise (e : exn).

Arguments Return {A} a.
Arguments Raise {A} e.

Definition bind {A B : Type} (r : result A) (k : A -> result B) : result B :=
  match r with
  | Return a => k a
  | Raise e => Raise e
  end.

Notation "x <- r ;; k" := (bind r (fun x => k))
  (at level 61, r at next level, right associativity).

(** ** Time *)

(** [timedelta(hours=1)], in seconds. *)
Definition hour : Z := 3600.

(** [datetime.max], 9999-12-31 23:59:59 at the resolution of the format. *)
Definition datetime_max : Z := 253402300799.

(** [datetime.strptime(s, '%Y-%m-%d %H:%M:%S')] and
    [dt.strftime('%Y-%m-%d %H:%M:%S')] belong to the Python library; the
    development is parametric in them.  [strptime s = None] is the
    [ValueError] of an unparseable string; what it returns is a
    [datetime], so it is not after [datetime.max]. *)
Class DatetimeFormat : Type := {
  strptime : string -> option Z;
  strftime : Z -> string;
  strptime_max : forall s t, strptime s = Some t -> t <= datetime_max
}.

(** ** DataFrame rows *)

(** The numeric columns of the frame built from the JSON records. *)
Inductive column : Type :=
| open_price
| high_price
| low_price
| close_price
| volume
| quote_asset_volume
| number_of_trades
| taker_buy_base_asset_volume
| taker_buy_quote_asset_volume.

Definition all_columns : list column :=
  [open_price; high_price; low_price; close_price; volume;
   quote_asset_volume; number_of_trades;
   taker_buy_base_asset_volume; taker_buy_quote_asset_volume].

(** One row of [df] after [pd.to_datetime]: the two timestamps and the
    numeric cells ([None] is NaN). *)
Record bar : Type := mkBar {
  open_time : Z;
  close_time : Z;
  cell : column -> option Q
}.

(** ** The Segmenter: [process_crypto_data], lines 30-44 *)

(** The [for i in range(1, len(df))] loop.  [prev] is [df.iloc[i-1]],
    [rest] is [df.iloc[i:]]; [current_segment] and [segments] are the two
    lists the loop appends to. *)
Fixpoint segment_loop (prev : bar) (rest : list bar)
    (current_segment : list bar) (segments : list (list bar))
    : list (list bar) :=
  match rest with
  | [] => segments ++ [current_segment]
  | cur :: rest' =>
      if open_time cur - open_time prev =? hour
      then segment_loop cur rest' (current_segment ++ [cur]) segments
      else segment_loop cur rest' [cur] (segments ++ [current_segment])
  end.

(** [current_segment = [df.iloc[0]]] raises [IndexError] on an empty
    frame. *)
Definition split_segments (df : list bar) : result (list (list bar)) :=
  match df with
  | [] => Raise IndexError
  | first :: rest => Return (segment_loop first rest [first] [])
  end.

(** ** pandas column operations *)

(** A column (a pandas Series of floats). *)
Definition series : Type := list (option Q).

Definition column_of (c : column) (seg : list bar) : series :=
  map (fun r => cell r c) seg.

Definition is_nan (x : option Q) : bool :=
  match x with
  | None => true
  | Some _ => false
  end.

(** [seg.isnull().values.any()] *)
Definition any_null (seg : list bar) : bool :=
  existsb (fun r => existsb (fun c => is_nan (cell r c)) all_columns) seg.

(** [fillna(method='ffill')] on one column: a NaN takes the last value
    seen above it, and stays NaN when there is none. *)
Fixpoint ffill_from (last_seen : option Q) (s : series) : series :=
  match s with
  | [] => []
  | x :: s' =>
      let v := if is_nan x then last_seen else x in
      v :: ffill_from v s'
  end.

Definition ffill (s : series) : series := ffill_from None s.

(** [fillna(method='bfill')] on one column: a NaN takes the next value
    below it. *)
Fixpoint bfill (s : series) : series :=
  match s with
  | [] => []
  | x :: s' =>
      let filled := bfill s' in
      (if is_nan x then hd None filled else x) :: filled
  end.

(** A frame whose numeric columns are replaced by [f] of themselves (the
    two timestamp columns hold no NaT and are left as they are). *)
Definition apply_columns (f : series -> series) (seg : list bar) : list bar :=
  map (fun ir : nat * bar =>
         mkBar (open_time (snd ir)) (close_time (snd ir))
               (fun c => nth (fst ir) (f (column_of c seg)) None))
      (combine (seq 0 (length seg)) seg).

(** Lines 57-61. *)
Definition fillna (seg : list bar) : list bar :=
  if any_null seg
  then apply_columns bfill (apply_columns ffill seg)
  else seg.

Definition Qsum (xs : list Q) : Q := fold_right Qplus 0%Q xs.

(** The values of a window, when none of them is NaN. *)
Fixpoint all_present (s : series) : option (list Q) :=
  match s with
  | [] => Some []
  | None :: _ => None
  | Some x :: s' =>
      match all_present s' with
      | Some xs => Some (x :: xs)
      | None => None
      end
  end.

(** [s.rolling(window=w).mean()] at position [i]: [min_periods] is the
    window itself, so the value is NaN until [w] rows are available and
    whenever the window holds a NaN. *)
Definition window_mean (w : nat) (s : series) (i : nat) : option Q :=
  if (w <=? S i)%nat
  then match all_present (firstn w (skipn (S i - w) s)) with
       | Some xs => Some (Qsum xs / inject_Z (Z.of_nat w))%Q
       | None => None
       end
  else None.

Definition rolling_mean (w : nat) (s : series) : series :=
  map (window_mean w s) (seq 0 (length s)).

(** [s.shift(1)] *)
Definition shift1 (s : series) : series :=
  match s with
  | [] => []
  | _ :: _ => None :: removelast s
  end.

Definition lift2 (f : Q -> Q -> Q) (x y : option Q) : option Q :=
  match x, y with
  | Some a, Some b => Some (f a b)
  | _, _ => None
  end.

(** [a - b] on aligned columns. *)
Definition series_sub (a b : series) : series :=
  map (fun p => lift2 Qminus (fst p) (snd p)) (combine a b).

(** [s.abs()] *)
Definition series_abs (a : series) : series := map (option_map Qabs) a.

(** The maximum of two cells that skips NaN ([skipna=True]). *)
Definition nan_max (x y : option Q) : option Q :=
  match x, y with
  | Some a, Some b => Some (Qmax a b)
  | Some a, None => Some a
  | None, _ => y
  end.

(** [df[[a, b, c]].max(axis=1)] *)
Definition row_max3 (a b c : series) : series :=
  map (fun p => nan_max (nan_max (fst p) (fst (snd p))) (snd (snd p)))
      (combine a (combine b c)).

(** [multiplier = 2.75], in both scripts. *)
Definition multiplier : Q := 11 # 4.

(** [a + b] on aligned columns, and [k * a]. *)
Definition series_add (a b : series) : series :=
  map (fun p => lift2 Qplus (fst p) (snd p)) (combine a b).

Definition series_scale (k : Q) (a : series) : series :=
  map (option_map (Qmult k)) a.

(** ** The [ta] package

    [volatility], [momentum], [trend] and [volume] come from the
    third-party package [ta], which is not part of the repository: the
    development is parametric in what its calls return.  A call is handed
    pandas columns and may raise. *)

(** The dtype pandas gave a column of the loaded frame.  A field that is
    [null] in every record of the file makes an [object] column of [None]
    objects; a column that holds numbers is [float64] (the columns handed
    to the package hold floats) and its missing cells are NaN.  [cell]
    reads [None] in both cases: pandas itself treats the two alike in
    [isnull], [fillna] and [rolling], the package need not. *)
Inductive dtype : Type :=
| float64
| object.

(** A column as a call of the package receives it. *)
Definition Series : Type := dtype * series.

(** One method per indicator object the script builds; a method stands
    for the constructor call and the calls on the object that follow it,
    and returns their columns in the order the script reads them. *)
Class IndicatorPackage : Type := {
  (** [volatility.AverageTrueRange(high, low, close, window)
      .average_true_range()] *)
  average_true_range : Series -> Series -> Series -> nat -> result series;
  (** [momentum.RSIIndicator(close, window).rsi()] *)
  rsi : Series -> nat -> result series;
  (** [trend.MACD(close)]: [macd()], [macd_signal()], [macd_diff()] *)
  macd : Series -> result (series * series * series);
  (** [volatility.BollingerBands(close, window, window_dev)]:
      [bollinger_hband()], [bollinger_lband()], [bollinger_mavg()] *)
  bollinger : Series -> nat -> nat -> result (series * series * series);
  (** [momentum.StochasticOscillator(high, low, close, window,
      smooth_window)]: [stoch()], [stoch_signal()] *)
  stoch : Series -> Series -> Series -> nat -> nat -> result (series * series);
  (** [trend.ADXIndicator(high, low, close, window)]: [adx()],
      [adx_pos()], [adx_neg()] *)
  adx : Series -> Series -> Series -> nat -> result (series * series * series);
  (** [momentum.WilliamsRIndicator(high, low, close, lbp).williams_r()] *)
  williams_r : Series -> Series -> Series -> nat -> result series;
  (** [volume.ChaikinMoneyFlowIndicator(high, low, close, volume,
      window).chaikin_money_flow()] *)
  chaikin_money_flow :
    Series -> Series -> Series -> Series -> nat -> result series;
  (** [volume.MFIIndicator(high, low, close, volume, window)
      .money_flow_index()] *)
  money_flow_index :
    Series -> Series -> Series -> Series -> nat -> result series;
  (** [trend.EMAIndicator(close, window).ema_indicator()] *)
  ema_indicator : Series -> nat -> result series
}.

(** ** The Indicator Engine: [process_crypto_data], lines 52-151 *)

(** The columns that lines 70-124 add to [seg] ([seg_ATR50] is the
    column ['ATR50'], [Stochastic_K] is ['Stochastic_%K'], and so on). *)
Inductive indicator_column : Type :=
| seg_ATR50
| Keltner_Upper
| Keltner_Lower
| RSI
| MACD
| MACD_Signal
| MACD_Hist
| Bollinger_High
| Bollinger_Low
| Bollinger_Middle
| Stochastic_K
| Stochastic_D
| ADX
| ADX_PDI
| ADX_MDI
| Williams_R
| CMF
| MFI
| EMA12
| EMA26.

(** The columns a row receives: the rolling means the script computes
    with pandas itself, and the columns of lines 70-124. *)
Record indicators : Type := mkIndicators {
  MA7 : option Q;
  MA25 : option Q;
  MA99 : option Q;
  MA50 : option Q;
  indicator : indicator_column -> option Q
}.

(** Lines 66-68 and 75, and the assignment of the other columns: a
    column is aligned on the index of [seg], so a row beyond its end
    reads NaN. *)
Definition with_indicators (columns : indicator_column -> series)
    (seg : list bar) : list (bar * indicators) :=
  let close := column_of close_price seg in
  let ma7 := rolling_mean 7 close in
  let ma25 := rolling_mean 25 close in
  let ma99 := rolling_mean 99 close in
  let ma50 := rolling_mean 50 close in
  map (fun ir : nat * bar =>
         let i := fst ir in
         (snd ir,
          mkIndicators (nth i ma7 None) (nth i ma25 None)
                       (nth i ma99 None) (nth i ma50 None)
                       (fun c => nth i (columns c) None)))
      (combine (seq 0 (length seg)) seg).

(** One entry of [seg.to_dict(orient='records')]: the two timestamps are
    strings by then (lines 130-131). *)
Record record : Type := mkRecord {
  rec_open_time : string;
  rec_close_time : string;
  rec_cell : column -> option Q;
  rec_indicators : indicators
}.

(** One entry of [combined_processed_segments] (lines 143-148). *)
Record artifact : Type := mkArtifact {
  segment_id : nat;
  start_time : string;
  end_time : string;
  records : list record
}.

(** What the loop body does with one segment: the record it appends, or
    the warning of the [else] branch (segment number and length). *)
Inductive segment_outcome : Type :=
| Processed (a : artifact)
| Discarded (id : nat) (len : nat).

Section Pipeline.
Context `{DatetimeFormat} `{IndicatorPackage}.

(** The dtypes of the columns of [df]; a segment inherits them. *)
Variable dtypes : column -> dtype.

(** Lines 70-124, in the order of the script: the first call that raises
    ends the computation.  The Keltner bands are pandas arithmetic on the
    ATR50 the package returned. *)
Definition ta_columns (seg : list bar)
    : result (indicator_column -> series) :=
  let high : Series := (dtypes high_price, column_of high_price seg) in
  let low : Series := (dtypes low_price, column_of low_price seg) in
  let close : Series := (dtypes close_price, column_of close_price seg) in
  let vol : Series := (dtypes volume, column_of volume seg) in
  atr50 <- average_true_range high low close 50 ;;
  let ma50 := rolling_mean 50 (column_of close_price seg) in
  let keltner_upper := series_add ma50 (series_scale multiplier atr50) in
  let keltner_lower := series_sub ma50 (series_scale multiplier atr50) in
  rsi14 <- rsi close 14 ;;
  m <- macd close ;;
  b <- bollinger close 20 2 ;;
  s <- stoch high low close 14 3 ;;
  a <- adx high low close 14 ;;
  w <- williams_r high low close 14 ;;
  cmf <- chaikin_money_flow high low close vol 20 ;;
  mfi <- money_flow_index high low close vol 14 ;;
  ema12 <- ema_indicator close 12 ;;
  ema26 <- ema_indicator close 26 ;;
  Return (fun c =>
            match c with
            | seg_ATR50 => atr50
            | Keltner_Upper => keltner_upper
            | Keltner_Lower => keltner_lower
            | RSI => rsi14
            | MACD => fst (fst m)
            | MACD_Signal => snd (fst m)
            | MACD_Hist => snd m
            | Bollinger_High => fst (fst b)
            | Bollinger_Low => snd (fst b)
            | Bollinger_Middle => snd b
            | Stochastic_K => fst s
            | Stochastic_D => snd s
            | ADX => fst (fst a)
            | ADX_PDI => snd (fst a)
            | ADX_MDI => snd a
            | Williams_R => w
            | CMF => cmf
            | MFI => mfi
            | EMA12 => ema12
            | EMA26 => ema26
            end).

Definition to_record (r : bar * indicators) : record :=
  mkRecord (strftime (open_time (fst r))) (strftime (close_time (fst r)))
           (cell (fst r)) (snd r).

(** The body of [for idx, segment in enumerate(segments)].  The rolling
    means of lines 66-68 and 75 cannot raise, so they are taken after
    the calls of the package they are interleaved with.  The file
    [segment_{idx+1}.json] receives [processed_data] before
    [seg['open_time'].iloc[0]] is evaluated; that lookup raises
    [IndexError] on an empty frame. *)
Definition process_segment (idx : nat) (segment : list bar)
    : result segment_outcome :=
  if (99 <=? length segment)%nat then
    let seg := fillna segment in
    columns <- ta_columns seg ;;
    let seg := with_indicators columns seg in
    let seg := skipn 99 seg in
    let processed_data := map to_record seg in
    match processed_data with
    | [] => Raise IndexError
    | first :: _ =>
        Return (Processed
                  (mkArtifact (S idx)
                              (rec_open_time first)
                              (rec_close_time (last processed_data first))
                              processed_data))
    end
  else Return (Discarded (S idx) (length segment)).

Fixpoint process_segments (idx : nat) (segments : list (list bar))
    : result (list segment_outcome) :=
  match segments with
  | [] => Return []
  | segment :: segments' =>
      o <- process_segment idx segment ;;
      os <- process_segments (S idx) segments' ;;
      Return (o :: os)
  end.

(** [process_crypto_data] from the loaded frame on.  The frame of an
    empty list of records has no column at all, so [df['open_time']]
    (line 23) raises [KeyError] before the Segmenter is reached; a frame
    with rows arrives here sorted. *)
Definition process_crypto_data (df : list bar)
    : result (list segment_outcome) :=
  match df with
  | [] => Raise KeyError
  | _ :: _ =>
      segments <- split_segments df ;;
      process_segments 0 segments
  end.

(** The content of the combined JSON file. *)
Definition combined_processed_segments (os : list segment_outcome)
    : list artifact :=
  flat_map (fun o => match o with
                     | Processed a => [a]
                     | Discarded _ _ => []
                     end) os.
End Pipeline.

(** ** A package for the examples

    Nothing is assumed about [ta]: the properties hold for every
    instance.  The examples need one; this one refuses an [object]
    column with a [TypeError] and otherwise answers with columns of NaN,
    as long as the column it is handed. *)

Definition is_object (s : Series) : bool :=
  match fst s with
  | object => true
  | float64 => false
  end.

Definition nan_like (s : Series) : series := map (fun _ => None) (snd s).

Definition refuse_objects {A : Type} (inputs : list Series) (a : A)
    : result A :=
  if existsb is_object inputs then Raise TypeError else Return a.

#[export] Instance sample_package : IndicatorPackage := {|
  average_true_range high low close _ :=
    refuse_objects [high; low; close] (nan_like close);
  rsi close _ := refuse_objects [close] (nan_like close);
  macd close :=
    refuse_objects [close] (nan_like close, nan_like close, nan_like close);
  bollinger close _ _ :=
    refuse_objects [close] (nan_like close, nan_like close, nan_like close);
  stoch high low close _ _ :=
    refuse_objects [high; low; close] (nan_like close, nan_like close);
  adx high low close _ :=
    refuse_objects [high; low; close]
                   (nan_like close, nan_like close, nan_like close);
  williams_r high low close _ :=
    refuse_objects [high; low; close] (nan_like close);
  chaikin_money_flow high low close vol _ :=
    refuse_objects [high; low; close; vol] (nan_like close);
  money_flow_index high low close vol _ :=
    refuse_objects [high; low; close; vol] (nan_like close);
  ema_indicator close _ := refuse_objects [close] (nan_like close)
|}.

(** Every column of the loaded frame holds floats. *)
Definition all_float64 : column -> dtype := fun _ => float64.

(** ** True Range and ATR(50): [calculate_indicators], lines 43-52 *)

Definition TR (df : list bar) : series :=
  let previous_close := shift1 (column_of close_price df) in
  let tr1 := series_sub (column_of high_price df) (column_of low_price df) in
  let tr2 := series_abs (series_sub (column_of high_price df) previous_close) in
  let tr3 := series_abs (series_sub (column_of low_price df) previous_close) in
  row_max3 tr1 tr2 tr3.

Definition ATR50 (df : list bar) : series := rolling_mean 50 (TR df).

(** ** The Gap Validator: [validate_klines] *)

(** A scalar of the loaded JSON. *)
Inductive json : Type :=
| JString (s : string)
| JNumber (q : Q)
| JNull.

(** One K-line record: a Python dict from field names to values. *)
Definition kline : Type := list (string * json).

(** [k[key]] *)
Fixpoint getitem (k : kline) (key : string) : result json :=
  match k with
  | [] => Raise KeyError
  | (key', v) :: k' =>
      if String.eqb key key' then Return v else getitem k' key
  end.

(** [range(a, b)] *)
Definition range (a b : Z) : list Z :=
  map (fun k => a + Z.of_nat k) (seq 0 (Z.to_nat (b - a))).

Definition nonempty {A : Type} (l : list A) : bool :=
  match l with
  | [] => false
  | _ :: _ => true
  end.

(** The lines of the returned text.  The duplicates line shows every
    duplicate; the missing line shows the count, the first ten entries
    and an ellipsis when there are more than twenty. *)
Inductive error_line : Type :=
| DuplicatesLine (shown : list string)
| MissingLine (count : nat) (shown : list string) (ellipsis : bool).

Inductive message : Type :=
| EmptyMessage
| FormatMessage
| ErrorsMessage (errors : list error_line)
| ValidMessage.

Section Validator.
Context `{DatetimeFormat}.

(** [datetime.strptime(k['open_time'], fmt)]: [KeyError] without the
    field, [TypeError] when it is not a string, [ValueError] when the
    string does not parse. *)
Definition parse_open_time (k : kline) : result Z :=
  v <- getitem k "open_time"%string ;;
  match v with
  | JString s =>
      match strptime s with
      | Some t => Return t
      | None => Raise ValueError
      end
  | _ => Raise TypeError
  end.

(** The list comprehension of line 48. *)
Fixpoint parse_times (klines : list kline) : result (list Z) :=
  match klines with
  | [] => Return []
  | k :: klines' =>
      t <- parse_open_time k ;;
      ts <- parse_times klines' ;;
      Return (t :: ts)
  end.

(** The timestamps appended to [missing] for one pair (lines 60-64). *)
Definition missing_between (previous actual_time : Z) : list string :=
  let expected_time := previous + hour in
  let delta := actual_time - expected_time in
  let missing_hours := delta / hour in
  map (fun j => strftime (expected_time + hour * (j - 1)))
      (range 1 (missing_hours + 1)).

(** [dt + timedelta(hours=1)]: Python raises [OverflowError] when the
    sum is after [datetime.max]. *)
Definition add_hour (dt : Z) : result Z :=
  if dt + hour <=? datetime_max then Return (dt + hour)
  else Raise OverflowError.

(** The [for i in range(1, len(times))] loop; [previous] is
    [times[i-1]] and [rest] is [times[i:]].  Line 54 computes
    [expected_time] before anything is compared. *)
Fixpoint scan_loop (previous : Z) (rest : list Z)
    (duplicates : list Z) (missing : list string)
    : result (list Z * list string) :=
  match rest with
  | [] => Return (duplicates, missing)
  | actual_time :: rest' =>
      expected_time <- add_hour previous ;;
      if actual_time =? previous then
        scan_loop actual_time rest' (duplicates ++ [actual_time]) missing
      else if negb (actual_time =? expected_time) then
        scan_loop actual_time rest' duplicates
                  (missing ++ missing_between previous actual_time)
      else scan_loop actual_time rest' duplicates missing
  end.

Definition scan (times : list Z) : result (list Z * list string) :=
  match times with
  | [] => Return ([], [])
  | first :: rest => scan_loop first rest [] []
  end.

(** Lines 66-73. *)
Definition report (duplicates : list Z) (missing : list string)
    : bool * message :=
  if nonempty duplicates || nonempty missing then
    (false,
     ErrorsMessage
       ((if nonempty duplicates
         then [DuplicatesLine (map strftime duplicates)] else [])
        ++ (if nonempty missing
            then [MissingLine (length missing) (firstn 10 missing)
                              (20 <? length missing)%nat]
            else [])))
  else (true, ValidMessage).

(** [validate_klines]: an empty list and a [ValueError] of the parse
    are answered with [False] and a text; any other exception of the
    parse, and the [OverflowError] of the loop, leave the function. *)
Definition validate_klines (klines : list kline) : result (bool * message) :=
  match klines with
  | [] => Return (false, EmptyMessage)
  | _ :: _ =>
      match parse_times klines with
      | Raise ValueError => Return (false, FormatMessage)
      | Raise e => Raise e
      | Return times =>
          dm <- scan times ;;
          Return (report (fst dm) (snd dm))
      end
  end.

(** The same loop with the additions taken in [Z], where nothing
    overflows: what [scan_loop] returns when every [expected_time] is
    within range (lemma [scan_loop_in_range]). *)
Fixpoint unbounded_scan_loop (previous : Z) (rest : list Z)
    (duplicates : list Z) (missing : list string)
    : list Z * list string :=
  match rest with
  | [] => (duplicates, missing)
  | actual_time :: rest' =>
      let expected_time := previous + hour in
      if actual_time =? previous then
        unbounded_scan_loop actual_time rest'
                            (duplicates ++ [actual_time]) missing
      else if negb (actual_time =? expected_time) then
        unbounded_scan_loop actual_time rest' duplicates
                            (missing ++ missing_between previous actual_time)
      else unbounded_scan_loop actual_time rest' duplicates missing
  end.

Definition unbounded_scan (times : list Z) : list Z * list string :=
  match times with
  | [] => ([], [])
  | first :: rest => unbounded_scan_loop first rest [] []
  end.
End Validator.

(** Every [expected_time] the loop computes is within range: no
    timestamp but the last lies in the last hour before
    [datetime.max]. *)
Fixpoint additions_in_range (times : list Z) : Prop :=
  match times with
  | [] => True
  | previous :: rest =>
      match rest with
      | [] => True
      | _ :: _ => previous + hour <= datetime_max /\ additions_in_range rest
      end
  end.

(** ** A reference instance of the format

    The zero-padded form [YYYY-MM-DD HH:MM:SS], read as UTC, through the
    usual days-from-civil conversion.  The examples are evaluated with
    it. *)

Definition days_from_civil (y m d : Z) : Z :=
  let y' := if m <=? 2 then y - 1 else y in
  let era := y' / 400 in
  let yoe := y' - era * 400 in
  let mp := (m + 9) mod 12 in
  let doy := (153 * mp + 2) / 5 + d - 1 in
  let doe := yoe * 365 + yoe / 4 - yoe / 100 + doy in
  era * 146097 + doe - 719468.

Definition civil_from_days (z : Z) : Z * Z * Z :=
  let z' := z + 719468 in
  let era := z' / 146097 in
  let doe := z' - era * 146097 in
  let yoe := (doe - doe / 1460 + doe / 36524 - doe / 146096) / 365 in
  let doy := doe - (365 * yoe + yoe / 4 - yoe / 100) in
  let mp := (5 * doy + 2) / 153 in
  let d := doy - (153 * mp + 2) / 5 + 1 in
  let m := if mp <? 10 then mp + 3 else mp - 9 in
  let y := yoe + era * 400 in
  (if m <=? 2 then y + 1 else y, m, d).

Definition is_leap (y : Z) : bool :=
  (y mod 4 =? 0) && (negb (y mod 100 =? 0) || (y mod 400 =? 0)).

Definition days_in_month (y m : Z) : Z :=
  if m =? 2 then (if is_leap y then 29 else 28)
  else if (m =? 4) || (m =? 6) || (m =? 9) || (m =? 11) then 30
  else 31.

Definition digit_value (c : ascii) : option Z :=
  let n := Z.of_nat (nat_of_ascii c) in
  if (48 <=? n) && (n <=? 57) then Some (n - 48) else None.

Fixpoint digits_value (cs : list ascii) (acc : Z) : option Z :=
  match cs with
  | [] => Some acc
  | c :: cs' =>
      match digit_value c with
      | Some d => digits_value cs' (10 * acc + d)
      | None => None
      end
  end.

Definition field (cs : list ascii) (start len : nat) : option Z :=
  digits_value (firstn len (skipn start cs)) 0.

Definition char_is (cs : list ascii) (pos : nat) (c : ascii) : bool :=
  match nth_error cs pos with
  | Some c' => Ascii.eqb c c'
  | None => false
  end.

Definition canonical_strptime (s : string) : option Z :=
  let cs := String.list_ascii_of_string s in
  if (length cs =? 19)%nat
     && char_is cs 4 "-" && char_is cs 7 "-" && char_is cs 10 " "
     && char_is cs 13 ":" && char_is cs 16 ":"
  then
    match field cs 0 4, field cs 5 2, field cs 8 2,
          field cs 11 2, field cs 14 2, field cs 17 2 with
    | Some y, Some m, Some d, Some hh, Some mm, Some ss =>
        if (1 <=? y) && (y <=? 9999) && (1 <=? m) && (m <=? 12)
           && (1 <=? d) && (d <=? days_in_month y m)
           && (hh <=? 23) && (mm <=? 59) && (ss <=? 59)
        then Some (days_from_civil y m d * 86400 + hh * 3600 + mm * 60 + ss)
        else None
    | _, _, _, _, _, _ => None
    end
  else None.

Definition digit_char (d : Z) : ascii := ascii_of_nat (48 + Z.to_nat d).

Definition pad2 (n : Z) : list ascii :=
  [digit_char (n / 10 mod 10); digit_char (n mod 10)].

Definition pad4 (n : Z) : list ascii :=
  [digit_char (n / 1000 mod 10); digit_char (n / 100 mod 10);
   digit_char (n / 10 mod 10); digit_char (n mod 10)].

Definition canonical_strftime (t : Z) : string :=
  let secs := t mod 86400 in
  let '(y, m, d) := civil_from_days (t / 86400) in
  String.string_of_list_ascii
    (pad4 y ++ ["-"%char] ++ pad2 m ++ ["-"%char] ++ pad2 d ++ [" "%char]
     ++ pad2 (secs / 3600) ++ [":"%char] ++ pad2 (secs / 60 mod 60)
     ++ [":"%char] ++ pad2 (secs mod 60)).

Lemma days_in_month_le (y m : Z) : days_in_month y m <= 31.
Proof.
  unfold days_in_month.
  destruct (m =? 2); [destruct (is_leap y); lia|].
  destruct ((m =? 4) || (m =? 6) || (m =? 9) || (m =? 11)); lia.
Qed.

Lemma days_from_civil_le (y m d : Z) :
  1 <= y <= 9999 -> 1 <= m <= 12 -> 1 <= d <= 31 ->
  days_from_civil y m d <= 2932896.
Proof.
  intros Hy Hm Hd. unfold days_from_civil.
  assert (Hmp : (m <= 2 /\ (m + 9) mod 12 = m + 9)
                \/ (3 <= m /\ (m + 9) mod 12 = m - 3)).
  { destruct (Z_le_gt_dec m 2) as [Hle|Hgt].
    - left. split; [exact Hle|]. apply Z.mod_small. lia.
    - right. split; [lia|].
      replace (m + 9) with (m - 3 + 1 * 12) by lia.
      rewrite Z.mod_add by lia. apply Z.mod_small. lia. }
  destruct Hmp as [[Hle ->]|[Hge ->]].
  - destruct (m <=? 2) eqn:E; [|apply Z.leb_gt in E; lia].
    Z.div_mod_to_equations. lia.
  - destruct (m <=? 2) eqn:E; [apply Z.leb_le in E; lia|].
    Z.div_mod_to_equations. lia.
Qed.

Lemma canonical_strptime_max (s : string) (t : Z) :
  canonical_strptime s = Some t -> t <= datetime_max.
Proof.
  unfold canonical_strptime.
  destruct ((length (String.list_ascii_of_string s) =? 19)%nat && _ && _ && _
            && _ && _); [|discriminate].
  destruct (field _ 0 4) as [y|]; [|discriminate].
  destruct (field _ 5 2) as [m|]; [|discriminate].
  destruct (field _ 8 2) as [d|]; [|discriminate].
  destruct (field _ 11 2) as [hh|]; [|discriminate].
  destruct (field _ 14 2) as [mm|]; [|discriminate].
  destruct (field _ 17 2) as [ss|]; [|discriminate].
  destruct ((1 <=? y) && _ && _ && _ && _ && _ && _ && _ && _) eqn:E;
    [|discriminate].
  intros [= <-].
  repeat (apply andb_prop in E; destruct E as [E ?]).
  repeat match goal with
         | H : (_ <=? _) = true |- _ => apply Z.leb_le in H
         end.
  pose proof (days_in_month_le y m).
  pose proof (days_from_civil_le y m d).
  unfold datetime_max. lia.
Qed.

#[export] Instance canonical_format : DatetimeFormat := {|
  strptime := canonical_strptime;
  strftime := canonical_strftime;
  strptime_max := canonical_strptime_max
|}.

(** ** What the specification asks for, in its own words *)

(** "previous + interval, previous + 2*interval, ... up to the next
    observed timestamp": the timestamps at interval steps from [previous]
    that lie strictly before [actual_time]. *)
Definition intermediate_timestamps (previous actual_time : Z) : list Z :=
  map (fun k => previous + hour * Z.of_nat k)
      (seq 1 (Z.to_nat ((actual_time - previous - 1) / hour))).

(** n bars, one hour apart, the first at [t]. *)
Definition hourly (t : Z) (n : nat) : list Z :=
  map (fun k => t + hour * Z.of_nat k) (seq 0 n).

Definition value (x : option Q) : Q :=
  match x with
  | Some q => q
  | None => 0%Q
  end.

Definition no_bar : bar := mkBar 0 0 (fun _ => None).

(** "True Range per bar = max(high-low, |high-prevClose|,
    |low-prevClose|); first bar's True Range uses high-low only". *)
Definition true_range (df : list bar) (i : nat) : Q :=
  let b := nth i df no_bar in
  let high := value (cell b high_price) in
  let low := value (cell b low_price) in
  match i with
  | O => (high - low)%Q
  | S j =>
      let prev_close := value (cell (nth j df no_bar) close_price) in
      Qmax (high - low)%Q
           (Qmax (Qabs (high - prev_close)) (Qabs (low - prev_close)))
  end.

(** "ATR = simple rolling mean of True Range over the window": the plain
    average of the last [w] True Ranges, undefined before [w] bars. *)
Definition simple_mean_atr (w : nat) (df : list bar) (i : nat) : option Q :=
  if (w <=? S i)%nat
  then Some (Qsum (map (true_range df) (seq (S i - w) w))
             / inject_Z (Z.of_nat w))%Q
  else None.

(** Bars whose high, low and close are all present. *)
Definition complete (df : list bar) : Prop :=
  forall b, In b df ->
    exists h l c,
      cell b high_price = Some h
      /\ cell b low_price = Some l
      /\ cell b close_price = Some c.

(** Equality of cells up to the representation of a rational. *)
Definition cell_eq (x y : option Q) : Prop :=
  match x, y with
  | Some a, Some b => (a == b)%Q
  | None, None => True
  | _, _ => False
  end.

(** "propagating the nearest earlier value forward, then the nearest
    later value backward". *)
Definition nearest_earlier (s : series) (i : nat) (x : Q) : Prop :=
  exists j, (j <= i)%nat /\ nth j s None = Some x
            /\ forall k, (j < k <= i)%nat -> nth k s None = None.

Definition nearest_later (s : series) (i : nat) (x : Q) : Prop :=
  exists j, (i < j)%nat /\ nth j s None = Some x
            /\ forall k, (k < j)%nat -> nth k s None = None.

Definition filled_value (s : series) (i : nat) (v : option Q) : Prop :=
  (exists x, v = Some x /\ nearest_earlier s i x)
  \/ (exists x, v = Some x /\ nearest_later s i x)
  \/ (v = None /\ forall k, nth k s None = None).

(** A segment keeps a gap when some cell is still NaN. *)
Definition gap_remains (seg : list bar) : bool := any_null seg.

(** Adjacent bars one interval apart. *)
Fixpoint contiguous (seg : list bar) : Prop :=
  match seg with
  | [] => True
  | b :: seg' =>
      match seg' with
      | [] => True
      | b' :: _ => open_time b' - open_time b = hour /\ contiguous seg'
      end
  end.

(** Adjacent timestamps more than zero and less than one interval
    apart. *)
Fixpoint spaced_within_interval (times : list Z) : Prop :=
  match times with
  | [] => True
  | a :: rest =>
      match rest with
      | [] => True
      | b :: _ => 0 < b - a < hour /\ spaced_within_interval rest
      end
  end.

(** ** Example data *)

(** 2024-01-01 00:00:00 UTC *)
Definition t0 : Z := 1704067200.

Definition sample_cell (i : nat) (c : column) : option Q :=
  let base := inject_Z (100 + Z.of_nat (i mod 7)) in
  match c with
  | open_price => Some base
  | high_price => Some (base + 3)%Q
  | low_price => Some (base - 2)%Q
  | close_price => Some (base + 1)%Q
  | _ => Some 10%Q
  end.

Definition sample_bar (i : nat) : bar :=
  mkBar (t0 + hour * Z.of_nat i) (t0 + hour * Z.of_nat i + 3599)
        (sample_cell i).

(** [n] contiguous hourly bars. *)
Definition hourly_bars (n : nat) : list bar := map sample_bar (seq 0 n).

(** The same bar with no [quote_asset_volume], a column that no
    indicator reads. *)
Definition without_quote_volume (b : bar) : bar :=
  mkBar (open_time b) (close_time b)
        (fun c => match c with
                  | quote_asset_volume => None
                  | _ => cell b c
                  end).

(** What the sample package returns on a frame of floats. *)
Definition sample_columns (seg : list bar) : indicator_column -> series :=
  match ta_columns all_float64 seg with
  | Return columns => columns
  | Raise _ => fun _ => []
  end.

(** The record expected for 100 contiguous hourly bars. *)
Definition sample_artifact : artifact :=
  mkArtifact 1
             (strftime (t0 + hour * 99))
             (strftime (t0 + hour * 99 + 3599))
             (map to_record
                  (skipn 99 (with_indicators (sample_columns (hourly_bars 100))
                                             (hourly_bars 100)))).

(** [quote_asset_volume] is [null] in every record of the file. *)
Definition quote_volume_object : column -> dtype :=
  fun c => match c with
           | quote_asset_volume => object
           | _ => float64
           end.

(** A hundred hourly bars with three kinds of gap: no
    [quote_asset_volume] at all, no [high_price] in the first bar (only
    a later value can fill it) and no [close_price] in the sixth (the
    fifth bar's value fills it). *)
Definition with_gaps (ib : nat * bar) : bar :=
  mkBar (open_time (snd ib)) (close_time (snd ib))
        (fun c => match c with
                  | quote_asset_volume => None
                  | high_price =>
                      if (fst ib =? 0)%nat then None else cell (snd ib) c
                  | close_price =>
                      if (fst ib =? 5)%nat then None else cell (snd ib) c
                  | _ => cell (snd ib) c
                  end).

Definition gapped_segment : list bar :=
  map with_gaps (combine (seq 0 100) (hourly_bars 100)).

(** The same bar with a NaN for [close_price]. *)
Definition without_close (b : bar) : bar :=
  mkBar (open_time b) (close_time b)
        (fun c => match c with
                  | close_price => None
                  | _ => cell b c
                  end).

Definition kline_at (s : string) : kline :=
  [("open_time"%string, JString s); ("close_price"%string, JNumber 1%Q)].

(** ** Further notions used by the properties *)

(** The number of adjacent pairs of a frame that are not one interval
    apart. *)
Definition is_break (a b : bar) : nat :=
  if open_time b - open_time a =? hour then 0%nat else 1%nat.

Fixpoint breaks (df : list bar) : nat :=
  match df with
  | [] => 0%nat
  | a :: rest =>
      match rest with
      | [] => 0%nat
      | b :: _ => (is_break a b + breaks rest)%nat
      end
  end.

(** Each segment starts at a bar that is not one interval after the last
    bar of the segment before it. *)
Fixpoint separated (segments : list (list bar)) : Prop :=
  match segments with
  | [] => True
  | s :: rest =>
      match rest with
      | [] => True
      | s' :: _ =>
          open_time (hd no_bar s') - open_time (last s no_bar) <> hour
          /\ separated rest
      end
  end.

(** Timestamps the scan lets pass: every one differs from the one before
    it and is less than two intervals after it. *)
Fixpoint passes_scan (times : list Z) : Prop :=
  match times with
  | [] => True
  | a :: rest =>
      match rest with
      | [] => True
      | b :: _ => (b <> a /\ b - a < 2 * hour) /\ passes_scan rest
      end
  end.

(** The number the loop gave to a segment, and the bars of the segment an
    outcome accounts for: the records kept plus the 99 rows trimmed, or
    the length written in the warning. *)
Definition outcome_id (o : segment_outcome) : nat :=
  match o with
  | Processed a => segment_id a
  | Discarded id _ => id
  end.

Definition bars_accounted (o : segment_outcome) : nat :=
  match o with
  | Processed a => (length (records a) + 99)%nat
  | Discarded _ len => len
  end.

(** A segment the loop body gets through: it has not exactly 99 bars,
    and when it passes the gate the calls of the package return. *)
Definition segment_completes `{IndicatorPackage} (dtypes : column -> dtype)
    (segment : list bar) : Prop :=
  length segment <> 99%nat
  /\ ((99 <= length segment)%nat ->
      exists columns, ta_columns dtypes (fillna segment) = Return columns).

(** A row that is not there. *)
Definition no_indicators : indicators :=
  mkIndicators None None None None (fun _ => None).

(** The four rolling means of a record are all present, or all NaN. *)
Definition averages_present (r : record) : Prop :=
  MA7 (rec_indicators r) <> None /\ MA25 (rec_indicators r) <> None
  /\ MA99 (rec_indicators r) <> None /\ MA50 (rec_indicators r) <> None.

Definition averages_missing (r : record) : Prop :=
  MA7 (rec_indicators r) = None /\ MA25 (rec_indicators r) = None
  /\ MA99 (rec_indicators r) = None /\ MA50 (rec_indicators r) = None.

(** Three hourly bars, a gap, then a hundred hourly bars, and what a run
    makes of them. *)
Definition gapped_bars : list bar :=
  hourly_bars 3 ++ map sample_bar (seq 10 100).

Definition gapped_outcomes : list segment_outcome :=
  [Discarded 1 3;
   Processed
     (mkArtifact 2
                 (strftime (t0 + hour * 109))
                 (strftime (t0 + hour * 109 + 3599))
                 (map to_record
                      (skipn 99 (with_indicators
                                   (sample_columns
                                      (map sample_bar (seq 10 100)))
                                   (map sample_bar (seq 10 100))))))].

(** ** The rest of [calculate_indicators] (generate_training_dataset.py) *)

(** [a * k] *)
Definition series_scale_right (a : series) (k : Q) : series :=
  map (option_map (fun x => x * k)%Q) a.

(** [df['close_price'].rolling(window=w).mean()] *)
Definition MA_column (w : nat) (df : list bar) : series :=
  rolling_mean w (column_of close_price df).

(** Lines 59-60. *)
Definition KC_upper (df : list bar) : series :=
  series_add (MA_column 50 df) (series_scale multiplier (ATR50 df)).

Definition KC_lower (df : list bar) : series :=
  series_sub (MA_column 50 df) (series_scale multiplier (ATR50 df)).

(** A row of [df] with the five columns of [required_columns]. *)
Record training_row : Type := mkTrainingRow {
  train_bar : bar;
  train_MA7 : option Q;
  train_MA25 : option Q;
  train_MA99 : option Q;
  train_KC_upper : option Q;
  train_KC_lower : option Q
}.

Definition indicator_frame (df : list bar) : list training_row :=
  let ma7 := MA_column 7 df in
  let ma25 := MA_column 25 df in
  let ma99 := MA_column 99 df in
  let upper := KC_upper df in
  let lower := KC_lower df in
  map (fun ir : nat * bar =>
         let i := fst ir in
         mkTrainingRow (snd ir) (nth i ma7 None) (nth i ma25 None)
                       (nth i ma99 None) (nth i upper None)
                       (nth i lower None))
      (combine (seq 0 (length df)) df).

(** [df.dropna(subset=required_columns)] *)
Definition has_required (r : training_row) : bool :=
  negb (is_nan (train_MA7 r)) && negb (is_nan (train_MA25 r))
  && negb (is_nan (train_MA99 r)) && negb (is_nan (train_KC_upper r))
  && negb (is_nan (train_KC_lower r)).

Definition dropna (rows : list training_row) : list training_row :=
  filter has_required rows.

(** [calculate_indicators] from the sorted frame on: [df_final], the rows
    it keeps, with the count it prints as discarded. *)
Definition df_final (df : list bar) : list training_row :=
  dropna (indicator_frame df).

Definition discarded_points (df : list bar) : nat :=
  (length (indicator_frame df) - length (df_final df))%nat.

(** ** [calculate_moving_averages] (plot_btc_ma_kc.py) *)

(** [x > y] on floats: false as soon as one side is NaN. *)
Definition float_gt (x y : option Q) : bool :=
  match x, y with
  | Some a, Some b => negb (Qle_bool a b)
  | _, _ => false
  end.

(** Python's builtin [max(a, b, c)]: the first item is kept until a later
    one compares greater. *)
Definition py_max3 (a b c : option Q) : option Q :=
  let m := if float_gt b a then b else a in
  if float_gt c m then c else m.

(** The [TR] column of lines 58-62, row by row. *)
Definition plot_TR (df : list bar) : series :=
  let high := column_of high_price df in
  let low := column_of low_price df in
  let previous_close := shift1 (column_of close_price df) in
  map (fun i =>
         let h := nth i high None in
         let l := nth i low None in
         let pc := nth i previous_close None in
         py_max3 (lift2 Qminus h l)
                 (option_map Qabs (lift2 Qminus h pc))
                 (option_map Qabs (lift2 Qminus l pc)))
      (seq 0 (length df)).

(** Lines 65-69. *)
Definition ATR_50 (df : list bar) : series := rolling_mean 50 (plot_TR df).

Definition Upper_Channel (df : list bar) : series :=
  series_add (MA_column 50 df) (series_scale_right (ATR_50 df) multiplier).

Definition Lower_Channel (df : list bar) : series :=
  series_sub (MA_column 50 df) (series_scale_right (ATR_50 df) multiplier).

Definition no_row : training_row :=
  mkTrainingRow no_bar None None None None None.

(** ** [sort_klines] and [main] (validate_json.py) *)

(** [x < y] on two keys: strings by code point, numbers by value; Python
    raises [TypeError] for any other pair. *)
Definition key_lt (x y : json) : result bool :=
  match x, y with
  | JString a, JString b => Return (String.ltb a b)
  | JNumber a, JNumber b => Return (negb (Qle_bool b a))
  | _, _ => Raise TypeError
  end.

(** [sorted(klines, key=...)] is stable and only asks [<]: as an
    insertion from the right, a record goes past the records whose key
    is smaller than its own, and stops at the first that is not. *)
Fixpoint insert_keyed (x : json * kline) (l : list (json * kline))
    : result (list (json * kline)) :=
  match l with
  | [] => Return [x]
  | y :: l' =>
      smaller <- key_lt (fst y) (fst x) ;;
      if smaller
      then (r <- insert_keyed x l' ;; Return (y :: r))
      else Return (x :: l)
  end.

Fixpoint sort_keyed (l : list (json * kline)) : result (list (json * kline)) :=
  match l with
  | [] => Return []
  | x :: l' =>
      s <- sort_keyed l' ;;
      insert_keyed x s
  end.

(** The keys are taken from every record before any comparison. *)
Fixpoint open_time_keys (klines : list kline) : result (list json) :=
  match klines with
  | [] => Return []
  | k :: klines' =>
      v <- getitem k "open_time"%string ;;
      vs <- open_time_keys klines' ;;
      Return (v :: vs)
  end.

Definition sort_klines (klines : list kline) : result (list kline) :=
  keys <- open_time_keys klines ;;
  s <- sort_keyed (combine keys klines) ;;
  Return (map snd s).

(** [main] from the loaded list on: nothing is validated when the list
    is empty; otherwise the verdict printed is that of [validate_klines]
    on the sorted list. *)
Definition main `{DatetimeFormat} (klines : list kline)
    : result (option (bool * message)) :=
  match klines with
  | [] => Return None
  | _ :: _ =>
      sorted_klines <- sort_klines klines ;;
      v <- validate_klines sorted_klines ;;
      Return (Some v)
  end.

(** The same sort on records whose keys are known to be strings. *)
Fixpoint insert_by_string (x : string * kline) (l : list (string * kline))
    : list (string * kline) :=
  match l with
  | [] => [x]
  | y :: l' =>
      if String.ltb (fst y) (fst x)
      then y :: insert_by_string x l'
      else x :: l
  end.

Fixpoint sort_by_string (l : list (string * kline)) : list (string * kline) :=
  match l with
  | [] => []
  | x :: l' => insert_by_string x (sort_by_string l')
  end.

(** The string under [open_time], when there is one. *)
Definition open_time_string (k : kline) : option string :=
  match getitem k "open_time"%string with
  | Return (JString s) => Some s
  | _ => None
  end.

(** Ascending keys, and a string key seen as the JSON value it is. *)
Definition key_le (x y : string * kline) : Prop :=
  String.leb (fst x) (fst y) = true.

Definition tag (p : string * kline) : json * kline :=
  (JString (fst p), snd p).

(** Two records in the order of their [open_time] strings, and the
    records that carry a given [open_time] string. *)
Definition kline_le (a b : kline) : Prop :=
  match open_time_string a, open_time_string b with
  | Some sa, Some sb => String.leb sa sb = true
  | _, _ => False
  end.

Definition has_open_time (s : string) (k : kline) : bool :=
  match open_time_string k with
  | Some s' => String.eqb s' s
  | None => false
  end.

(** A pair whose first component is the [open_time] string of its
    record, and a record whose [open_time] parses to [t]. *)
Definition keyed (p : string * kline) : Prop :=
  open_time_string (snd p) = Some (fst p).

Definition parses `{DatetimeFormat} (k : kline) (t : Z) : Prop :=
  exists s, open_time_string k = Some s /\ strptime s = Some t.

(** * Properties *)

(** ** The Segmenter *)

Section SegmenterFacts.


Lemma segment_loop_concat (prev : bar) (rest cur : list bar)
    (segs : list (list bar)) :
  concat (segment_loop prev rest cur segs) = concat segs ++ cur ++ rest.
Proof.
  revert prev cur segs.
  induction rest as [|x rest IH]; intros prev cur segs; simpl.
  - rewrite concat_app. simpl. rewrite !app_nil_r. reflexivity.
  - destruct (open_time x - open_time prev =? hour); rewrite IH.
    + rewrite <- app_assoc. reflexivity.
    + rewrite concat_app. simpl. rewrite app_nil_r, <- app_assoc.
      reflexivity.
Qed.


Lemma contiguous_snoc (cur : list bar) (prev x : bar) :
  contiguous cur ->
  last cur no_bar = prev ->
  open_time x - open_time prev = hour ->
  contiguous (cur ++ [x]).
Proof.
  induction cur as [|b cur IH]; intros Hc Hl Hx.
  - exact I.
  - destruct cur as [|b' cur'].
    + simpl in *. subst b. split; [assumption|exact I].
    + destruct Hc as [Hb Hc]. split; [exact Hb|].
      apply IH; assumption.
Qed.

Lemma last_snoc (cur : list bar) (x d : bar) : last (cur ++ [x]) d = x.
Proof. apply last_last. Qed.


Lemma segment_loop_contiguous (prev : bar) (rest cur : list bar)
    (segs : list (list bar)) :
  contiguous cur ->
  last cur no_bar = prev ->
  Forall contiguous segs ->
  Forall contiguous (segment_loop prev rest cur segs).
Proof.
  revert prev cur segs.
  induction rest as [|x rest IH]; intros prev cur segs Hc Hl Hsegs; simpl.
  - apply Forall_app. split; [assumption|]. constructor; [assumption|constructor].
  - destruct (open_time x - open_time prev =? hour) eqn:E.
    + apply IH; [|apply last_snoc|assumption].
      apply contiguous_snoc with prev; [assumption..|].
      apply Z.eqb_eq. exact E.
    + apply IH; [exact I|reflexivity|].
      apply Forall_app. split; [assumption|].
      constructor; [assumption|constructor].
Qed.




Lemma contiguous_nth (seg : list bar) (k : nat) :
  contiguous seg ->
  (k < length seg)%nat ->
  open_time (nth k seg no_bar)
  = open_time (nth 0 seg no_bar) + hour * Z.of_nat k.
Proof.
  revert k. induction seg as [|b seg IH]; intros k Hc Hk.
  - simpl in Hk. lia.
  - destruct k as [|k].
    + simpl. lia.
    + destruct seg as [|b' seg'].
      * simpl in Hk. lia.
      * destruct Hc as [Hb Hc].
        change (nth (S k) (b :: b' :: seg') no_bar) with (nth k (b' :: seg') no_bar).
        rewrite IH; [|assumption|simpl in *; lia].
        simpl nth. lia.
Qed.

Lemma split_segments_concat (df : list bar) (segments : list (list bar)) :
  split_segments df = Return segments -> concat segments = df.
Proof.
  destruct df as [|b rest]; simpl; intros E; [discriminate|].
  injection E as <-. apply segment_loop_concat.
Qed.

Lemma split_segments_contiguous (df : list bar) (segments : list (list bar)) :
  split_segments df = Return segments -> Forall contiguous segments.
Proof.
  destruct df as [|b rest]; simpl; intros E; [discriminate|].
  injection E as <-.
  apply segment_loop_contiguous; [exact I|reflexivity|constructor].
Qed.

End SegmenterFacts.



(** C7. On an empty frame the Segmenter raises ([df.iloc[0]] is an
    [IndexError], the error the specification calls EmptySequenceError);
    on a frame of one bar it returns exactly one segment, holding that
    bar. *)
Theorem segmenter_empty_and_singleton :
  split_segments [] = Raise IndexError
  /\ forall b : bar, split_segments [b] = Return [[b]].
Proof.
  split; [reflexivity|]. intros b. reflexivity.
Qed.



(** ** The Gap Validator *)

Section ValidatorFacts.
Context `{DatetimeFormat}.

Lemma hour_pos : 0 < hour.
Proof. reflexivity. Qed.

Lemma hourly_S (t : Z) (n : nat) :
  hourly t (S n) = t :: hourly (t + hour) n.
Proof.
  unfold hourly. rewrite <- cons_seq, <- seq_shift, map_cons, map_map.
  f_equal.
  - unfold hour. lia.
  - apply map_ext. intros k. unfold hour. lia.
Qed.

Lemma last_hourly (t : Z) (n : nat) :
  last (hourly (t + hour) n) t = t + hour * Z.of_nat n.
Proof.
  revert t. induction n as [|n IH]; intros t.
  - simpl. unfold hour. lia.
  - rewrite hourly_S.
    transitivity (last (hourly (t + hour + hour) n) (t + hour)).
    + generalize (hourly (t + hour + hour) n) as l. intros l.
      revert t. induction l as [|y l IHl]; intros t; [reflexivity|].
      destruct l; [reflexivity|]. simpl in *. apply (IHl t).
    + rewrite IH. unfold hour. lia.
Qed.

(** One turn of the loop, by the case of the pair. *)
Lemma scan_step_duplicate (previous : Z) (rest : list Z)
    (duplicates : list Z) (missing : list string) :
  unbounded_scan_loop previous (previous :: rest) duplicates missing
  = unbounded_scan_loop previous rest (duplicates ++ [previous]) missing.
Proof. simpl. rewrite Z.eqb_refl. reflexivity. Qed.

Lemma scan_step_contiguous (previous : Z) (rest : list Z)
    (duplicates : list Z) (missing : list string) :
  unbounded_scan_loop previous (previous + hour :: rest) duplicates missing
  = unbounded_scan_loop (previous + hour) rest duplicates missing.
Proof.
  simpl. rewrite Z.eqb_refl.
  destruct (previous + hour =? previous) eqn:E; [|reflexivity].
  apply Z.eqb_eq in E. unfold hour in E. lia.
Qed.

Lemma scan_step_gap (previous actual_time : Z) (rest : list Z)
    (duplicates : list Z) (missing : list string) :
  actual_time <> previous ->
  actual_time <> previous + hour ->
  unbounded_scan_loop previous (actual_time :: rest) duplicates missing
  = unbounded_scan_loop actual_time rest duplicates
              (missing ++ missing_between previous actual_time).
Proof.
  intros H1 H2. simpl.
  apply Z.eqb_neq in H1. apply Z.eqb_neq in H2. rewrite H1, H2.
  reflexivity.
Qed.

(** What the code appends for a pair, whatever the delta: the first
    [(actual - previous) / hour - 1] steps after [previous]. *)
Lemma missing_between_count (previous actual_time : Z) :
  missing_between previous actual_time
  = map (fun k => strftime (previous + hour * Z.of_nat k))
        (seq 1 (Z.to_nat ((actual_time - previous) / hour - 1))).
Proof.
  unfold missing_between, range.
  replace (actual_time - (previous + hour))
    with (actual_time - previous + (-1) * hour) by lia.
  rewrite Z.div_add by (unfold hour; lia).
  replace ((actual_time - previous) / hour + -1 + 1 - 1)
    with ((actual_time - previous) / hour - 1) by lia.
  rewrite <- seq_shift, !map_map.
  apply map_ext. intros k. f_equal. unfold hour. lia.
Qed.

Lemma aligned_steps (previous actual_time : Z) :
  previous < actual_time ->
  (hour | actual_time - previous) ->
  (actual_time - previous - 1) / hour = (actual_time - previous) / hour - 1.
Proof.
  intros Hlt [n Hn]. rewrite Hn.
  rewrite Z.div_mul by (unfold hour; lia).
  symmetry. apply Z.div_unique with (r := hour - 1); unfold hour in *; lia.
Qed.

Lemma missing_between_aligned (previous actual_time : Z) :
  previous < actual_time ->
  (hour | actual_time - previous) ->
  missing_between previous actual_time
  = map strftime (intermediate_timestamps previous actual_time).
Proof.
  intros Hlt Hdiv. rewrite missing_between_count.
  unfold intermediate_timestamps.
  rewrite aligned_steps by assumption.
  rewrite map_map. reflexivity.
Qed.

Lemma missing_between_close (previous actual_time : Z) :
  actual_time - previous < hour ->
  missing_between previous actual_time
  = map strftime (intermediate_timestamps previous actual_time).
Proof.
  intros Hlt. rewrite missing_between_count. unfold intermediate_timestamps.
  assert (H1 : (actual_time - previous) / hour < 1)
    by (apply Z.div_lt_upper_bound; [apply hour_pos|lia]).
  assert (H2 : (actual_time - previous - 1) / hour < 1)
    by (apply Z.div_lt_upper_bound; [apply hour_pos|lia]).
  replace (Z.to_nat ((actual_time - previous) / hour - 1)) with 0%nat by lia.
  replace (Z.to_nat ((actual_time - previous - 1) / hour)) with 0%nat by lia.
  reflexivity.
Qed.

(** The appended timestamps are the intermediate ones when the delta is
    a whole number of intervals, and when it is below one interval. *)
Lemma missing_between_intermediate (previous actual_time : Z) :
  (hour | actual_time - previous) \/ actual_time - previous < hour ->
  missing_between previous actual_time
  = map strftime (intermediate_timestamps previous actual_time).
Proof.
  intros [Hdiv|Hlt]; [|apply missing_between_close; exact Hlt].
  destruct (Z.lt_ge_cases previous actual_time) as [Hpos|Hneg].
  - apply missing_between_aligned; assumption.
  - apply missing_between_close. unfold hour. lia.
Qed.

(** [intermediate_timestamps] lists, in ascending order, exactly the
    timestamps at whole steps after [previous] and before
    [actual_time]. *)
Lemma intermediate_timestamps_spec (previous actual_time t : Z) :
  In t (intermediate_timestamps previous actual_time)
  <-> exists k, 1 <= k /\ t = previous + hour * k /\ t < actual_time.
Proof.
  unfold intermediate_timestamps. rewrite in_map_iff. split.
  - intros (k & <- & Hk). apply in_seq in Hk.
    exists (Z.of_nat k). split; [lia|]. split; [reflexivity|].
    assert (Hle : Z.of_nat k <= (actual_time - previous - 1) / hour) by lia.
    assert (Hm : hour * ((actual_time - previous - 1) / hour)
                 <= actual_time - previous - 1)
      by (apply Z.mul_div_le; apply hour_pos).
    unfold hour in *. nia.
  - intros (k & Hk & -> & Hlt).
    exists (Z.to_nat k). split; [f_equal; lia|].
    apply in_seq.
    assert (Hle : k <= (actual_time - previous - 1) / hour).
    { apply Z.div_le_lower_bound; [apply hour_pos|]. lia. }
    lia.
Qed.

Lemma scan_loop_hourly (previous : Z) (n : nat)
    (duplicates : list Z) (missing : list string) :
  unbounded_scan_loop previous (hourly (previous + hour) n) duplicates missing
  = (duplicates, missing).
Proof.
  revert previous. induction n as [|n IH]; intros previous.
  - reflexivity.
  - rewrite hourly_S, scan_step_contiguous. apply IH.
Qed.

Lemma scan_loop_app (previous : Z) (l1 l2 : list Z)
    (duplicates : list Z) (missing : list string) :
  unbounded_scan_loop previous (l1 ++ l2) duplicates missing
  = unbounded_scan_loop (last l1 previous) l2
              (fst (unbounded_scan_loop previous l1 duplicates missing))
              (snd (unbounded_scan_loop previous l1 duplicates missing)).
Proof.
  revert previous duplicates missing.
  induction l1 as [|x l1 IH]; intros previous duplicates missing.
  - reflexivity.
  - assert (Hl : last (x :: l1) previous = last l1 x).
    { clear. revert x previous.
      induction l1 as [|y l1 IHl]; intros x d; [reflexivity|].
      change (last (x :: y :: l1) d) with (last (y :: l1) d).
      rewrite (IHl y d), (IHl y x). reflexivity. }
    rewrite Hl. simpl.
    destruct (x =? previous); [apply IH|].
    destruct (negb (x =? previous + hour)); apply IH.
Qed.

(** One turn of the loop when [expected_time] is within range. *)
Lemma scan_loop_cons (previous actual_time : Z) (rest : list Z)
    (duplicates : list Z) (missing : list string) :
  previous + hour <= datetime_max ->
  scan_loop previous (actual_time :: rest) duplicates missing
  = if actual_time =? previous then
      scan_loop actual_time rest (duplicates ++ [actual_time]) missing
    else if negb (actual_time =? previous + hour) then
      scan_loop actual_time rest duplicates
                (missing ++ missing_between previous actual_time)
    else scan_loop actual_time rest duplicates missing.
Proof.
  intros Hmax. cbn [scan_loop]. unfold add_hour.
  destruct (previous + hour <=? datetime_max) eqn:E;
    [reflexivity|apply Z.leb_gt in E; lia].
Qed.

(** One turn of the loop when it is not: line 54 raises. *)
Lemma scan_loop_cons_overflow (previous actual_time : Z) (rest : list Z)
    (duplicates : list Z) (missing : list string) :
  datetime_max < previous + hour ->
  scan_loop previous (actual_time :: rest) duplicates missing
  = Raise OverflowError.
Proof.
  intros Hmax. cbn [scan_loop]. unfold add_hour.
  destruct (previous + hour <=? datetime_max) eqn:E;
    [apply Z.leb_le in E; lia|reflexivity].
Qed.

Lemma scan_loop_in_range (previous : Z) (rest : list Z)
    (duplicates : list Z) (missing : list string) :
  additions_in_range (previous :: rest) ->
  scan_loop previous rest duplicates missing
  = Return (unbounded_scan_loop previous rest duplicates missing).
Proof.
  revert previous duplicates missing.
  induction rest as [|x rest IH]; intros previous duplicates missing Hr.
  - reflexivity.
  - destruct Hr as [Hmax Hr]. rewrite scan_loop_cons by exact Hmax.
    cbn [unbounded_scan_loop].
    destruct (x =? previous); [apply IH; exact Hr|].
    destruct (negb (x =? previous + hour)); apply IH; exact Hr.
Qed.

Lemma scan_loop_overflow (previous : Z) (rest : list Z)
    (duplicates : list Z) (missing : list string) :
  ~ additions_in_range (previous :: rest) ->
  scan_loop previous rest duplicates missing = Raise OverflowError.
Proof.
  revert previous duplicates missing.
  induction rest as [|x rest IH]; intros previous duplicates missing Hr.
  - exfalso. apply Hr. exact I.
  - destruct (Z_le_gt_dec (previous + hour) datetime_max) as [Hle|Hgt].
    + rewrite scan_loop_cons by exact Hle.
      assert (Hr' : ~ additions_in_range (x :: rest))
        by (intros Hx; apply Hr; split; assumption).
      destruct (x =? previous); [apply IH; exact Hr'|].
      destruct (negb (x =? previous + hour)); apply IH; exact Hr'.
    + apply scan_loop_cons_overflow. lia.
Qed.

Lemma scan_in_range (times : list Z) :
  additions_in_range times -> scan times = Return (unbounded_scan times).
Proof.
  destruct times as [|t rest]; [reflexivity|]. apply scan_loop_in_range.
Qed.

Lemma scan_overflow (times : list Z) :
  ~ additions_in_range times -> scan times = Raise OverflowError.
Proof.
  destruct times as [|t rest]; [intros Hr; exfalso; apply Hr; exact I|].
  apply scan_loop_overflow.
Qed.

Lemma additions_in_range_dec (times : list Z) :
  additions_in_range times \/ ~ additions_in_range times.
Proof.
  induction times as [|a rest IH]; [left; exact I|].
  destruct rest as [|b rest]; [left; exact I|].
  destruct (Z_le_gt_dec (a + hour) datetime_max) as [Hle|Hgt].
  - destruct IH as [IH|IH]; [left; split; assumption|].
    right. intros [_ Hr]. exact (IH Hr).
  - right. intros [Hle _]. lia.
Qed.

(** Timestamps that all lie an interval before the end are in range;
    so is an hourly run whose last timestamp exists. *)
Lemma additions_in_range_all (times : list Z) :
  Forall (fun t => t + hour <= datetime_max) times ->
  additions_in_range times.
Proof.
  induction 1 as [|a rest Ha _ IH]; [exact I|].
  destruct rest; [exact I|]. split; assumption.
Qed.

Lemma additions_in_range_hourly (t : Z) (n : nat) :
  t + hour * Z.of_nat n <= datetime_max ->
  additions_in_range (hourly t (S n)).
Proof.
  revert t. induction n as [|n IH]; intros t Hmax; [exact I|].
  rewrite hourly_S. specialize (IH (t + hour)).
  rewrite hourly_S in IH |- *.
  split; [unfold hour in *; lia|apply IH; lia].
Qed.

Lemma additions_in_range_app (l1 : list Z) (y : Z) (l2 : list Z) (d : Z) :
  additions_in_range l1 ->
  (l1 <> [] -> last l1 d + hour <= datetime_max) ->
  additions_in_range (y :: l2) ->
  additions_in_range (l1 ++ y :: l2).
Proof.
  intros H1 Hlast H2. induction l1 as [|a l1 IH]; [exact H2|].
  destruct l1 as [|b l1].
  - split; [apply Hlast; discriminate|exact H2].
  - destruct H1 as [Ha H1]. split; [exact Ha|].
    apply IH; [exact H1|]. intros _. apply Hlast. discriminate.
Qed.

Lemma last_hourly_S (t : Z) (n : nat) (d : Z) :
  last (hourly t (S n)) d = t + hour * Z.of_nat n.
Proof.
  revert t. induction n as [|n IH]; intros t.
  - cbn. unfold hour. lia.
  - rewrite hourly_S, hourly_S.
    change (last (t :: t + hour :: hourly (t + hour + hour) n) d)
      with (last (t + hour :: hourly (t + hour + hour) n) d).
    rewrite <- hourly_S, IH. unfold hour. lia.
Qed.

(** What [strptime] returns is not after [datetime.max]. *)
Lemma parse_open_time_max (k : kline) (t : Z) :
  parse_open_time k = Return t -> t <= datetime_max.
Proof.
  unfold parse_open_time, bind.
  destruct (getitem k "open_time"%string) as [v|e]; [|discriminate].
  destruct v as [s| |]; try discriminate.
  destruct (strptime s) as [t'|] eqn:E; [|discriminate].
  intros [= <-]. apply (strptime_max s). exact E.
Qed.

Lemma parse_times_max (klines : list kline) (times : list Z) :
  parse_times klines = Return times ->
  Forall (fun t => t <= datetime_max) times.
Proof.
  revert times. induction klines as [|k klines IH]; intros times;
    cbn [parse_times].
  - intros [= <-]. constructor.
  - unfold bind.
    destruct (parse_open_time k) as [t|e] eqn:P; [|discriminate].
    destruct (parse_times klines) as [ts|e]; [|discriminate].
    intros [= <-]. constructor; [apply (parse_open_time_max k); exact P|].
    apply IH. reflexivity.
Qed.

Lemma In_last_hourly (t : Z) (n : nat) :
  In (t + hour * Z.of_nat n) (hourly t (S n)).
Proof.
  unfold hourly. apply in_map_iff. exists n. split; [reflexivity|].
  apply in_seq. lia.
Qed.

(** Two hourly runs that parsed, the second starting no earlier than an
    interval after the end of the first (or at its end, when that end
    lies an interval before [datetime.max]), are in range. *)
Lemma additions_in_range_two_runs (l : list Z) (t t' : Z) (i m : nat) :
  Forall (fun x => x <= datetime_max)
         (l ++ hourly t (S i) ++ hourly t' (S m)) ->
  t + hour * Z.of_nat i + hour <= datetime_max ->
  t <= t' ->
  additions_in_range (hourly t (S i) ++ hourly t' (S m)).
Proof.
  intros Hall Hend Hle.
  rewrite Forall_forall in Hall.
  assert (Hlast : t' + hour * Z.of_nat m <= datetime_max).
  { apply Hall. apply in_or_app. right. apply in_or_app. right.
    apply In_last_hourly. }
  rewrite (hourly_S t' m).
  apply additions_in_range_app with (d := 0).
  - apply additions_in_range_hourly. unfold hour in *. lia.
  - intros _. rewrite last_hourly_S. exact Hend.
  - rewrite <- hourly_S. apply additions_in_range_hourly. exact Hlast.
Qed.

Lemma parsed_two_runs_in_range (klines : list kline) (t t' : Z) (i m : nat) :
  parse_times klines = Return (hourly t (S i) ++ hourly t' (S m)) ->
  t + hour * Z.of_nat i + hour <= t'
  \/ t + hour * Z.of_nat i + hour <= datetime_max ->
  t <= t' ->
  additions_in_range (hourly t (S i) ++ hourly t' (S m)).
Proof.
  intros Hp Hend Hle. pose proof (parse_times_max _ _ Hp) as Hall.
  apply (additions_in_range_two_runs []); [exact Hall| |exact Hle].
  destruct Hend as [Hend|Hend]; [|exact Hend].
  rewrite Forall_forall in Hall.
  assert (Ht' : t' <= datetime_max).
  { apply Hall. apply in_or_app. right. rewrite hourly_S. left. reflexivity. }
  lia.
Qed.

Lemma parsed_run_in_range (klines : list kline) (t : Z) (n : nat) :
  parse_times klines = Return (hourly t (S n)) ->
  additions_in_range (hourly t (S n)).
Proof.
  intros Hp. pose proof (parse_times_max _ _ Hp) as Hall.
  rewrite Forall_forall in Hall.
  apply additions_in_range_hourly. apply Hall. apply In_last_hourly.
Qed.

Lemma parse_times_nonempty (klines : list kline) (times : list Z) :
  parse_times klines = Return times ->
  times <> [] -> klines <> [].
Proof.
  intros Hp Hne ->. simpl in Hp. injection Hp as <-. contradiction.
Qed.

(** Once the timestamps have parsed and the additions are in range, the
    answer is the report of the scan. *)
Lemma validate_scanned (klines : list kline) (times : list Z)
    (duplicates : list Z) (missing : list string) :
  parse_times klines = Return times ->
  klines <> [] ->
  scan times = Return (duplicates, missing) ->
  validate_klines klines = Return (report duplicates missing).
Proof.
  intros Hp Hne Hs. destruct klines as [|k klines]; [contradiction|].
  unfold validate_klines. rewrite Hp, Hs. reflexivity.
Qed.

Lemma validate_parsed (klines : list kline) (times : list Z) :
  parse_times klines = Return times ->
  klines <> [] ->
  additions_in_range times ->
  validate_klines klines
  = Return (report (fst (unbounded_scan times)) (snd (unbounded_scan times))).
Proof.
  intros Hp Hne Hr. destruct klines as [|k klines]; [contradiction|].
  unfold validate_klines. rewrite Hp, (scan_in_range _ Hr). reflexivity.
Qed.

Lemma validate_overflow (klines : list kline) (times : list Z) :
  parse_times klines = Return times ->
  ~ additions_in_range times ->
  validate_klines klines = Raise OverflowError.
Proof.
  intros Hp Hr. destruct klines as [|k klines].
  - simpl in Hp. injection Hp as <-. exfalso. apply Hr. exact I.
  - unfold validate_klines. rewrite Hp, (scan_overflow _ Hr). reflexivity.
Qed.

Lemma scan_perfect (t : Z) (n : nat) :
  unbounded_scan (hourly t (S n)) = ([], []).
Proof. rewrite hourly_S. simpl. apply scan_loop_hourly. Qed.

Lemma scan_one_duplicate (t : Z) (i m : nat) :
  unbounded_scan (hourly t (S i) ++ hourly (t + hour * Z.of_nat i) (S m))
  = ([t + hour * Z.of_nat i], []).
Proof.
  rewrite hourly_S. rewrite <- app_comm_cons. unfold unbounded_scan.
  rewrite scan_loop_app, scan_loop_hourly, last_hourly. cbn [fst snd].
  rewrite hourly_S, scan_step_duplicate. apply scan_loop_hourly.
Qed.

Lemma scan_one_removed (t : Z) (i m : nat) :
  unbounded_scan
    (hourly t (S i) ++ hourly (t + hour * Z.of_nat (S (S i))) (S m))
  = ([], [strftime (t + hour * Z.of_nat (S i))]).
Proof.
  rewrite hourly_S. rewrite <- app_comm_cons. unfold unbounded_scan.
  rewrite scan_loop_app, scan_loop_hourly, last_hourly. cbn [fst snd].
  rewrite hourly_S, scan_step_gap by (unfold hour; lia).
  rewrite scan_loop_hourly. f_equal.
  rewrite missing_between_count.
  replace ((t + hour * Z.of_nat (S (S i)) - (t + hour * Z.of_nat i)) / hour - 1)
    with 1.
  - change (Z.to_nat 1) with 1%nat. cbn [seq map app].
    do 2 f_equal. unfold hour. lia.
  - replace (t + hour * Z.of_nat (S (S i)) - (t + hour * Z.of_nat i))
      with (2 * hour) by (unfold hour; lia).
    rewrite Z.div_mul by (unfold hour; lia). reflexivity.
Qed.

Lemma scan_spaced_within (previous : Z) (rest : list Z)
    (duplicates : list Z) (missing : list string) :
  spaced_within_interval (previous :: rest) ->
  unbounded_scan_loop previous rest duplicates missing = (duplicates, missing).
Proof.
  revert previous. induction rest as [|x rest IH]; intros previous Hs.
  - reflexivity.
  - destruct Hs as [Hx Hs].
    rewrite scan_step_gap by (unfold hour in *; lia).
    rewrite missing_between_count.
    replace (Z.to_nat ((x - previous) / hour - 1)) with 0%nat.
    + simpl. rewrite app_nil_r. apply IH. exact Hs.
    + rewrite Z.div_small by lia. reflexivity.
Qed.

End ValidatorFacts.

(** C4, as the code has it.  For a pair whose [previous] is not in the
    last hour before [datetime.max] and whose delta is a whole number of
    intervals or is below one interval, the scan does as follows: the
    next timestamp equal to previous + interval adds nothing; equal to
    previous, it is appended to the duplicates; anything else appends to
    the missing list every timestamp at interval steps strictly between
    the two, in ascending order.  Hence a perfect hourly sequence is
    reported valid with both lists empty, a perfect sequence with one
    timestamp repeated (not in that last hour) yields exactly that one
    duplicate, and a perfect sequence with one interior bar removed
    yields exactly one missing timestamp, the removed one. *)
Theorem gap_scan_classification `{DatetimeFormat} :
  (forall previous actual_time rest duplicates missing,
      previous + hour <= datetime_max ->
      (hour | actual_time - previous) \/ actual_time - previous < hour ->
      (actual_time = previous + hour ->
       scan_loop previous (actual_time :: rest) duplicates missing
       = scan_loop actual_time rest duplicates missing)
      /\ (actual_time = previous ->
          scan_loop previous (actual_time :: rest) duplicates missing
          = scan_loop actual_time rest (duplicates ++ [actual_time]) missing)
      /\ (actual_time <> previous + hour ->
          actual_time <> previous ->
          scan_loop previous (actual_time :: rest) duplicates missing
          = scan_loop actual_time rest duplicates
              (missing
               ++ map strftime (intermediate_timestamps previous actual_time))))
  /\ (forall klines t n,
         parse_times klines = Return (hourly t (S n)) ->
         scan (hourly t (S n)) = Return ([], [])
         /\ validate_klines klines = Return (true, ValidMessage))
  /\ (forall klines t i m,
         t + hour * Z.of_nat i + hour <= datetime_max ->
         parse_times klines
         = Return (hourly t (S i) ++ hourly (t + hour * Z.of_nat i) (S m)) ->
         scan (hourly t (S i) ++ hourly (t + hour * Z.of_nat i) (S m))
         = Return ([t + hour * Z.of_nat i], [])
         /\ validate_klines klines
            = Return (false,
                      ErrorsMessage
                        [DuplicatesLine [strftime (t + hour * Z.of_nat i)]]))
  /\ (forall klines t i m,
         parse_times klines
         = Return (hourly t (S i)
                   ++ hourly (t + hour * Z.of_nat (S (S i))) (S m)) ->
         scan (hourly t (S i) ++ hourly (t + hour * Z.of_nat (S (S i))) (S m))
         = Return ([], [strftime (t + hour * Z.of_nat (S i))])
         /\ validate_klines klines
            = Return (false,
                      ErrorsMessage
                        [MissingLine 1 [strftime (t + hour * Z.of_nat (S i))]
                                     false])).
Proof.
  split; [|split; [|split]].
  - intros previous actual_time rest duplicates missing Hmax Hdelta.
    rewrite scan_loop_cons by exact Hmax.
    split; [|split].
    + intros ->. rewrite Z.eqb_refl.
      destruct (previous + hour =? previous) eqn:E; [|reflexivity].
      apply Z.eqb_eq in E. unfold hour in E. lia.
    + intros ->. rewrite Z.eqb_refl. reflexivity.
    + intros H1 H2. apply Z.eqb_neq in H1. apply Z.eqb_neq in H2.
      rewrite H1, H2. cbn [negb].
      rewrite missing_between_intermediate by exact Hdelta. reflexivity.
  - intros klines t n Hp.
    pose proof (parsed_run_in_range _ _ _ Hp) as Hr.
    split; [rewrite (scan_in_range _ Hr), scan_perfect; reflexivity|].
    rewrite (validate_parsed _ _ Hp).
    + rewrite scan_perfect. reflexivity.
    + apply (parse_times_nonempty _ _ Hp). rewrite hourly_S. discriminate.
    + exact Hr.
  - intros klines t i m Hmax Hp.
    assert (Hr : additions_in_range
                   (hourly t (S i) ++ hourly (t + hour * Z.of_nat i) (S m))).
    { apply (parsed_two_runs_in_range klines); [exact Hp|right; exact Hmax|].
      unfold hour. lia. }
    split; [rewrite (scan_in_range _ Hr), scan_one_duplicate; reflexivity|].
    rewrite (validate_parsed _ _ Hp).
    + rewrite scan_one_duplicate. reflexivity.
    + apply (parse_times_nonempty _ _ Hp). rewrite hourly_S. discriminate.
    + exact Hr.
  - intros klines t i m Hp.
    assert (Hr : additions_in_range
                   (hourly t (S i)
                    ++ hourly (t + hour * Z.of_nat (S (S i))) (S m))).
    { apply (parsed_two_runs_in_range klines); [exact Hp|left|];
        unfold hour; lia. }
    split; [rewrite (scan_in_range _ Hr), scan_one_removed; reflexivity|].
    rewrite (validate_parsed _ _ Hp).
    + rewrite scan_one_removed. reflexivity.
    + apply (parse_times_nonempty _ _ Hp). rewrite hourly_S. discriminate.
    + exact Hr.
Qed.

Lemma gap_scan_classification_witness :
  (scan_loop t0 [t0 + 3 * hour] [] []
   = scan_loop (t0 + 3 * hour) [] []
       ([] ++ map strftime (intermediate_timestamps t0 (t0 + 3 * hour))))
  /\ (scan (hourly t0 3) = Return ([], [])
      /\ validate_klines
           (map kline_at ["2024-01-01 00:00:00"; "2024-01-01 01:00:00";
                          "2024-01-01 02:00:00"]%string)
         = Return (true, ValidMessage))
  /\ (scan (hourly t0 2 ++ hourly (t0 + hour * Z.of_nat 1) 2)
      = Return ([t0 + hour * Z.of_nat 1], [])
      /\ validate_klines
           (map kline_at ["2024-01-01 00:00:00"; "2024-01-01 01:00:00";
                          "2024-01-01 01:00:00"; "2024-01-01 02:00:00"]%string)
         = Return (false,
                   ErrorsMessage
                     [DuplicatesLine [strftime (t0 + hour * Z.of_nat 1)]]))
  /\ (scan (hourly t0 2 ++ hourly (t0 + hour * Z.of_nat 3) 2)
      = Return ([], [strftime (t0 + hour * Z.of_nat 2)])
      /\ validate_klines
           (map kline_at ["2024-01-01 00:00:00"; "2024-01-01 01:00:00";
                          "2024-01-01 03:00:00"; "2024-01-01 04:00:00"]%string)
         = Return (false,
                   ErrorsMessage
                     [MissingLine 1 [strftime (t0 + hour * Z.of_nat 2)]
                                  false])).
Proof.
  destruct (@gap_scan_classification canonical_format)
    as (Hpair & Hperfect & Hdup & Hremoved).
  split; [|split; [|split]].
  - apply (Hpair t0 (t0 + 3 * hour) [] [] []).
    + vm_compute. discriminate.
    + left. exists 3. reflexivity.
    + vm_compute. discriminate.
    + vm_compute. discriminate.
  - apply (Hperfect _ t0 2%nat). reflexivity.
  - apply (Hdup _ t0 1%nat 1%nat); [vm_compute; discriminate|reflexivity].
  - apply (Hremoved _ t0 1%nat 1%nat). reflexivity.
Defined.

(** C4 as stated fails.  After a delta of two and a half intervals the
    scan records the first intermediate step only (01:00, and not 02:00);
    and a timestamp repeated in the last hour of year 9999 is not
    recorded as a duplicate: line 54 raises [OverflowError] before the
    pair is compared. *)
Lemma gap_scan_counterexample :
  scan [t0; t0 + 9000] = Return ([], ["2024-01-01 01:00:00"%string])
  /\ map strftime (intermediate_timestamps t0 (t0 + 9000))
     = ["2024-01-01 01:00:00"; "2024-01-01 02:00:00"]%string
  /\ validate_klines
       (map kline_at ["2024-01-01 00:00:00"; "2024-01-01 02:30:00"]%string)
     = Return (false,
               ErrorsMessage
                 [MissingLine 1 ["2024-01-01 01:00:00"%string] false])
  /\ validate_klines
       (map kline_at ["9999-12-31 23:30:00"; "9999-12-31 23:30:00"]%string)
     = Raise OverflowError.
Proof. repeat split; reflexivity. Qed.

(** C8, as the code has it.  When every adjacent pair of timestamps is
    more than zero and less than one interval apart, and no timestamp but
    the last lies in the last hour before [datetime.max], the validator
    records no duplicate and no missing timestamp and answers valid: for
    such a pair the number of missing hours is the floor of a negative
    delta over the interval, which is -1, so
    [range(1, missing_hours + 1)] is empty. *)
Theorem sub_interval_spacing_reported_valid `{DatetimeFormat}
    (klines : list kline) (times : list Z) :
  parse_times klines = Return times ->
  times <> [] ->
  spaced_within_interval times ->
  additions_in_range times ->
  scan times = Return ([], [])
  /\ validate_klines klines = Return (true, ValidMessage)
  /\ (forall previous actual_time,
         0 < actual_time - previous < hour ->
         (actual_time - (previous + hour)) / hour = -1
         /\ range 1 ((actual_time - (previous + hour)) / hour + 1) = []
         /\ missing_between previous actual_time = []).
Proof.
  intros Hp Hne Hs Hr.
  assert (Hscan : unbounded_scan times = ([], [])).
  { destruct times as [|t rest]; [contradiction|].
    apply scan_spaced_within. exact Hs. }
  split; [rewrite (scan_in_range _ Hr), Hscan; reflexivity|]. split.
  - rewrite (validate_parsed _ _ Hp).
    + rewrite Hscan. reflexivity.
    + apply (parse_times_nonempty _ _ Hp Hne).
    + exact Hr.
  - intros previous actual_time Hd.
    assert (Hfloor : (actual_time - (previous + hour)) / hour = -1).
    { symmetry. apply Z.div_unique with (r := actual_time - previous);
        unfold hour in *; lia. }
    split; [exact Hfloor|].
    unfold missing_between. rewrite Hfloor. split; reflexivity.
Qed.

Lemma sub_interval_spacing_reported_valid_witness :
  scan [t0; t0 + 1800; t0 + 3600] = Return ([], [])
  /\ validate_klines
       (map kline_at ["2024-01-01 00:00:00"; "2024-01-01 00:30:00";
                      "2024-01-01 01:00:00"]%string)
     = Return (true, ValidMessage)
  /\ (forall previous actual_time,
         0 < actual_time - previous < hour ->
         (actual_time - (previous + hour)) / hour = -1
         /\ range 1 ((actual_time - (previous + hour)) / hour + 1) = []
         /\ missing_between previous actual_time = []).
Proof.
  apply (@sub_interval_spacing_reported_valid canonical_format
           (map kline_at ["2024-01-01 00:00:00"; "2024-01-01 00:30:00";
                          "2024-01-01 01:00:00"]%string)
           [t0; t0 + 1800; t0 + 3600]).
  - reflexivity.
  - discriminate.
  - vm_compute. repeat split.
  - vm_compute. repeat split; discriminate.
Defined.

(** C8 as stated fails: 23:00 and 23:30 on the last day of year 9999
    both parse and lie half an interval apart, and the validator raises
    [OverflowError] at line 54 instead of answering valid. *)
Lemma sub_interval_overflow_counterexample :
  parse_times
    (map kline_at ["9999-12-31 23:00:00"; "9999-12-31 23:30:00"]%string)
  = Return [253402297200; 253402299000]
  /\ spaced_within_interval [253402297200; 253402299000]
  /\ validate_klines
       (map kline_at ["9999-12-31 23:00:00"; "9999-12-31 23:30:00"]%string)
     = Raise OverflowError.
Proof.
  split; [reflexivity|]. split; [|reflexivity].
  vm_compute. repeat split.
Qed.

(** After a delta of one and a half intervals the scan records nothing,
    although one interval step lies between the two timestamps. *)
Example scan_unaligned_gaps :
  scan [t0; t0 + 5400] = Return ([], [])
  /\ intermediate_timestamps t0 (t0 + 5400) = [t0 + 3600].
Proof. repeat split; reflexivity. Qed.

Lemma getitem_raises (k : kline) (key : string) (e : exn) :
  getitem k key = Raise e -> e = KeyError.
Proof.
  induction k as [|[key' v] k IH]; cbn [getitem]; intros E.
  - injection E as <-. reflexivity.
  - destruct (String.eqb key key'); [discriminate|]. apply IH, E.
Qed.

Lemma parse_open_time_raises `{DatetimeFormat} (k : kline) (e : exn) :
  parse_open_time k = Raise e ->
  e = KeyError \/ e = TypeError \/ e = ValueError.
Proof.
  unfold parse_open_time, bind.
  destruct (getitem k "open_time"%string) as [v|e'] eqn:G.
  - destruct v as [s| |]; [destruct (strptime s)|..]; intros E;
      try discriminate; injection E as <-; auto.
  - intros E. injection E as <-. left. apply (getitem_raises _ _ _ G).
Qed.

Lemma parse_times_raises `{DatetimeFormat} (klines : list kline) (e : exn) :
  parse_times klines = Raise e ->
  e = KeyError \/ e = TypeError \/ e = ValueError.
Proof.
  induction klines as [|k klines IH]; cbn [parse_times]; intros E;
    [discriminate|].
  unfold bind in E.
  destruct (parse_open_time k) as [t|e'] eqn:P.
  - destruct (parse_times klines) as [ts|e'']; [discriminate|].
    injection E as <-. apply IH. reflexivity.
  - injection E as <-. apply (parse_open_time_raises _ _ P).
Qed.




(** ** The Indicator Engine *)

Section FrameFacts.

Lemma nth_indexed {A B : Type} (g : nat * A -> B) (l : list A) (i : nat)
    (d : B) (da : A) :
  (i < length l)%nat ->
  nth i (map g (combine (seq 0 (length l)) l)) d = g (i, nth i l da).
Proof.
  intros Hi.
  rewrite nth_indep with (d' := g (0%nat, da))
    by (rewrite length_map, length_combine, length_seq; lia).
  rewrite map_nth, combine_nth by (rewrite length_seq; reflexivity).
  rewrite seq_nth by assumption. reflexivity.
Qed.

Lemma map_snd_indexed {A B : Type} (h : A -> B) (l : list A) (k : nat) :
  map (fun ir : nat * A => h (snd ir)) (combine (seq k (length l)) l)
  = map h l.
Proof.
  revert k. induction l as [|a l IH]; intros k; simpl; [reflexivity|].
  f_equal. apply IH.
Qed.

Lemma nth_map_seq {B : Type} (f : nat -> B) (n i : nat) (d : B) :
  (i < n)%nat -> nth i (map f (seq 0 n)) d = f i.
Proof.
  intros Hi.
  rewrite nth_indep with (d' := f 0%nat)
    by (rewrite length_map, length_seq; assumption).
  rewrite map_nth, seq_nth by assumption. reflexivity.
Qed.

Lemma last_indep {A : Type} (l : list A) (d d' : A) :
  l <> [] -> last l d = last l d'.
Proof.
  induction l as [|a l IH]; intros Hne; [contradiction|].
  destruct l as [|b l]; [reflexivity|].
  change (last (b :: l) d = last (b :: l) d'). apply IH. discriminate.
Qed.

Lemma last_map_default {A B : Type} (f : A -> B) (l : list A) (d : A) :
  last (map f l) (f d) = f (last l d).
Proof.
  induction l as [|a l IH]; [reflexivity|].
  destruct l as [|b l]; [reflexivity|]. exact IH.
Qed.

Lemma last_skipn {A : Type} (k : nat) (l : list A) (d : A) :
  (k < length l)%nat -> last (skipn k l) d = last l d.
Proof.
  revert l. induction k as [|k IH]; intros l Hk; [reflexivity|].
  destruct l as [|a l]; [simpl in Hk; lia|].
  simpl skipn. rewrite IH by (simpl in Hk; lia).
  destruct l as [|b l]; [simpl in Hk; lia|]. reflexivity.
Qed.

Lemma length_apply_columns (f : series -> series) (seg : list bar) :
  length (apply_columns f seg) = length seg.
Proof.
  unfold apply_columns.
  rewrite length_map, length_combine, length_seq. lia.
Qed.

Lemma nth_apply_columns (f : series -> series) (seg : list bar) (i : nat) :
  (i < length seg)%nat ->
  nth i (apply_columns f seg) no_bar
  = mkBar (open_time (nth i seg no_bar)) (close_time (nth i seg no_bar))
          (fun c => nth i (f (column_of c seg)) None).
Proof.
  intros Hi. unfold apply_columns.
  rewrite (nth_indexed _ seg i no_bar no_bar Hi). reflexivity.
Qed.

Lemma apply_columns_open_time (f : series -> series) (seg : list bar) :
  map open_time (apply_columns f seg) = map open_time seg.
Proof.
  unfold apply_columns. rewrite map_map.
  apply (map_snd_indexed open_time).
Qed.

Lemma apply_columns_close_time (f : series -> series) (seg : list bar) :
  map close_time (apply_columns f seg) = map close_time seg.
Proof.
  unfold apply_columns. rewrite map_map.
  apply (map_snd_indexed close_time).
Qed.

Lemma length_fillna (seg : list bar) : length (fillna seg) = length seg.
Proof.
  unfold fillna. destruct (any_null seg); [|reflexivity].
  rewrite !length_apply_columns. reflexivity.
Qed.

Lemma fillna_open_time (seg : list bar) :
  map open_time (fillna seg) = map open_time seg.
Proof.
  unfold fillna. destruct (any_null seg); [|reflexivity].
  rewrite !apply_columns_open_time. reflexivity.
Qed.

Lemma fillna_close_time (seg : list bar) :
  map close_time (fillna seg) = map close_time seg.
Proof.
  unfold fillna. destruct (any_null seg); [|reflexivity].
  rewrite !apply_columns_close_time. reflexivity.
Qed.

Lemma length_with_indicators (columns : indicator_column -> series)
    (seg : list bar) :
  length (with_indicators columns seg) = length seg.
Proof.
  unfold with_indicators.
  rewrite length_map, length_combine, length_seq. lia.
Qed.

Lemma with_indicators_fst (columns : indicator_column -> series)
    (seg : list bar) :
  map fst (with_indicators columns seg) = seg.
Proof.
  unfold with_indicators. rewrite map_map. cbn [fst].
  rewrite (map_snd_indexed (fun b : bar => b)). apply map_id.
Qed.

Lemma length_rolling_mean (w : nat) (s : series) :
  length (rolling_mean w s) = length s.
Proof. unfold rolling_mean. rewrite length_map, length_seq. reflexivity. Qed.

Lemma nth_rolling_mean (w : nat) (s : series) (i : nat) :
  (i < length s)%nat ->
  nth i (rolling_mean w s) None = window_mean w s i.
Proof. intros Hi. unfold rolling_mean. apply nth_map_seq. exact Hi. Qed.

Lemma skipn_cons_nth {A : Type} (k : nat) (l : list A) (d : A) :
  (k < length l)%nat -> skipn k l = nth k l d :: skipn (S k) l.
Proof.
  revert l. induction k as [|k IH]; intros l Hk.
  - destruct l; [simpl in Hk; lia|]. reflexivity.
  - destruct l as [|a l]; [simpl in Hk; lia|].
    change (skipn k l = nth k l d :: skipn (S k) l).
    apply IH. simpl in Hk. lia.
Qed.

(** A window whose cells are all present averages them. *)
Lemma all_present_window (s : series) (g : nat -> Q) (w k : nat) :
  (k + w <= length s)%nat ->
  (forall i, (i < length s)%nat ->
             exists q, nth i s None = Some q /\ (q == g i)%Q) ->
  exists xs,
    all_present (firstn w (skipn k s)) = Some xs
    /\ (Qsum xs == Qsum (map g (seq k w)))%Q.
Proof.
  intros Hlen Hs. revert k Hlen.
  induction w as [|w IH]; intros k Hlen.
  - exists []. split; reflexivity.
  - rewrite (skipn_cons_nth k s None) by lia.
    destruct (Hs k) as (q & Hq & Hg); [lia|].
    destruct (IH (S k)) as (xs & Hxs & Hsum); [lia|].
    exists (q :: xs). split.
    + rewrite Hq. cbn [firstn all_present]. rewrite Hxs. reflexivity.
    + cbn [seq map Qsum fold_right]. fold (Qsum xs).
      fold (Qsum (map g (seq (S k) w))). rewrite Hg, Hsum. reflexivity.
Qed.

End FrameFacts.

Section PipelineFacts.
Context `{DatetimeFormat} `{IndicatorPackage}.
Variable dtypes : column -> dtype.

Lemma processed_open_times (seg : list (bar * indicators)) :
  map rec_open_time (map to_record seg)
  = map strftime (map open_time (map fst seg)).
Proof. rewrite !map_map. reflexivity. Qed.

Lemma processed_close_times (seg : list (bar * indicators)) :
  map rec_close_time (map to_record seg)
  = map strftime (map close_time (map fst seg)).
Proof. rewrite !map_map. reflexivity. Qed.

Lemma trimmed_fst (columns : indicator_column -> series)
    (segment : list bar) :
  map fst (skipn 99 (with_indicators columns (fillna segment)))
  = skipn 99 (fillna segment).
Proof. rewrite <- skipn_map, with_indicators_fst. reflexivity. Qed.

Lemma length_processed (columns : indicator_column -> series)
    (segment : list bar) :
  length (map to_record
              (skipn 99 (with_indicators columns (fillna segment))))
  = (length segment - 99)%nat.
Proof.
  rewrite length_map, length_skipn, length_with_indicators, length_fillna.
  reflexivity.
Qed.

(** A segment below 99 bars takes the [else] branch. *)
Lemma process_segment_short (idx : nat) (segment : list bar) :
  (length segment < 99)%nat ->
  process_segment dtypes idx segment
  = Return (Discarded (S idx) (length segment)).
Proof.
  intros Hlen. unfold process_segment.
  destruct (99 <=? length segment)%nat eqn:E; [|reflexivity].
  apply Nat.leb_le in E. lia.
Qed.

(** Past the gate, an exception of the package ends the body. *)
Lemma process_segment_raises (idx : nat) (segment : list bar) (e : exn) :
  (99 <= length segment)%nat ->
  ta_columns dtypes (fillna segment) = Raise e ->
  process_segment dtypes idx segment = Raise e.
Proof.
  intros Hlen Hta. unfold process_segment.
  destruct (99 <=? length segment)%nat eqn:E;
    [|apply Nat.leb_gt in E; lia].
  rewrite Hta. reflexivity.
Qed.

(** A segment of exactly 99 bars passes the gate and, when the package
    returns, is trimmed to nothing: the lookup of its first record
    raises. *)
Lemma process_segment_99 (idx : nat) (segment : list bar)
    (columns : indicator_column -> series) :
  length segment = 99%nat ->
  ta_columns dtypes (fillna segment) = Return columns ->
  process_segment dtypes idx segment = Raise IndexError.
Proof.
  intros Hlen Hta. unfold process_segment. rewrite Hlen. cbn [Nat.leb].
  rewrite Hta. cbn [bind].
  pose proof (length_processed columns segment) as Hl. rewrite Hlen in Hl.
  destruct (map to_record
                (skipn 99 (with_indicators columns (fillna segment))));
    [reflexivity|discriminate Hl].
Qed.

(** A segment of 100 bars or more yields its record when the package
    returns. *)
Lemma process_segment_long (idx : nat) (segment : list bar)
    (columns : indicator_column -> series) :
  (100 <= length segment)%nat ->
  ta_columns dtypes (fillna segment) = Return columns ->
  process_segment dtypes idx segment
  = Return (Processed
              (mkArtifact
                 (S idx)
                 (strftime (open_time (nth 99 segment no_bar)))
                 (strftime (close_time (last segment no_bar)))
                 (map to_record
                      (skipn 99 (with_indicators columns
                                                 (fillna segment)))))).
Proof.
  intros Hlen Hta. unfold process_segment.
  destruct (99 <=? length segment)%nat eqn:E;
    [|apply Nat.leb_gt in E; lia].
  rewrite Hta. cbn [bind].
  pose proof (length_processed columns segment) as Hl.
  pose proof (processed_open_times
                (skipn 99 (with_indicators columns (fillna segment)))) as Ho.
  pose proof (processed_close_times
                (skipn 99 (with_indicators columns (fillna segment)))) as Hc.
  rewrite trimmed_fst in Ho, Hc.
  rewrite <- (skipn_map open_time), fillna_open_time in Ho.
  rewrite <- (skipn_map close_time), fillna_close_time in Hc.
  destruct (map to_record
                (skipn 99 (with_indicators columns (fillna segment))))
    as [|first rest]; [simpl in Hl; lia|].
  do 3 f_equal.
  - transitivity (nth 0 (map rec_open_time (first :: rest))
                      (strftime (open_time no_bar))); [reflexivity|].
    rewrite Ho, map_nth, nth_skipn, map_nth. reflexivity.
  - transitivity (last (map rec_close_time (first :: rest))
                       (rec_close_time first)).
    + symmetry. apply last_map_default.
    + rewrite Hc.
      rewrite last_indep with (d' := strftime (close_time no_bar)).
      * rewrite (last_map_default strftime). f_equal.
        rewrite last_skipn by (rewrite length_map; lia).
        apply last_map_default.
      * intros Hnil. apply (f_equal (@length _)) in Hnil.
        rewrite length_map, length_skipn, length_map in Hnil.
        simpl in Hnil. lia.
Qed.

(** A record is appended only for 100 bars or more. *)
Lemma processed_is_long (idx : nat) (segment : list bar) (a : artifact) :
  process_segment dtypes idx segment = Return (Processed a) ->
  (100 <= length segment)%nat
  /\ exists columns, ta_columns dtypes (fillna segment) = Return columns.
Proof.
  intros E.
  destruct (Nat.lt_ge_cases (length segment) 99) as [Hlt|Hge].
  - rewrite process_segment_short in E by assumption. discriminate.
  - destruct (ta_columns dtypes (fillna segment)) as [columns|e] eqn:Hta.
    + split; [|exists columns; reflexivity].
      destruct (Nat.eq_dec (length segment) 99) as [H99|Hne]; [|lia].
      rewrite (process_segment_99 _ _ columns) in E by assumption.
      discriminate.
    + rewrite (process_segment_raises _ _ e) in E by assumption.
      discriminate.
Qed.

(** The records are the rows from index 99 on, in order. *)
Lemma processed_row (columns : indicator_column -> series)
    (segment : list bar) (i : nat) :
  (99 + i < length segment)%nat ->
  exists r,
    nth_error (map to_record
                   (skipn 99 (with_indicators columns (fillna segment)))) i
    = Some r
    /\ rec_open_time r = strftime (open_time (nth (99 + i) segment no_bar))
    /\ rec_close_time r = strftime (close_time (nth (99 + i) segment no_bar))
    /\ rec_cell r = cell (nth (99 + i) (fillna segment) no_bar)
    /\ MA99 (rec_indicators r)
       = window_mean 99 (column_of close_price (fillna segment)) (99 + i).
Proof.
  intros Hi.
  set (P := with_indicators columns (fillna segment)).
  assert (HP : length P = length segment)
    by (unfold P; rewrite length_with_indicators; apply length_fillna).
  exists (to_record (nth (99 + i) P (no_bar, no_indicators))).
  set (close := column_of close_price (fillna segment)).
  assert (Hnth : nth (99 + i) P (no_bar, no_indicators)
                 = (nth (99 + i) (fillna segment) no_bar,
                    mkIndicators
                      (nth (99 + i) (rolling_mean 7 close) None)
                      (nth (99 + i) (rolling_mean 25 close) None)
                      (nth (99 + i) (rolling_mean 99 close) None)
                      (nth (99 + i) (rolling_mean 50 close) None)
                      (fun c => nth (99 + i) (columns c) None))).
  { unfold P, with_indicators.
    rewrite (nth_indexed _ (fillna segment) (99 + i) _ no_bar)
      by (rewrite length_fillna; exact Hi).
    reflexivity. }
  split.
  - rewrite nth_error_map.
    rewrite (nth_error_nth' (skipn 99 P) (no_bar, no_indicators))
      by (rewrite length_skipn; lia).
    rewrite nth_skipn. reflexivity.
  - rewrite Hnth. cbn [to_record fst snd rec_open_time rec_close_time
                         rec_cell rec_indicators MA99].
    assert (Hot : open_time (nth (99 + i) (fillna segment) no_bar)
                  = open_time (nth (99 + i) segment no_bar)).
    { rewrite <- !(map_nth open_time), fillna_open_time. reflexivity. }
    assert (Hct : close_time (nth (99 + i) (fillna segment) no_bar)
                  = close_time (nth (99 + i) segment no_bar)).
    { rewrite <- !(map_nth close_time), fillna_close_time. reflexivity. }
    rewrite Hot, Hct. repeat split.
    apply nth_rolling_mean.
    unfold close, column_of. rewrite length_map, length_fillna. exact Hi.
Qed.

End PipelineFacts.

(** The sample package returns on every frame of floats, and on a frame
    whose only [object] column is [quote_asset_volume], which it is not
    handed. *)
Lemma sample_package_returns (seg : list bar) :
  ta_columns all_float64 seg = Return (sample_columns seg).
Proof. reflexivity. Qed.

Lemma sample_package_ignores_quote_volume (seg : list bar) :
  ta_columns quote_volume_object seg = Return (sample_columns seg).
Proof. reflexivity. Qed.

(** The gate of line 53 lets through exactly the segments of 99 bars or
    more. *)
Lemma length_gate `{DatetimeFormat} `{IndicatorPackage}
    (dtypes : column -> dtype) (idx : nat) (segment : list bar) :
  (exists id len,
      process_segment dtypes idx segment = Return (Discarded id len))
  <-> (length segment < 99)%nat.
Proof.
  split.
  - intros (id & len & E).
    destruct (Nat.lt_ge_cases (length segment) 99) as [Hlt|Hge]; [exact Hlt|].
    destruct (ta_columns dtypes (fillna segment)) as [columns|e] eqn:Hta.
    + destruct (Nat.eq_dec (length segment) 99) as [H99|Hne].
      * rewrite (process_segment_99 _ _ _ columns) in E by assumption.
        discriminate.
      * rewrite (process_segment_long _ _ _ columns) in E
          by (assumption || lia).
        discriminate.
    + rewrite (process_segment_raises _ _ _ e) in E by assumption.
      discriminate.
  - intros Hlt. exists (S idx), (length segment).
    apply process_segment_short. exact Hlt.
Qed.

(** An accepted segment of L >= 100 bars on which the package returns
    yields L - 99 records, and record i is the bar at index 99 + i. *)
Lemma accepted_segment_rows `{DatetimeFormat} `{IndicatorPackage}
    (dtypes : column -> dtype) (idx : nat) (segment : list bar)
    (columns : indicator_column -> series) :
  (100 <= length segment)%nat ->
  ta_columns dtypes (fillna segment) = Return columns ->
  exists a,
    process_segment dtypes idx segment = Return (Processed a)
    /\ length (records a) = (length segment - 99)%nat
    /\ forall i, (99 + i < length segment)%nat ->
         exists r,
           nth_error (records a) i = Some r
           /\ rec_open_time r
              = strftime (open_time (nth (99 + i) segment no_bar))
           /\ rec_cell r = cell (nth (99 + i) (fillna segment) no_bar).
Proof.
  intros Hlen Hta. eexists.
  split; [apply (process_segment_long _ _ _ columns); assumption|].
  cbn [records]. split; [apply length_processed|].
  intros i Hi.
  destruct (processed_row columns segment i Hi) as (r & Hr & Ho & _ & Hc & _).
  exists r. auto.
Qed.

(** 150 contiguous hourly bars: one segment, 51 records, and the four
    rolling means present in every record. *)
Lemma end_to_end_150 :
  split_segments (hourly_bars 150) = Return [hourly_bars 150]
  /\ exists a,
       process_crypto_data all_float64 (hourly_bars 150)
       = Return [Processed a]
       /\ length (records a) = 51%nat
       /\ forallb (fun r => negb (is_nan (MA7 (rec_indicators r)))
                            && negb (is_nan (MA25 (rec_indicators r)))
                            && negb (is_nan (MA99 (rec_indicators r)))
                            && negb (is_nan (MA50 (rec_indicators r))))
                  (records a) = true.
Proof.
  assert (Hs : split_segments (hourly_bars 150) = Return [hourly_bars 150])
    by (vm_compute; reflexivity).
  split; [exact Hs|].
  eexists. split; [|split].
  - change (process_crypto_data all_float64 (hourly_bars 150))
      with (segments <- split_segments (hourly_bars 150) ;;
            process_segments all_float64 0 segments).
    rewrite Hs. cbn [bind process_segments].
    rewrite (process_segment_long
               all_float64 0 (hourly_bars 150)
               (sample_columns (fillna (hourly_bars 150))))
      by (first [apply sample_package_returns | vm_compute; lia]).
    reflexivity.
  - cbn [records]. rewrite length_processed. reflexivity.
  - cbn [records]. vm_compute. reflexivity.
Qed.

(** C2, at the boundary.  99 contiguous hourly bars form one segment of
    length 99; it passes the gate [len(segment) >= 99], the indicators
    are computed (the package is assumed to return on these bars), it
    loses all its rows to [iloc[99:]], and the lookup of [start_time]
    raises [IndexError]: the segment is neither discarded with a warning
    nor turned into records, and the run ends there. *)
Theorem segment_of_99_bars_raises `{IndicatorPackage}
    (dtypes : column -> dtype) :
  (exists columns, ta_columns dtypes (hourly_bars 99) = Return columns) ->
  split_segments (hourly_bars 99) = Return [hourly_bars 99]
  /\ process_segment dtypes 0 (hourly_bars 99) = Raise IndexError
  /\ process_crypto_data dtypes (hourly_bars 99) = Raise IndexError.
Proof.
  intros [columns Hta].
  assert (Hs : split_segments (hourly_bars 99) = Return [hourly_bars 99])
    by (vm_compute; reflexivity).
  assert (Hf : fillna (hourly_bars 99) = hourly_bars 99)
    by (unfold fillna; replace (any_null (hourly_bars 99)) with false
          by (vm_compute; reflexivity); reflexivity).
  assert (Hp : process_segment dtypes 0 (hourly_bars 99) = Raise IndexError).
  { apply (process_segment_99 _ _ _ columns); [reflexivity|].
    rewrite Hf. exact Hta. }
  split; [exact Hs|]. split; [exact Hp|].
  change (process_crypto_data dtypes (hourly_bars 99))
    with (segments <- split_segments (hourly_bars 99) ;;
          process_segments dtypes 0 segments).
  rewrite Hs. cbn [bind process_segments].
  rewrite Hp. reflexivity.
Qed.

Lemma segment_of_99_bars_raises_witness :
  split_segments (hourly_bars 99) = Return [hourly_bars 99]
  /\ process_segment all_float64 0 (hourly_bars 99) = Raise IndexError
  /\ process_crypto_data all_float64 (hourly_bars 99) = Raise IndexError.
Proof.
  apply (@segment_of_99_bars_raises sample_package all_float64).
  exists (sample_columns (hourly_bars 99)). reflexivity.
Defined.

(** The outcomes of a completed run, one per segment and in order. *)
Lemma process_segments_nth `{DatetimeFormat} `{IndicatorPackage}
    (dtypes : column -> dtype) (segments : list (list bar))
    (idx : nat) (os : list segment_outcome) :
  process_segments dtypes idx segments = Return os ->
  length os = length segments
  /\ forall k o, nth_error os k = Some o ->
       exists segment,
         nth_error segments k = Some segment
         /\ process_segment dtypes (idx + k) segment = Return o.
Proof.
  revert idx os. induction segments as [|seg segments IH]; intros idx os E.
  - injection E as <-. split; [reflexivity|].
    intros k o Hk. destruct k; discriminate.
  - cbn [process_segments] in E. unfold bind in E.
    destruct (process_segment dtypes idx seg) as [o0|e] eqn:E0;
      [|discriminate].
    destruct (process_segments dtypes (S idx) segments) as [os'|e] eqn:E1;
      [|discriminate].
    injection E as <-. destruct (IH (S idx) os' E1) as [Hlen Hnth].
    split; [simpl; f_equal; exact Hlen|].
    intros k o Hk. destruct k as [|k].
    + injection Hk as <-. exists seg. split; [reflexivity|].
      rewrite Nat.add_0_r. exact E0.
    + destruct (Hnth k o Hk) as (segment & Hs & Hp).
      exists segment. split; [exact Hs|].
      rewrite Nat.add_succ_r. exact Hp.
Qed.

(** A run on a frame with rows is the Segmenter followed by the loop. *)
Lemma process_crypto_data_rows `{DatetimeFormat} `{IndicatorPackage}
    (dtypes : column -> dtype) (df : list bar)
    (segments : list (list bar)) :
  split_segments df = Return segments ->
  process_crypto_data dtypes df = process_segments dtypes 0 segments.
Proof.
  destruct df as [|b rest]; [discriminate|].
  intros Hs. unfold process_crypto_data. rewrite Hs. reflexivity.
Qed.

(** C10. For the segments returned by the Segmenter, a record is produced
    only when the segment has 100 bars or more, and then whenever the
    calls of the package return; its [start_time] is the [open_time] of
    the segment's bar at index 99, which lies 99 intervals after the
    [open_time] of the segment's first bar, and its [end_time] is the
    [close_time] of the segment's last bar.  Every record of a completed
    run is of that form. *)
Theorem artifact_start_and_end_times `{DatetimeFormat} `{IndicatorPackage}
    (dtypes : column -> dtype)
    (df : list bar) (segments : list (list bar)) :
  split_segments df = Return segments ->
  (forall idx segment,
      nth_error segments idx = Some segment ->
      (forall a, process_segment dtypes idx segment = Return (Processed a) ->
                 (100 <= length segment)%nat)
      /\ ((100 <= length segment)%nat ->
          forall columns,
            ta_columns dtypes (fillna segment) = Return columns ->
            exists a,
              process_segment dtypes idx segment = Return (Processed a)
              /\ segment_id a = S idx
              /\ start_time a = strftime (open_time (nth 99 segment no_bar))
              /\ end_time a = strftime (close_time (last segment no_bar))
              /\ open_time (nth 99 segment no_bar)
                 = open_time (nth 0 segment no_bar) + 99 * hour))
  /\ (forall os k a,
         process_crypto_data dtypes df = Return os ->
         nth_error os k = Some (Processed a) ->
         exists segment,
           nth_error segments k = Some segment
           /\ (100 <= length segment)%nat
           /\ segment_id a = S k
           /\ start_time a = strftime (open_time (nth 99 segment no_bar))
           /\ end_time a = strftime (close_time (last segment no_bar))
           /\ open_time (nth 99 segment no_bar)
              = open_time (nth 0 segment no_bar) + 99 * hour).
Proof.
  intros Hs.
  assert (Hstart : forall idx segment,
             nth_error segments idx = Some segment ->
             (100 <= length segment)%nat ->
             open_time (nth 99 segment no_bar)
             = open_time (nth 0 segment no_bar) + 99 * hour).
  { intros idx segment Hn Hlen.
    assert (Hc : contiguous segment).
    { pose proof (split_segments_contiguous _ _ Hs) as Hall.
      rewrite Forall_forall in Hall. apply Hall.
      apply nth_error_In with idx. exact Hn. }
    rewrite (contiguous_nth segment 99 Hc) by lia. unfold hour. lia. }
  split.
  - intros idx segment Hn. split.
    + intros a E. apply (processed_is_long dtypes idx segment a E).
    + intros Hlen columns Hta. eexists.
      split; [apply (process_segment_long _ _ _ columns); assumption|].
      cbn [segment_id start_time end_time]. repeat split.
      apply (Hstart idx); assumption.
  - intros os k a Hrun Hk.
    rewrite (process_crypto_data_rows _ _ _ Hs) in Hrun.
    destruct (process_segments_nth _ _ _ _ Hrun) as [_ Hnth].
    destruct (Hnth k _ Hk) as (segment & Hn & Hp).
    exists segment. split; [exact Hn|].
    destruct (processed_is_long dtypes _ _ _ Hp) as [Hlen [columns Hta]].
    split; [exact Hlen|].
    rewrite (process_segment_long _ _ _ columns) in Hp by assumption.
    injection Hp as <-. cbn [segment_id start_time end_time].
    repeat split. apply (Hstart k); assumption.
Qed.

Lemma artifact_start_and_end_times_witness :
  (exists a,
      process_segment all_float64 0 (hourly_bars 100) = Return (Processed a)
      /\ segment_id a = 1%nat
      /\ start_time a = strftime (open_time (nth 99 (hourly_bars 100) no_bar))
      /\ end_time a = strftime (close_time (last (hourly_bars 100) no_bar))
      /\ open_time (nth 99 (hourly_bars 100) no_bar)
         = open_time (nth 0 (hourly_bars 100) no_bar) + 99 * hour)
  /\ (exists segment,
         nth_error [hourly_bars 100] 0 = Some segment
         /\ (100 <= length segment)%nat
         /\ segment_id sample_artifact = 1%nat
         /\ start_time sample_artifact
            = strftime (open_time (nth 99 segment no_bar))
         /\ end_time sample_artifact
            = strftime (close_time (last segment no_bar))
         /\ open_time (nth 99 segment no_bar)
            = open_time (nth 0 segment no_bar) + 99 * hour).
Proof.
  destruct (@artifact_start_and_end_times canonical_format sample_package
              all_float64 (hourly_bars 100) [hourly_bars 100])
    as [Hsegment Hrun].
  - vm_compute. reflexivity.
  - split.
    + apply (proj2 (Hsegment 0%nat (hourly_bars 100) eq_refl)
               ltac:(vm_compute; lia)
               (sample_columns (fillna (hourly_bars 100)))).
      apply sample_package_returns.
    + apply (Hrun [Processed sample_artifact] 0%nat sample_artifact).
      * vm_compute. reflexivity.
      * reflexivity.
Defined.

(** ** Forward and backward fill *)

Section FillFacts.

Lemma length_ffill_from (l : option Q) (s : series) :
  length (ffill_from l s) = length s.
Proof.
  revert l. induction s as [|x s IH]; intros l; simpl; [reflexivity|].
  f_equal. apply IH.
Qed.

Lemma length_bfill (s : series) : length (bfill s) = length s.
Proof.
  induction s as [|x s IH]; simpl; [reflexivity|]. f_equal. exact IH.
Qed.

(** After the forward pass a cell holds the nearest value at or above
    it, or the carried value when there is none. *)
Lemma ffill_from_nth (s : series) (l : option Q) (i : nat) :
  (i < length s)%nat ->
  (exists x, nth i (ffill_from l s) None = Some x /\ nearest_earlier s i x)
  \/ (nth i (ffill_from l s) None = l
      /\ forall k, (k <= i)%nat -> nth k s None = None).
Proof.
  revert l i. induction s as [|x s IH]; intros l i Hi.
  - simpl in Hi. lia.
  - destruct i as [|i].
    + destruct x as [q|]; cbn [ffill_from is_nan nth].
      * left. exists q. split; [reflexivity|].
        exists 0%nat. split; [lia|]. split; [reflexivity|]. intros k Hk. lia.
      * right. split; [reflexivity|]. intros k Hk.
        replace k with 0%nat by lia. reflexivity.
    + cbn [ffill_from nth].
      destruct (IH (if is_nan x then l else x) i) as [(y & Hy & Hne)|[Hv Hnone]];
        [simpl in Hi; lia| |].
      * left. exists y. split; [exact Hy|].
        destruct Hne as (j & Hj & Hnj & Hbetween).
        exists (S j). split; [lia|]. split; [exact Hnj|].
        intros k Hk. destruct k as [|k]; [lia|]. apply Hbetween. lia.
      * destruct x as [q|]; cbn [is_nan] in Hv.
        -- left. exists q. split; [exact Hv|].
           exists 0%nat. split; [lia|]. split; [reflexivity|].
           intros k Hk. destruct k as [|k]; [lia|]. apply Hnone. lia.
        -- right. split; [exact Hv|].
           intros k Hk. destruct k as [|k]; [reflexivity|]. apply Hnone. lia.
Qed.

(** After the backward pass a cell holds the nearest value at or below
    it, and stays NaN only when there is none. *)
Lemma bfill_nth (s : series) (i : nat) :
  (i < length s)%nat ->
  (exists x j, nth i (bfill s) None = Some x
               /\ (i <= j)%nat /\ nth j s None = Some x
               /\ forall k, (i <= k < j)%nat -> nth k s None = None)
  \/ (nth i (bfill s) None = None
      /\ forall k, (i <= k)%nat -> nth k s None = None).
Proof.
  revert i. induction s as [|x s IH]; intros i Hi.
  - simpl in Hi. lia.
  - destruct i as [|i].
    + destruct x as [q|]; cbn [bfill is_nan nth].
      * left. exists q, 0%nat. repeat split; try lia.
      * destruct s as [|y s].
        -- right. split; [reflexivity|]. intros k _.
           destruct k as [|[|k]]; reflexivity.
        -- replace (hd None (bfill (y :: s)))
             with (nth 0 (bfill (y :: s)) None) by reflexivity.
           destruct (IH 0%nat) as [(z & j & Hz & Hj & Hnj & Hb)|[Hv Hnone]];
             [simpl; lia| |].
           ++ left. exists z, (S j). split; [exact Hz|].
              split; [lia|]. split; [exact Hnj|].
              intros k Hk. destruct k as [|k]; [reflexivity|].
              apply Hb. lia.
           ++ right. split; [exact Hv|].
              intros k _. destruct k as [|k]; [reflexivity|].
              apply Hnone. lia.
    + cbn [bfill nth].
      destruct (IH i) as [(z & j & Hz & Hj & Hnj & Hb)|[Hv Hnone]];
        [simpl in Hi; lia| |].
      * left. exists z, (S j). split; [exact Hz|].
        split; [lia|]. split; [exact Hnj|].
        intros k Hk. destruct k as [|k]; [lia|]. apply Hb. lia.
      * right. split; [exact Hv|].
        intros k Hk. destruct k as [|k]; [lia|]. apply Hnone. lia.
Qed.

(** Forward then backward fill of one column. *)
Lemma bfill_ffill_nth (s : series) (i : nat) :
  (i < length s)%nat ->
  filled_value s i (nth i (bfill (ffill s)) None).
Proof.
  intros Hi.
  assert (Hf : forall k, (k < length s)%nat ->
                 nth k (ffill s) None = None ->
                 forall k', (k' <= k)%nat -> nth k' s None = None).
  { intros k Hk Hnone.
    destruct (ffill_from_nth s None k Hk) as [(x & Hx & _)|[_ Hall]].
    - unfold ffill in Hnone. rewrite Hnone in Hx. discriminate.
    - exact Hall. }
  destruct (bfill_nth (ffill s) i) as [(x & j & Hx & Hj & Hnj & Hb)|[Hv Hnone]].
  - unfold ffill. rewrite length_ffill_from. exact Hi.
  - assert (Hjlen : (j < length s)%nat).
    { destruct (Nat.lt_ge_cases j (length s)) as [Hlt|Hge]; [exact Hlt|].
      rewrite nth_overflow in Hnj; [discriminate|].
      unfold ffill. rewrite length_ffill_from. exact Hge. }
    destruct (ffill_from_nth s None j Hjlen) as [(y & Hy & Hne)|[Hv _]].
    + fold (ffill s) in Hy. rewrite Hnj in Hy. injection Hy as <-.
      destruct Hne as (j' & Hj' & Hnj' & Hbetween).
      destruct (Nat.le_gt_cases j' i) as [Hle|Hgt].
      * left. exists x. split; [exact Hx|].
        exists j'. split; [exact Hle|]. split; [exact Hnj'|].
        intros k Hk. apply Hbetween. lia.
      * right. left. exists x. split; [exact Hx|].
        exists j'. split; [exact Hgt|]. split; [exact Hnj'|].
        intros k Hk.
        destruct (Nat.le_gt_cases k i) as [Hki|Hik].
        -- apply (Hf i Hi); [apply Hb; lia|exact Hki].
        -- apply (Hf k); [lia|apply Hb; lia|lia].
    + fold (ffill s) in Hv. rewrite Hnj in Hv. discriminate.
  - right. right. split; [exact Hv|].
    intros k.
    destruct (Nat.lt_ge_cases k (length s)) as [Hlt|Hge];
      [|apply nth_overflow; exact Hge].
    destruct (Nat.le_gt_cases i k) as [Hik|Hki].
    + apply (Hf k Hlt); [apply Hnone; exact Hik|lia].
    + apply (Hf i Hi); [apply Hnone; lia|lia].
Qed.

End FillFacts.

Section FillFrameFacts.

Lemma column_in_all_columns (c : column) : In c all_columns.
Proof. destruct c; simpl; tauto. Qed.

Lemma nth_column_of (c : column) (seg : list bar) (i : nat) :
  nth i (column_of c seg) None = cell (nth i seg no_bar) c.
Proof. unfold column_of. apply (map_nth (fun r => cell r c) seg no_bar). Qed.

Lemma column_of_apply_columns (f : series -> series) (seg : list bar)
    (c : column) :
  length (f (column_of c seg)) = length seg ->
  column_of c (apply_columns f seg) = f (column_of c seg).
Proof.
  intros Hlen. apply nth_ext with (d := None) (d' := None).
  - unfold column_of at 1. rewrite length_map, length_apply_columns.
    symmetry. exact Hlen.
  - intros i Hi.
    unfold column_of at 1 in Hi.
    rewrite length_map, length_apply_columns in Hi.
    rewrite nth_column_of, nth_apply_columns by exact Hi. reflexivity.
Qed.

Lemma length_column_of (c : column) (seg : list bar) :
  length (column_of c seg) = length seg.
Proof. unfold column_of. apply length_map. Qed.

Lemma cell_filled (seg : list bar) (c : column) (i : nat) :
  any_null seg = true ->
  (i < length seg)%nat ->
  cell (nth i (fillna seg) no_bar) c
  = nth i (bfill (ffill (column_of c seg))) None.
Proof.
  intros Hnull Hi. unfold fillna. rewrite Hnull.
  rewrite nth_apply_columns by (rewrite length_apply_columns; exact Hi).
  cbn [cell]. rewrite column_of_apply_columns; [reflexivity|].
  unfold ffill. rewrite length_ffill_from. apply length_column_of.
Qed.

Lemma any_null_false (seg : list bar) (c : column) (i : nat) :
  any_null seg = false ->
  (i < length seg)%nat ->
  exists x, cell (nth i seg no_bar) c = Some x.
Proof.
  intros Hnull Hi. unfold any_null in Hnull.
  assert (Hr : existsb (fun c => is_nan (cell (nth i seg no_bar) c))
                       all_columns = false).
  { destruct (existsb (fun c => is_nan (cell (nth i seg no_bar) c))
                      all_columns) eqn:E; [|reflexivity].
    rewrite <- Hnull. symmetry. apply existsb_exists.
    exists (nth i seg no_bar). split; [apply nth_In; exact Hi|exact E]. }
  destruct (cell (nth i seg no_bar) c) as [x|] eqn:Hc; [exists x; reflexivity|].
  exfalso. apply Bool.diff_true_false. rewrite <- Hr. symmetry.
  apply existsb_exists.
  exists c. split; [apply column_in_all_columns|]. rewrite Hc. reflexivity.
Qed.

(** Every cell of the frame the indicators are computed on. *)
Lemma fillna_cell (seg : list bar) (c : column) (i : nat) :
  (i < length seg)%nat ->
  filled_value (column_of c seg) i (cell (nth i (fillna seg) no_bar) c).
Proof.
  intros Hi. destruct (any_null seg) eqn:Hnull.
  - rewrite cell_filled by assumption.
    apply bfill_ffill_nth. rewrite length_column_of. exact Hi.
  - unfold fillna. rewrite Hnull.
    destruct (any_null_false seg c i Hnull Hi) as (x & Hx).
    left. exists x. split; [exact Hx|].
    exists i. split; [lia|]. split; [rewrite nth_column_of; exact Hx|].
    intros k Hk. lia.
Qed.

End FillFrameFacts.

(** C6, as the code has it.  For a segment of 100 bars or more, every
    cell of the frame the indicators are computed on holds the nearest
    value at or above it in its column, or, when there is none, the
    nearest value below it; it is still NaN only when the whole column
    is.  The indicators are computed on that frame, whether or not a gap
    is left: when the calls of the package return, the records are
    written, and nothing but an exception of those calls keeps them from
    being written.  No segment is rejected for a gap. *)
Theorem fill_forward_then_backward_then_process
    `{DatetimeFormat} `{IndicatorPackage}
    (dtypes : column -> dtype) (idx : nat) (segment : list bar) :
  (100 <= length segment)%nat ->
  (forall c i, (i < length segment)%nat ->
     filled_value (column_of c segment) i
                  (cell (nth i (fillna segment) no_bar) c))
  /\ (forall columns,
         ta_columns dtypes (fillna segment) = Return columns ->
         exists a,
           process_segment dtypes idx segment = Return (Processed a)
           /\ records a
              = map to_record
                    (skipn 99 (with_indicators columns (fillna segment)))
           /\ length (records a) = (length segment - 99)%nat)
  /\ (forall e,
         process_segment dtypes idx segment = Raise e <->
         ta_columns dtypes (fillna segment) = Raise e).
Proof.
  intros Hlen. split; [|split].
  - intros c i Hi. apply fillna_cell. exact Hi.
  - intros columns Hta. eexists.
    split; [apply (process_segment_long _ _ _ columns); assumption|].
    cbn [records]. split; [reflexivity|apply length_processed].
  - intros e. split.
    + intros E.
      destruct (ta_columns dtypes (fillna segment)) as [columns|e'] eqn:Hta.
      * rewrite (process_segment_long _ _ _ columns) in E by assumption.
        discriminate.
      * rewrite (process_segment_raises _ _ _ e') in E by (assumption || lia).
        injection E as <-. reflexivity.
    + intros Hta. apply process_segment_raises; [lia|exact Hta].
Qed.

Lemma fill_forward_then_backward_then_process_witness :
  (forall c i, (i < length gapped_segment)%nat ->
     filled_value (column_of c gapped_segment) i
                  (cell (nth i (fillna gapped_segment) no_bar) c))
  /\ (exists a,
         process_segment quote_volume_object 0 gapped_segment
         = Return (Processed a)
         /\ records a
            = map to_record
                  (skipn 99 (with_indicators
                               (sample_columns (fillna gapped_segment))
                               (fillna gapped_segment)))
         /\ length (records a) = (length gapped_segment - 99)%nat)
  /\ (process_segment quote_volume_object 0 gapped_segment = Raise TypeError
      <-> ta_columns quote_volume_object (fillna gapped_segment)
          = Raise TypeError)
  /\ cell (nth 5 gapped_segment no_bar) close_price = None
  /\ cell (nth 5 (fillna gapped_segment) no_bar) close_price
     = cell (nth 4 gapped_segment no_bar) close_price
  /\ cell (nth 0 gapped_segment no_bar) high_price = None
  /\ cell (nth 0 (fillna gapped_segment) no_bar) high_price
     = cell (nth 1 gapped_segment no_bar) high_price
  /\ cell (nth 7 (fillna gapped_segment) no_bar) quote_asset_volume = None.
Proof.
  destruct (@fill_forward_then_backward_then_process
              canonical_format sample_package quote_volume_object 0%nat
              gapped_segment ltac:(vm_compute; lia))
    as (Hfill & Hprocess & Hraise).
  split; [exact Hfill|].
  split; [apply Hprocess; apply sample_package_ignores_quote_volume|].
  split; [apply Hraise|].
  repeat split; vm_compute; reflexivity.
Defined.

(** C6 as stated fails: 100 hourly bars whose [quote_asset_volume]
    column is empty
    keep that gap after both passes, and the segment is processed (one
    record) instead of being rejected. *)
Lemma unfilled_gap_counterexample :
  gap_remains (fillna (map without_quote_volume (hourly_bars 100))) = true
  /\ exists a,
       process_segment quote_volume_object 0
                       (map without_quote_volume (hourly_bars 100))
       = Return (Processed a)
       /\ length (records a) = 1%nat.
Proof.
  split.
  - vm_compute. reflexivity.
  - eexists. split.
    + apply (process_segment_long
               quote_volume_object 0
               (map without_quote_volume (hourly_bars 100))
               (sample_columns
                  (fillna (map without_quote_volume (hourly_bars 100)))));
        [vm_compute; lia|apply sample_package_ignores_quote_volume].
    + cbn [records]. rewrite length_processed. vm_compute. reflexivity.
Qed.

(** ** True Range and ATR(50) *)

Section TrueRangeFacts.

Lemma nth_removelast (l : series) (j : nat) :
  (S j < length l)%nat -> nth j (removelast l) None = nth j l None.
Proof.
  revert j. induction l as [|x l IH]; intros j Hj; [simpl in Hj; lia|].
  destruct l as [|y l]; [simpl in Hj; lia|].
  destruct j as [|j]; [reflexivity|].
  change (nth j (removelast (y :: l)) None = nth j (y :: l) None).
  apply IH. simpl in *. lia.
Qed.

Lemma length_shift1 (s : series) : length (shift1 s) = length s.
Proof.
  destruct s as [|x s]; [reflexivity|].
  unfold shift1. cbn [length]. f_equal.
  revert x. induction s as [|y s IH]; intros x; [reflexivity|].
  change (length (x :: removelast (y :: s)) = length (y :: s)).
  cbn [length]. f_equal. apply IH.
Qed.

Lemma nth_shift1 (s : series) (i : nat) :
  (i < length s)%nat ->
  nth i (shift1 s) None
  = match i with
    | O => None
    | S j => nth j s None
    end.
Proof.
  intros Hi. destruct s as [|x s]; [simpl in Hi; lia|].
  destruct i as [|j]; [reflexivity|].
  unfold shift1. cbn [nth]. apply nth_removelast. exact Hi.
Qed.

Lemma length_series_sub (a b : series) :
  length a = length b -> length (series_sub a b) = length a.
Proof.
  intros Hlen. unfold series_sub.
  rewrite length_map, length_combine. lia.
Qed.

Lemma nth_series_sub (a b : series) (i : nat) :
  length a = length b ->
  nth i (series_sub a b) None
  = lift2 Qminus (nth i a None) (nth i b None).
Proof.
  intros Hlen. unfold series_sub.
  transitivity ((fun p : option Q * option Q => lift2 Qminus (fst p) (snd p))
                  (nth i (combine a b) (None, None))).
  - exact (map_nth (fun p : option Q * option Q =>
                      lift2 Qminus (fst p) (snd p))
                   (combine a b) (None, None) i).
  - rewrite combine_nth by exact Hlen. reflexivity.
Qed.

Lemma length_series_abs (a : series) : length (series_abs a) = length a.
Proof. unfold series_abs. apply length_map. Qed.

Lemma nth_series_abs (a : series) (i : nat) :
  nth i (series_abs a) None = option_map Qabs (nth i a None).
Proof. exact (map_nth (option_map Qabs) a None i). Qed.

Lemma length_row_max3 (a b c : series) :
  length a = length b -> length b = length c ->
  length (row_max3 a b c) = length a.
Proof.
  intros Hab Hbc. unfold row_max3.
  rewrite length_map, !length_combine. lia.
Qed.

Lemma nth_row_max3 (a b c : series) (i : nat) :
  length a = length b -> length b = length c ->
  nth i (row_max3 a b c) None
  = nan_max (nan_max (nth i a None) (nth i b None)) (nth i c None).
Proof.
  intros Hab Hbc. unfold row_max3.
  transitivity
    ((fun p : option Q * (option Q * option Q) =>
        nan_max (nan_max (fst p) (fst (snd p))) (snd (snd p)))
       (nth i (combine a (combine b c)) (None, (None, None)))).
  - exact (map_nth
             (fun p : option Q * (option Q * option Q) =>
                nan_max (nan_max (fst p) (fst (snd p))) (snd (snd p)))
             (combine a (combine b c)) (None, (None, None)) i).
  - rewrite combine_nth by (rewrite length_combine; lia).
    rewrite combine_nth by exact Hbc. reflexivity.
Qed.

Lemma length_sub_columns (c1 c2 : column) (df : list bar) :
  length (series_sub (column_of c1 df) (column_of c2 df)) = length df.
Proof.
  rewrite length_series_sub; rewrite !length_column_of; reflexivity.
Qed.

Lemma length_sub_shifted (c1 c2 : column) (df : list bar) :
  length (series_sub (column_of c1 df) (shift1 (column_of c2 df)))
  = length df.
Proof.
  rewrite length_series_sub;
    rewrite ?length_shift1, !length_column_of; reflexivity.
Qed.

Lemma length_TR (df : list bar) : length (TR df) = length df.
Proof.
  unfold TR.
  rewrite length_row_max3;
    rewrite ?length_series_abs, ?length_sub_columns, ?length_sub_shifted;
    reflexivity.
Qed.

(** The cell of [TR] at a row, from the cells of that row and of the
    row above. *)
Lemma nth_TR (df : list bar) (i : nat) :
  (i < length df)%nat ->
  nth i (TR df) None
  = let high := cell (nth i df no_bar) high_price in
    let low := cell (nth i df no_bar) low_price in
    let previous_close :=
      match i with
      | O => None
      | S j => cell (nth j df no_bar) close_price
      end in
    nan_max (nan_max (lift2 Qminus high low)
                     (option_map Qabs (lift2 Qminus high previous_close)))
            (option_map Qabs (lift2 Qminus low previous_close)).
Proof.
  intros Hi. unfold TR.
  rewrite nth_row_max3
    by (rewrite ?length_series_abs, ?length_sub_columns,
                ?length_sub_shifted; reflexivity).
  rewrite !nth_series_abs.
  rewrite !nth_series_sub
    by (rewrite ?length_shift1, ?length_column_of; reflexivity).
  rewrite nth_shift1 by (rewrite length_column_of; exact Hi).
  rewrite !nth_column_of.
  destruct i as [|j]; [reflexivity|].
  rewrite nth_column_of. reflexivity.
Qed.

Lemma TR_true_range (df : list bar) (i : nat) :
  complete df ->
  (i < length df)%nat ->
  exists q, nth i (TR df) None = Some q /\ (q == true_range df i)%Q.
Proof.
  intros Hc Hi. rewrite nth_TR by exact Hi. unfold true_range.
  destruct (Hc (nth i df no_bar)) as (h & l & c & Hh & Hl & _);
    [apply nth_In; exact Hi|].
  cbv zeta. rewrite Hh, Hl.
  destruct i as [|j].
  - exists (h - l)%Q. split; reflexivity.
  - destruct (Hc (nth j df no_bar)) as (_ & _ & pc & _ & _ & Hpc);
      [apply nth_In; lia|].
    rewrite Hpc. cbn [lift2 option_map nan_max value].
    eexists. split; [reflexivity|].
    symmetry. apply Q.max_assoc.
Qed.

End TrueRangeFacts.

(** X16. [calculate_indicators], lines 43-52, on bars whose high, low and
    close are present: the True Range of a bar is max(high - low, |high -
    previous close|, |low - previous close|), and high - low alone for
    the first bar; ATR50 is the plain mean of the last 50 True Ranges,
    undefined for the first 49 bars.  (Cells are compared as rationals.)
    The ATR50 column of [process_crypto_data] is not this one: it is
    returned by the [ta] package. *)
Theorem atr50_simple_rolling_mean (df : list bar) :
  complete df ->
  length (ATR50 df) = length df
  /\ (forall i, (i < length df)%nat ->
        cell_eq (nth i (TR df) None) (Some (true_range df i)))
  /\ (forall i, (i < length df)%nat ->
        cell_eq (nth i (ATR50 df) None) (simple_mean_atr 50 df i)).
Proof.
  intros Hc. split; [|split].
  - unfold ATR50. rewrite length_rolling_mean. apply length_TR.
  - intros i Hi. destruct (TR_true_range df i Hc Hi) as (q & -> & Hq).
    exact Hq.
  - intros i Hi. unfold ATR50.
    rewrite nth_rolling_mean by (rewrite length_TR; exact Hi).
    unfold window_mean, simple_mean_atr.
    destruct (50 <=? S i)%nat eqn:E; [|exact I].
    apply Nat.leb_le in E.
    destruct (all_present_window (TR df) (true_range df) 50 (S i - 50))
      as (xs & -> & Hsum).
    + rewrite length_TR. lia.
    + intros k Hk. rewrite length_TR in Hk. apply TR_true_range; assumption.
    + unfold cell_eq. rewrite Hsum. reflexivity.
Qed.

Lemma atr50_simple_rolling_mean_witness :
  length (ATR50 (hourly_bars 52)) = length (hourly_bars 52)
  /\ (forall i, (i < length (hourly_bars 52))%nat ->
        cell_eq (nth i (TR (hourly_bars 52)) None)
                (Some (true_range (hourly_bars 52) i)))
  /\ (forall i, (i < length (hourly_bars 52))%nat ->
        cell_eq (nth i (ATR50 (hourly_bars 52)) None)
                (simple_mean_atr 50 (hourly_bars 52) i)).
Proof.
  apply (atr50_simple_rolling_mean (hourly_bars 52)).
  intros b Hb. unfold hourly_bars in Hb. apply in_map_iff in Hb.
  destruct Hb as (i & <- & _).
  do 3 eexists. repeat split; reflexivity.
Defined.

(** * Further properties *)

(** ** The Segmenter: maximal runs *)

Section SegmenterMore.

Lemma separated_same_head (segs : list (list bar)) (cur cur' : list bar) :
  hd no_bar cur' = hd no_bar cur ->
  separated (segs ++ [cur]) -> separated (segs ++ [cur']).
Proof.
  intros Hhd. induction segs as [|s segs IH]; intros Hsep; [exact I|].
  destruct segs as [|s' segs'].
  - simpl in *. rewrite Hhd. exact Hsep.
  - destruct Hsep as [Hb Hsep]. split; [exact Hb|]. apply IH. exact Hsep.
Qed.

Lemma separated_snoc (segs : list (list bar)) (cur next : list bar) :
  separated (segs ++ [cur]) ->
  open_time (hd no_bar next) - open_time (last cur no_bar) <> hour ->
  separated ((segs ++ [cur]) ++ [next]).
Proof.
  intros Hsep Hb. induction segs as [|s segs IH].
  - simpl. split; [exact Hb|exact I].
  - destruct segs as [|s' segs'].
    + simpl in *. destruct Hsep as [H1 _]. repeat split; assumption.
    + destruct Hsep as [H1 Hsep]. split; [exact H1|]. apply IH. exact Hsep.
Qed.

Lemma hd_snoc (cur : list bar) (x : bar) :
  cur <> [] -> hd no_bar (cur ++ [x]) = hd no_bar cur.
Proof. destruct cur; [contradiction|reflexivity]. Qed.

Lemma segment_loop_separated (prev : bar) (rest cur : list bar)
    (segs : list (list bar)) :
  cur <> [] ->
  last cur no_bar = prev ->
  separated (segs ++ [cur]) ->
  separated (segment_loop prev rest cur segs).
Proof.
  revert prev cur segs.
  induction rest as [|x rest IH]; intros prev cur segs Hne Hl Hsep.
  - exact Hsep.
  - cbn [segment_loop].
    destruct (open_time x - open_time prev =? hour) eqn:E.
    + apply IH.
      * destruct cur; discriminate.
      * apply last_last.
      * apply separated_same_head with cur; [apply hd_snoc|]; assumption.
    + apply IH; [discriminate|reflexivity|].
      apply separated_snoc; [exact Hsep|].
      rewrite Hl. apply Z.eqb_neq. exact E.
Qed.

Lemma segment_loop_length (prev : bar) (rest cur : list bar)
    (segs : list (list bar)) :
  length (segment_loop prev rest cur segs)
  = (length segs + S (breaks (prev :: rest)))%nat.
Proof.
  revert prev cur segs.
  induction rest as [|x rest IH]; intros prev cur segs.
  - cbn [segment_loop breaks]. rewrite length_app. simpl. lia.
  - cbn [segment_loop]. change (breaks (prev :: x :: rest))
      with (is_break prev x + breaks (x :: rest))%nat.
    unfold is_break.
    destruct (open_time x - open_time prev =? hour); rewrite IH.
    + lia.
    + rewrite length_app. simpl. lia.
Qed.

Lemma separated_decompose (segments pre : list (list bar))
    (s1 s2 : list bar) (post : list (list bar)) :
  separated segments ->
  segments = pre ++ s1 :: s2 :: post ->
  open_time (hd no_bar s2) - open_time (last s1 no_bar) <> hour.
Proof.
  revert segments. induction pre as [|p pre IH]; intros segments Hsep ->.
  - destruct Hsep as [Hb _]. exact Hb.
  - apply (IH (pre ++ s1 :: s2 :: post)); [|reflexivity].
    simpl in Hsep. destruct (pre ++ s1 :: s2 :: post) eqn:E.
    + destruct pre; discriminate.
    + destruct Hsep as [_ Hsep]. exact Hsep.
Qed.

Lemma contiguous_breaks (df : list bar) :
  contiguous df <-> breaks df = 0%nat.
Proof.
  induction df as [|a df IH]; [split; [reflexivity|intros _; exact I]|].
  destruct df as [|b df']; [split; [reflexivity|intros _; exact I]|].
  change (contiguous (a :: b :: df'))
    with (open_time b - open_time a = hour /\ contiguous (b :: df')).
  change (breaks (a :: b :: df'))
    with (is_break a b + breaks (b :: df'))%nat.
  unfold is_break.
  destruct (open_time b - open_time a =? hour) eqn:E.
  - apply Z.eqb_eq in E. rewrite IH. split; [intros [_ Hb]; lia|].
    intros Hb. split; [exact E|lia].
  - apply Z.eqb_neq in E. split; [intros [Hc _]; contradiction|lia].
Qed.

End SegmenterMore.

(** X1. The segments are maximal runs: whenever one segment directly
    follows another in the output, its first bar is not one interval
    after the last bar of the one before; and the number of segments is
    one more than the number of adjacent input pairs that are not one
    interval apart. *)
Theorem segments_are_maximal (df : list bar) (segments : list (list bar)) :
  split_segments df = Return segments ->
  length segments = S (breaks df)
  /\ forall pre s1 s2 post,
       segments = pre ++ s1 :: s2 :: post ->
       open_time (hd no_bar s2) - open_time (last s1 no_bar) <> hour.
Proof.
  destruct df as [|b rest]; intros E; [discriminate|].
  injection E as <-. split.
  - rewrite segment_loop_length. reflexivity.
  - intros pre s1 s2 post Hdec.
    apply (separated_decompose (segment_loop b rest [b] []) pre s1 s2 post);
      [|exact Hdec].
    apply segment_loop_separated; [discriminate|reflexivity|exact I].
Qed.

Lemma segments_are_maximal_witness :
  length [hourly_bars 3; [sample_bar 7; sample_bar 8]]
  = S (breaks (hourly_bars 3 ++ [sample_bar 7; sample_bar 8]))
  /\ forall pre s1 s2 post,
       [hourly_bars 3; [sample_bar 7; sample_bar 8]]
       = pre ++ s1 :: s2 :: post ->
       open_time (hd no_bar s2) - open_time (last s1 no_bar) <> hour.
Proof.
  apply (segments_are_maximal
           (hourly_bars 3 ++ [sample_bar 7; sample_bar 8])).
  reflexivity.
Defined.

(** X2. The Segmenter returns the whole frame as its only segment
    exactly when the frame is non-empty and all its adjacent bars are one
    interval apart. *)
Theorem single_segment_iff_contiguous (df : list bar) :
  split_segments df = Return [df] <-> df <> [] /\ contiguous df.
Proof.
  split.
  - intros E. split.
    + intros ->. discriminate.
    + pose proof (split_segments_contiguous _ _ E) as Hall.
      inversion Hall. assumption.
  - intros [Hne Hc]. destruct df as [|b rest]; [contradiction|].
    cbn [split_segments]. f_equal.
    pose proof (segment_loop_length b rest [b] []) as Hlen.
    pose proof (segment_loop_concat b rest [b] []) as Hcat.
    apply contiguous_breaks in Hc. rewrite Hc in Hlen.
    destruct (segment_loop b rest [b] []) as [|s [|s' ss]];
      try discriminate Hlen.
    simpl in Hcat. rewrite app_nil_r in Hcat. rewrite Hcat. reflexivity.
Qed.

(** ** The Gap Validator: what passes and what is listed *)

Section ValidatorMore.
Context `{DatetimeFormat}.

Lemma scan_loop_grows (previous : Z) (rest : list Z)
    (duplicates : list Z) (missing : list string) :
  unbounded_scan_loop previous rest duplicates missing
  = (duplicates ++ fst (unbounded_scan_loop previous rest [] []),
     missing ++ snd (unbounded_scan_loop previous rest [] [])).
Proof.
  revert previous duplicates missing.
  induction rest as [|x rest IH]; intros previous duplicates missing.
  - cbn [unbounded_scan_loop fst snd]. rewrite !app_nil_r. reflexivity.
  - cbn [unbounded_scan_loop].
    destruct (x =? previous).
    + rewrite (IH x (duplicates ++ [x]) missing), (IH x ([] ++ [x]) []).
      cbn [fst snd app]. rewrite <- !app_assoc. reflexivity.
    + destruct (negb (x =? previous + hour)).
      * rewrite (IH x duplicates (missing ++ missing_between previous x)),
          (IH x [] ([] ++ missing_between previous x)).
        cbn [fst snd app]. rewrite <- !app_assoc. reflexivity.
      * apply IH.
Qed.

Lemma missing_between_nil (previous actual_time : Z) :
  missing_between previous actual_time = []
  <-> actual_time - previous < 2 * hour.
Proof.
  rewrite missing_between_count. split.
  - intros E. apply (f_equal (@length _)) in E.
    rewrite length_map, length_seq in E. simpl in E.
    assert (Hq : (actual_time - previous) / hour < 2) by lia.
    destruct (Z.lt_ge_cases (actual_time - previous) (2 * hour)) as [|Hge];
      [assumption|].
    assert (2 <= (actual_time - previous) / hour)
      by (apply Z.div_le_lower_bound; [apply hour_pos|lia]).
    lia.
  - intros Hlt.
    assert (Hq : (actual_time - previous) / hour < 2)
      by (apply Z.div_lt_upper_bound; [apply hour_pos|lia]).
    replace (Z.to_nat ((actual_time - previous) / hour - 1)) with 0%nat by lia.
    reflexivity.
Qed.

Lemma scan_loop_nil_iff (previous : Z) (rest : list Z) :
  unbounded_scan_loop previous rest [] [] = ([], [])
  <-> passes_scan (previous :: rest).
Proof.
  revert previous. induction rest as [|x rest IH]; intros previous.
  - split; [intros _; exact I|reflexivity].
  - change (passes_scan (previous :: x :: rest))
      with ((x <> previous /\ x - previous < 2 * hour)
            /\ passes_scan (x :: rest)).
    destruct (Z.eq_dec x previous) as [->|Hne].
    + rewrite scan_step_duplicate, scan_loop_grows. split.
      * intros E. discriminate E.
      * intros [[Hn _] _]. contradiction.
    + destruct (Z.eq_dec x (previous + hour)) as [->|Hne'].
      * rewrite scan_step_contiguous, IH. split.
        -- intros Hp. split; [split; [exact Hne|unfold hour; lia]|exact Hp].
        -- intros [_ Hp]. exact Hp.
      * rewrite scan_step_gap by assumption. rewrite scan_loop_grows.
        cbn [app]. split.
        -- intros E. injection E as Hd Hm.
           apply app_eq_nil in Hm. destruct Hm as [Hm1 Hm2].
           split; [split; [exact Hne|apply missing_between_nil; exact Hm1]|].
           apply IH.
           destruct (unbounded_scan_loop x rest [] []) as [d m].
           cbn [fst snd] in *.
           subst. reflexivity.
        -- intros [[_ Hlt] Hp]. apply IH in Hp. rewrite Hp. cbn [fst snd].
           apply missing_between_nil in Hlt. rewrite Hlt. reflexivity.
Qed.

Lemma report_valid_iff (duplicates : list Z) (missing : list string) :
  report duplicates missing = (true, ValidMessage)
  <-> duplicates = [] /\ missing = [].
Proof.
  unfold report. destruct duplicates, missing; cbn; split;
    try (intros E; discriminate E); try (intros [E1 E2]; discriminate);
    auto.
Qed.

Lemma report_cases (duplicates : list Z) (missing : list string) :
  report duplicates missing = (true, ValidMessage)
  \/ exists errors, report duplicates missing = (false, ErrorsMessage errors).
Proof.
  unfold report. destruct (nonempty duplicates || nonempty missing).
  - right. eexists. reflexivity.
  - left. reflexivity.
Qed.

Lemma firstn_seq_min (k start n : nat) :
  firstn k (seq start n) = seq start (Nat.min k n).
Proof.
  revert start n. induction k as [|k IH]; intros start n; [reflexivity|].
  destruct n as [|n]; [reflexivity|].
  cbn [seq firstn Nat.min]. f_equal. apply IH.
Qed.

Lemma hourly_firstn (t : Z) (k n : nat) :
  firstn k (hourly t n) = hourly t (Nat.min k n).
Proof. unfold hourly. rewrite firstn_map, firstn_seq_min. reflexivity. Qed.

Lemma scan_gap_of_bars (t : Z) (i n m : nat) :
  unbounded_scan
    (hourly t (S i) ++ hourly (t + hour * Z.of_nat (S i + n)) (S m))
  = ([], map strftime (hourly (t + hour * Z.of_nat (S i)) n)).
Proof.
  rewrite hourly_S. rewrite <- app_comm_cons. unfold unbounded_scan.
  rewrite scan_loop_app, scan_loop_hourly, last_hourly. cbn [fst snd].
  rewrite hourly_S.
  destruct n as [|n].
  - replace (t + hour * Z.of_nat (S i + 0)) with (t + hour * Z.of_nat i + hour)
      by (unfold hour; lia).
    rewrite scan_step_contiguous. apply scan_loop_hourly.
  - rewrite scan_step_gap by (unfold hour; lia).
    rewrite scan_loop_hourly. f_equal. cbn [app].
    rewrite missing_between_count.
    replace ((t + hour * Z.of_nat (S i + S n) - (t + hour * Z.of_nat i))
             / hour - 1) with (Z.of_nat (S n)).
    + rewrite Nat2Z.id. unfold hourly.
      rewrite <- seq_shift, !map_map. apply map_ext.
      intros k. f_equal. unfold hour. lia.
    + replace (t + hour * Z.of_nat (S i + S n) - (t + hour * Z.of_nat i))
        with (Z.of_nat (S (S n)) * hour) by (unfold hour; lia).
      rewrite Z.div_mul by (unfold hour; lia). lia.
Qed.

End ValidatorMore.

(** X3. Once the timestamps have parsed, [validate_klines] has three
    outcomes.  It raises [OverflowError] exactly when a timestamp other
    than the last lies in the last hour before [datetime.max].
    Otherwise it answers valid exactly when every timestamp differs from
    the one before it and is less than two intervals after it (an
    earlier timestamp passes too), and in every other case it answers
    [False] with the list of errors. *)
Theorem valid_iff_passes_scan `{DatetimeFormat}
    (klines : list kline) (times : list Z) :
  klines <> [] ->
  parse_times klines = Return times ->
  (validate_klines klines = Raise OverflowError
   <-> ~ additions_in_range times)
  /\ (validate_klines klines = Return (true, ValidMessage)
      <-> additions_in_range times /\ passes_scan times)
  /\ (validate_klines klines = Raise OverflowError
      \/ validate_klines klines = Return (true, ValidMessage)
      \/ exists errors,
           validate_klines klines = Return (false, ErrorsMessage errors)).
Proof.
  intros Hne Hp.
  destruct (additions_in_range_dec times) as [Hr|Hr].
  - rewrite (validate_parsed _ _ Hp Hne Hr). split; [|split].
    + split; [discriminate|]. intros Hn. contradiction.
    + assert (Hs : unbounded_scan times = ([], []) <-> passes_scan times).
      { destruct times as [|t0 rest].
        - destruct klines as [|k klines]; [contradiction|].
          cbn [parse_times] in Hp. unfold bind in Hp.
          destruct (parse_open_time k); [|discriminate].
          destruct (parse_times klines); discriminate.
        - apply scan_loop_nil_iff. }
      split.
      * intros E. split; [exact Hr|]. apply Hs.
        injection E as E. apply report_valid_iff in E.
        destruct (unbounded_scan times) as [d m]. cbn [fst snd] in E.
        destruct E as [-> ->]. reflexivity.
      * intros [_ Hpass]. apply Hs in Hpass. rewrite Hpass. reflexivity.
    + right.
      destruct (report_cases (fst (unbounded_scan times))
                             (snd (unbounded_scan times)))
        as [E|[errors E]]; rewrite E; [left|right; exists errors];
        reflexivity.
  - rewrite (validate_overflow _ _ Hp Hr). split; [|split].
    + split; [intros _; exact Hr|reflexivity].
    + split; [discriminate|]. intros [Hin _]. contradiction.
    + left. reflexivity.
Qed.

Lemma valid_iff_passes_scan_witness :
  ((validate_klines
      (map kline_at ["2024-01-01 03:00:00"; "2024-01-01 01:00:00";
                     "2024-01-01 02:30:00"]%string)
    = Raise OverflowError
    <-> ~ additions_in_range [t0 + 10800; t0 + 3600; t0 + 9000])
   /\ (validate_klines
         (map kline_at ["2024-01-01 03:00:00"; "2024-01-01 01:00:00";
                        "2024-01-01 02:30:00"]%string)
       = Return (true, ValidMessage)
       <-> additions_in_range [t0 + 10800; t0 + 3600; t0 + 9000]
           /\ passes_scan [t0 + 10800; t0 + 3600; t0 + 9000])
   /\ (validate_klines
         (map kline_at ["2024-01-01 03:00:00"; "2024-01-01 01:00:00";
                        "2024-01-01 02:30:00"]%string)
       = Raise OverflowError
       \/ validate_klines
            (map kline_at ["2024-01-01 03:00:00"; "2024-01-01 01:00:00";
                           "2024-01-01 02:30:00"]%string)
          = Return (true, ValidMessage)
       \/ exists errors,
            validate_klines
              (map kline_at ["2024-01-01 03:00:00"; "2024-01-01 01:00:00";
                             "2024-01-01 02:30:00"]%string)
            = Return (false, ErrorsMessage errors)))
  /\ validate_klines
       (map kline_at ["2024-01-01 03:00:00"; "2024-01-01 01:00:00";
                      "2024-01-01 02:30:00"]%string)
     = Return (true, ValidMessage)
  /\ validate_klines
       (map kline_at ["9999-12-31 23:10:00"; "9999-12-31 23:20:00"]%string)
     = Raise OverflowError.
Proof.
  split; [|split].
  - apply (@valid_iff_passes_scan canonical_format).
    + discriminate.
    + reflexivity.
  - reflexivity.
  - apply (proj1 (@valid_iff_passes_scan canonical_format
                    (map kline_at ["9999-12-31 23:10:00";
                                   "9999-12-31 23:20:00"]%string)
                    [253402297800; 253402298400]
                    ltac:(discriminate) eq_refl)).
    intros [Hle _]. vm_compute in Hle. apply Hle. reflexivity.
Defined.

(** X4. Whatever the two timestamps, what the scan appends to the missing
    list for a pair is an initial part of the timestamps at interval
    steps strictly between them, and it leaves out at most the last of
    them. *)
Theorem missing_is_prefix_of_intermediate `{DatetimeFormat}
    (previous actual_time : Z) :
  exists n,
    missing_between previous actual_time
    = map strftime (firstn n (intermediate_timestamps previous actual_time))
    /\ (length (intermediate_timestamps previous actual_time) <= S n)%nat.
Proof.
  exists (Z.to_nat ((actual_time - previous) / hour - 1)).
  assert (Hlo : (actual_time - previous) / hour - 1
                <= (actual_time - previous - 1) / hour).
  { replace ((actual_time - previous) / hour - 1)
      with ((actual_time - previous + (-1) * hour) / hour)
      by (rewrite Z.div_add by (unfold hour; lia); lia).
    apply Z.div_le_mono; unfold hour; lia. }
  assert (Hhi : (actual_time - previous - 1) / hour
                <= (actual_time - previous) / hour)
    by (apply Z.div_le_mono; unfold hour; lia).
  split.
  - rewrite missing_between_count. unfold intermediate_timestamps.
    rewrite firstn_map, firstn_seq_min, map_map.
    rewrite Nat.min_l by lia. reflexivity.
  - unfold intermediate_timestamps. rewrite length_map, length_seq. lia.
Qed.

(** X5. A perfect hourly sequence from which [n >= 1] consecutive interior
    bars have been removed: the scan lists exactly those [n] timestamps,
    in order, and no duplicate; the returned text counts [n], shows the
    first ten of them at most, and carries the ellipsis only when [n]
    exceeds twenty. *)
Theorem gap_of_n_bars `{DatetimeFormat}
    (klines : list kline) (t : Z) (i n m : nat) :
  (1 <= n)%nat ->
  parse_times klines
  = Return (hourly t (S i) ++ hourly (t + hour * Z.of_nat (S i + n)) (S m)) ->
  scan (hourly t (S i) ++ hourly (t + hour * Z.of_nat (S i + n)) (S m))
  = Return ([], map strftime (hourly (t + hour * Z.of_nat (S i)) n))
  /\ validate_klines klines
     = Return (false,
               ErrorsMessage
                 [MissingLine n
                    (map strftime
                         (hourly (t + hour * Z.of_nat (S i)) (Nat.min 10 n)))
                    (20 <? n)%nat]).
Proof.
  intros Hn Hp.
  assert (Hr : additions_in_range
                 (hourly t (S i)
                  ++ hourly (t + hour * Z.of_nat (S i + n)) (S m))).
  { apply (parsed_two_runs_in_range klines); [exact Hp|left|];
      unfold hour; lia. }
  split; [rewrite (scan_in_range _ Hr), scan_gap_of_bars; reflexivity|].
  rewrite (validate_parsed _ _ Hp).
  - rewrite scan_gap_of_bars. cbn [fst snd]. unfold report.
    destruct n as [|n]; [lia|].
    assert (Hne : nonempty
                    (map strftime (hourly (t + hour * Z.of_nat (S i)) (S n)))
                  = true) by (rewrite hourly_S; reflexivity).
    rewrite Hne. cbn [nonempty orb app].
    rewrite length_map, firstn_map, hourly_firstn.
    assert (Hlen : length (hourly (t + hour * Z.of_nat (S i)) (S n)) = S n)
      by (unfold hourly; rewrite length_map, length_seq; reflexivity).
    rewrite Hlen. reflexivity.
  - apply (parse_times_nonempty _ _ Hp). rewrite hourly_S. discriminate.
  - exact Hr.
Qed.

Lemma gap_of_n_bars_witness :
  scan (hourly t0 2 ++ hourly (t0 + hour * Z.of_nat (2 + 3)) 2)
  = Return ([], map strftime (hourly (t0 + hour * Z.of_nat 2) 3))
  /\ validate_klines
       (map kline_at ["2024-01-01 00:00:00"; "2024-01-01 01:00:00";
                      "2024-01-01 05:00:00"; "2024-01-01 06:00:00"]%string)
     = Return (false,
               ErrorsMessage
                 [MissingLine 3
                    (map strftime
                         (hourly (t0 + hour * Z.of_nat 2) (Nat.min 10 3)))
                    (20 <? 3)%nat]).
Proof.
  apply (@gap_of_n_bars canonical_format
           (map kline_at ["2024-01-01 00:00:00"; "2024-01-01 01:00:00";
                          "2024-01-01 05:00:00"; "2024-01-01 06:00:00"]%string)
           t0 1%nat 3%nat 1%nat).
  - lia.
  - reflexivity.
Defined.

(** ** The Indicator Engine: runs, accounting and warm-up *)

Section PipelineMore.
Context `{DatetimeFormat} `{IndicatorPackage}.
Variable dtypes : column -> dtype.

(** The loop body either gets through the segment, or raises: the
    [IndexError] of a segment of 99 bars, or what the package raised. *)
Lemma process_segment_cases (idx : nat) (segment : list bar) :
  (segment_completes dtypes segment
   /\ exists o, process_segment dtypes idx segment = Return o
                /\ outcome_id o = S idx
                /\ bars_accounted o = length segment)
  \/ (~ segment_completes dtypes segment
      /\ exists e,
           process_segment dtypes idx segment = Raise e
           /\ ((length segment = 99%nat /\ e = IndexError)
               \/ ((99 <= length segment)%nat
                   /\ ta_columns dtypes (fillna segment) = Raise e))).
Proof.
  destruct (Nat.lt_ge_cases (length segment) 99) as [Hlt|Hge].
  - left. split; [split; [lia|intros Hge; lia]|].
    eexists. split; [apply process_segment_short; exact Hlt|].
    split; reflexivity.
  - destruct (ta_columns dtypes (fillna segment)) as [columns|e] eqn:Hta.
    + destruct (Nat.eq_dec (length segment) 99) as [E|Hne].
      * right. split; [intros [Hne _]; contradiction|].
        exists IndexError.
        split; [apply (process_segment_99 dtypes _ _ columns); assumption|].
        left. split; [exact E|reflexivity].
      * left. split; [split; [exact Hne|intros _; exists columns; exact Hta]|].
        eexists.
        split; [apply (process_segment_long dtypes _ _ columns);
                [lia|exact Hta]|].
        split; [reflexivity|]. cbn [bars_accounted records].
        rewrite length_processed. lia.
    + right. split.
      * intros [_ Hc]. destruct (Hc Hge) as [columns Hc'].
        rewrite Hta in Hc'. discriminate Hc'.
      * exists e. split; [apply process_segment_raises; [exact Hge|exact Hta]|].
        right. split; [exact Hge|reflexivity].
Qed.

Lemma process_segments_cases (segments : list (list bar)) (idx : nat) :
  (Forall (segment_completes dtypes) segments
   /\ exists os,
        process_segments dtypes idx segments = Return os
        /\ list_sum (map bars_accounted os)
           = list_sum (map (@length bar) segments))
  \/ (~ Forall (segment_completes dtypes) segments
      /\ exists e s,
           In s segments
           /\ process_segments dtypes idx segments = Raise e
           /\ ((length s = 99%nat /\ e = IndexError)
               \/ ((99 <= length s)%nat
                   /\ ta_columns dtypes (fillna s) = Raise e))).
Proof.
  revert idx. induction segments as [|s segments IH]; intros idx.
  - left. split; [constructor|]. exists []. split; reflexivity.
  - cbn [process_segments]. unfold bind.
    destruct (process_segment_cases idx s)
      as [[Hc (o & -> & _ & Hb)]|[Hn (e & -> & He)]].
    + destruct (IH (S idx))
        as [[Hall (os & -> & Hsum)]|[Hnot (e & s' & Hin & -> & He)]].
      * left. split; [constructor; assumption|].
        exists (o :: os). split; [reflexivity|].
        cbn [map]. simpl list_sum. rewrite Hb, Hsum. reflexivity.
      * right. split.
        -- intros Hall. inversion Hall. contradiction.
        -- exists e, s'. split; [right; exact Hin|]. split; [reflexivity|].
           exact He.
    + right. split.
      * intros Hall. inversion Hall. contradiction.
      * exists e, s. split; [left; reflexivity|]. split; [reflexivity|].
        exact He.
Qed.

(** The rolling means of record [i] are those of row [99 + i]. *)
Lemma processed_row_indicators (columns : indicator_column -> series)
    (segment : list bar) (i : nat) (r : record) :
  nth_error (map to_record
                 (skipn 99 (with_indicators columns (fillna segment)))) i
  = Some r ->
  (99 + i < length segment)%nat
  /\ MA7 (rec_indicators r)
     = window_mean 7 (column_of close_price (fillna segment)) (99 + i)
  /\ MA25 (rec_indicators r)
     = window_mean 25 (column_of close_price (fillna segment)) (99 + i)
  /\ MA99 (rec_indicators r)
     = window_mean 99 (column_of close_price (fillna segment)) (99 + i)
  /\ MA50 (rec_indicators r)
     = window_mean 50 (column_of close_price (fillna segment)) (99 + i).
Proof.
  intros Hr.
  assert (Hi : (99 + i < length segment)%nat).
  { assert (Hlt : (i < length (map to_record
                                   (skipn 99 (with_indicators
                                                columns (fillna segment)))))%nat)
      by (apply nth_error_Some; rewrite Hr; discriminate).
    rewrite length_processed in Hlt. lia. }
  split; [exact Hi|].
  set (close := column_of close_price (fillna segment)).
  assert (Hclose : length close = length segment)
    by (unfold close; rewrite length_column_of; apply length_fillna).
  rewrite nth_error_map in Hr.
  destruct (nth_error (skipn 99 (with_indicators columns (fillna segment))) i)
    as [row|] eqn:Hn; [|discriminate Hr].
  simpl in Hr. injection Hr as <-.
  apply (nth_error_nth _ _ (no_bar, no_indicators)) in Hn.
  rewrite nth_skipn in Hn. subst row. unfold with_indicators.
  rewrite (nth_indexed _ (fillna segment) (99 + i) _ no_bar)
    by (rewrite length_fillna; exact Hi).
  cbn [to_record rec_indicators snd fst MA7 MA25 MA99 MA50]. fold close.
  rewrite !nth_rolling_mean by (rewrite Hclose; exact Hi).
  repeat split.
Qed.

(** A window of present cells has a mean; a window that starts with a
    NaN has none. *)
Lemma window_mean_present (w : nat) (s : series) (i : nat) :
  (w <= S i)%nat -> (i < length s)%nat ->
  (forall j, (j < length s)%nat -> nth j s None <> None) ->
  window_mean w s i <> None.
Proof.
  intros Hw Hi Hs. unfold window_mean.
  destruct (w <=? S i)%nat eqn:E; [|apply Nat.leb_gt in E; lia].
  destruct (all_present_window s (fun j => value (nth j s None)) w (S i - w))
    as (xs & -> & _); [lia| |discriminate].
  intros j Hj. destruct (nth j s None) as [q|] eqn:Hq.
  - exists q. split; [reflexivity|]. reflexivity.
  - exfalso. apply (Hs j Hj). exact Hq.
Qed.

Lemma window_mean_missing (w : nat) (s : series) (i : nat) :
  (0 < w)%nat -> (i < length s)%nat ->
  (forall j, nth j s None = None) ->
  window_mean w s i = None.
Proof.
  intros Hw Hi Hs. unfold window_mean.
  destruct (w <=? S i)%nat eqn:E; [|reflexivity].
  apply Nat.leb_le in E.
  rewrite (skipn_cons_nth (S i - w) s None) by lia.
  rewrite Hs. destruct w as [|w]; [lia|]. reflexivity.
Qed.

Lemma filled_close_present (segment : list bar) (i : nat) :
  (i < length segment)%nat ->
  cell (nth i segment no_bar) close_price <> None ->
  forall j, (j < length (column_of close_price (fillna segment)))%nat ->
            nth j (column_of close_price (fillna segment)) None <> None.
Proof.
  intros Hi Hv j Hj.
  rewrite length_column_of, length_fillna in Hj.
  rewrite nth_column_of.
  destruct (fillna_cell segment close_price j Hj)
    as [(x & -> & _)|[(x & -> & _)|[_ Hnone]]]; try discriminate.
  exfalso. apply Hv. rewrite <- nth_column_of. apply Hnone.
Qed.

Lemma filled_close_missing (segment : list bar) :
  (forall i, cell (nth i segment no_bar) close_price = None) ->
  forall j, nth j (column_of close_price (fillna segment)) None = None.
Proof.
  intros Hnone j.
  destruct (Nat.lt_ge_cases j (length segment)) as [Hj|Hj].
  - rewrite nth_column_of.
    destruct (fillna_cell segment close_price j Hj)
      as [(x & _ & (k & _ & Hk & _))|[(x & _ & (k & _ & Hk & _))|[Hv _]]].
    + rewrite nth_column_of, Hnone in Hk. discriminate.
    + rewrite nth_column_of, Hnone in Hk. discriminate.
    + exact Hv.
  - apply nth_overflow. rewrite length_column_of, length_fillna. exact Hj.
Qed.

End PipelineMore.


(** X7. When a run ends normally, every bar of the frame is accounted for
    once: the records kept plus 99 trimmed rows for each processed
    segment, and the warned length for each discarded one, add up to the
    number of bars; and the k-th outcome carries the number k + 1, so
    discarded segments leave holes in the numbering of the records. *)
Theorem run_accounts_for_every_bar `{DatetimeFormat} `{IndicatorPackage}
    (dtypes : column -> dtype)
    (df : list bar) (os : list segment_outcome) :
  process_crypto_data dtypes df = Return os ->
  list_sum (map bars_accounted os) = length df
  /\ forall k o, nth_error os k = Some o -> outcome_id o = S k.
Proof.
  destruct (split_segments df) as [segments|e] eqn:Es;
    [|destruct df; discriminate].
  rewrite (process_crypto_data_rows dtypes df _ Es).
  intros E. split.
  - destruct (process_segments_cases dtypes segments 0)
      as [[_ (os' & E' & Hsum)]|[_ (e & s & _ & E' & _)]];
      rewrite E' in E; [|discriminate].
    injection E as <-. rewrite Hsum.
    rewrite <- (split_segments_concat _ _ Es), length_concat. reflexivity.
  - intros k o Hk.
    destruct (process_segments_nth _ _ _ _ E) as [_ Hnth].
    destruct (Hnth k o Hk) as (segment & _ & Hp).
    destruct (process_segment_cases dtypes (0 + k) segment)
      as [[_ (o' & E' & Hid & _)]|[_ (e & E' & _)]]; rewrite E' in Hp;
      [|discriminate].
    injection Hp as <-. exact Hid.
Qed.

Lemma run_accounts_for_every_bar_witness :
  list_sum (map bars_accounted gapped_outcomes) = length gapped_bars
  /\ forall k o, nth_error gapped_outcomes k = Some o -> outcome_id o = S k.
Proof.
  apply (@run_accounts_for_every_bar canonical_format sample_package
           all_float64 gapped_bars gapped_outcomes).
  vm_compute. reflexivity.
Defined.

Lemma without_close_cells (l : list bar) (i : nat) :
  cell (nth i (map without_close l) no_bar) close_price = None.
Proof.
  destruct (Nat.lt_ge_cases i (length l)) as [Hi|Hi].
  - rewrite (nth_indep _ no_bar (without_close no_bar))
      by (rewrite length_map; exact Hi).
    rewrite map_nth. reflexivity.
  - rewrite nth_overflow by (rewrite length_map; exact Hi). reflexivity.
Qed.

(** X8. For a segment of 100 bars or more on which the calls of the
    package return: when [close_price] has a value in at least one bar,
    every record comes out with its four rolling means (MA7, MA25, MA50,
    MA99) present; when [close_price] has no value at all, every record
    comes out with all four of them NaN. *)
Theorem records_have_their_averages `{DatetimeFormat} `{IndicatorPackage}
    (dtypes : column -> dtype) (idx : nat) (segment : list bar)
    (columns : indicator_column -> series) :
  (100 <= length segment)%nat ->
  ta_columns dtypes (fillna segment) = Return columns ->
  exists a,
    process_segment dtypes idx segment = Return (Processed a)
    /\ ((exists i, (i < length segment)%nat
                   /\ cell (nth i segment no_bar) close_price <> None) ->
        forall r, In r (records a) -> averages_present r)
    /\ ((forall i, cell (nth i segment no_bar) close_price = None) ->
        forall r, In r (records a) -> averages_missing r).
Proof.
  intros Hlen Hta. eexists.
  split; [apply (process_segment_long _ _ _ columns); assumption|].
  cbn [records].
  assert (Hclose : length (column_of close_price (fillna segment))
                   = length segment)
    by (rewrite length_column_of; apply length_fillna).
  split.
  - intros (i & Hi & Hv) r Hr.
    apply In_nth_error in Hr. destruct Hr as (k & Hk).
    unfold averages_present.
    destruct (processed_row_indicators columns segment k r Hk)
      as (Hlt & -> & -> & -> & ->).
    pose proof (filled_close_present segment i Hi Hv) as Hall.
    repeat split;
      (apply window_mean_present; [lia|rewrite Hclose; lia|exact Hall]).
  - intros Hnone r Hr.
    apply In_nth_error in Hr. destruct Hr as (k & Hk).
    unfold averages_missing.
    destruct (processed_row_indicators columns segment k r Hk)
      as (Hlt & -> & -> & -> & ->).
    pose proof (filled_close_missing segment Hnone) as Hall.
    repeat split;
      (apply window_mean_missing; [lia|rewrite Hclose; lia|exact Hall]).
Qed.

Lemma records_have_their_averages_witness :
  (exists a,
      process_segment all_float64 0 (hourly_bars 120) = Return (Processed a)
      /\ length (records a) = 21%nat
      /\ forall r, In r (records a) -> averages_present r)
  /\ (exists a,
         process_segment all_float64 0 (map without_close (hourly_bars 120))
         = Return (Processed a)
         /\ length (records a) = 21%nat
         /\ forall r, In r (records a) -> averages_missing r).
Proof.
  split.
  - destruct (@records_have_their_averages
                canonical_format sample_package all_float64 0%nat
                (hourly_bars 120)
                (sample_columns (fillna (hourly_bars 120)))
                ltac:(vm_compute; lia) (sample_package_returns _))
      as (a & Ha & Hpresent & _).
    exists a. split; [exact Ha|]. split.
    + destruct (accepted_segment_rows
                  all_float64 0 (hourly_bars 120)
                  (sample_columns (fillna (hourly_bars 120)))
                  ltac:(vm_compute; lia) (sample_package_returns _))
        as (a' & Ha' & Hl & _).
      rewrite Ha in Ha'. injection Ha' as <-. rewrite Hl. reflexivity.
    + apply Hpresent. exists 0%nat. split; [vm_compute; lia|].
      vm_compute. discriminate.
  - destruct (@records_have_their_averages
                canonical_format sample_package all_float64 0%nat
                (map without_close (hourly_bars 120))
                (sample_columns (fillna (map without_close (hourly_bars 120))))
                ltac:(vm_compute; lia) (sample_package_returns _))
      as (a & Ha & _ & Hmissing).
    exists a. split; [exact Ha|]. split.
    + destruct (accepted_segment_rows
                  all_float64 0 (map without_close (hourly_bars 120))
                  (sample_columns
                     (fillna (map without_close (hourly_bars 120))))
                  ltac:(vm_compute; lia) (sample_package_returns _))
        as (a' & Ha' & Hl & _).
      rewrite Ha in Ha'. injection Ha' as <-. rewrite Hl. reflexivity.
    + apply Hmissing. apply without_close_cells.
Defined.

(** X9. The fill of lines 57-61 keeps the number of rows and both
    timestamps of every row, never changes a cell that has a value, and
    leaves a NaN in the frame exactly when some column of a non-empty
    frame has no value in any row. *)
Theorem fillna_keeps_values_and_fills_columns (seg : list bar) :
  length (fillna seg) = length seg
  /\ map open_time (fillna seg) = map open_time seg
  /\ map close_time (fillna seg) = map close_time seg
  /\ (forall c i x,
         cell (nth i seg no_bar) c = Some x ->
         cell (nth i (fillna seg) no_bar) c = Some x)
  /\ (any_null (fillna seg) = true
      <-> seg <> []
          /\ exists c, forall i, cell (nth i seg no_bar) c = None).
Proof.
  split; [apply length_fillna|].
  split; [apply fillna_open_time|].
  split; [apply fillna_close_time|].
  split.
  - intros c i x Hx.
    assert (Hi : (i < length seg)%nat).
    { destruct (Nat.lt_ge_cases i (length seg)) as [Hlt|Hge]; [exact Hlt|].
      rewrite nth_overflow in Hx by exact Hge. discriminate. }
    destruct (fillna_cell seg c i Hi)
      as [(y & -> & (j & Hj & Hnj & Hb))|[(y & _ & (j & Hj & _ & Hb))|[_ Hnone]]].
    + destruct (Nat.eq_dec j i) as [->|Hne].
      * rewrite nth_column_of, Hx in Hnj. symmetry. exact Hnj.
      * rewrite <- nth_column_of in Hx. rewrite Hb in Hx by lia. discriminate.
    + rewrite <- nth_column_of in Hx. rewrite Hb in Hx by lia. discriminate.
    + rewrite <- nth_column_of in Hx. rewrite Hnone in Hx. discriminate.
  - split.
    + intros Hnull. unfold any_null in Hnull.
      apply existsb_exists in Hnull. destruct Hnull as (r & Hr & Hc).
      apply existsb_exists in Hc. destruct Hc as (c & _ & Hc).
      apply (In_nth _ _ no_bar) in Hr. destruct Hr as (i & Hi & <-).
      rewrite length_fillna in Hi.
      split; [intros ->; simpl in Hi; lia|].
      exists c.
      destruct (cell (nth i (fillna seg) no_bar) c) as [v|] eqn:Hv;
        [discriminate Hc|].
      destruct (fillna_cell seg c i Hi)
        as [(y & Hy & _)|[(y & Hy & _)|[_ Hnone]]].
      * rewrite Hv in Hy. discriminate.
      * rewrite Hv in Hy. discriminate.
      * intros k. rewrite <- nth_column_of. apply Hnone.
    + intros [Hne (c & Hnone)].
      assert (H0 : (0 < length seg)%nat)
        by (destruct seg; [contradiction|simpl; lia]).
      unfold any_null. apply existsb_exists.
      exists (nth 0 (fillna seg) no_bar). split.
      * apply nth_In. rewrite length_fillna. exact H0.
      * apply existsb_exists. exists c.
        split; [apply column_in_all_columns|].
        destruct (fillna_cell seg c 0 H0)
          as [(y & _ & (j & _ & Hj & _))|[(y & _ & (j & _ & Hj & _))|[-> _]]].
        -- rewrite nth_column_of, Hnone in Hj. discriminate.
        -- rewrite nth_column_of, Hnone in Hj. discriminate.
        -- reflexivity.
Qed.

(** ** [calculate_indicators]: the rows kept and the Keltner band *)

Section TrainingFacts.

Lemma length_series_add (a b : series) :
  length a = length b -> length (series_add a b) = length a.
Proof.
  intros Hlen. unfold series_add. rewrite length_map, length_combine. lia.
Qed.

Lemma nth_series_add (a b : series) (i : nat) :
  length a = length b ->
  nth i (series_add a b) None = lift2 Qplus (nth i a None) (nth i b None).
Proof.
  intros Hlen. unfold series_add.
  transitivity ((fun p : option Q * option Q => lift2 Qplus (fst p) (snd p))
                  (nth i (combine a b) (None, None))).
  - exact (map_nth (fun p : option Q * option Q =>
                      lift2 Qplus (fst p) (snd p))
                   (combine a b) (None, None) i).
  - rewrite combine_nth by exact Hlen. reflexivity.
Qed.

Lemma length_series_scale (k : Q) (a : series) :
  length (series_scale k a) = length a.
Proof. unfold series_scale. apply length_map. Qed.

Lemma nth_series_scale (k : Q) (a : series) (i : nat) :
  nth i (series_scale k a) None = option_map (Qmult k) (nth i a None).
Proof. exact (map_nth (option_map (Qmult k)) a None i). Qed.

Lemma length_MA_column (w : nat) (df : list bar) :
  length (MA_column w df) = length df.
Proof.
  unfold MA_column. rewrite length_rolling_mean. apply length_column_of.
Qed.

Lemma length_ATR50 (df : list bar) : length (ATR50 df) = length df.
Proof. unfold ATR50. rewrite length_rolling_mean. apply length_TR. Qed.

Lemma complete_close (df : list bar) :
  complete df ->
  forall j, (j < length (column_of close_price df))%nat ->
            nth j (column_of close_price df) None <> None.
Proof.
  intros Hc j Hj. rewrite length_column_of in Hj. rewrite nth_column_of.
  destruct (Hc (nth j df no_bar)) as (_ & _ & c & _ & _ & ->);
    [apply nth_In; exact Hj|discriminate].
Qed.

Lemma nth_MA_column (w : nat) (df : list bar) (i : nat) :
  (i < length df)%nat ->
  nth i (MA_column w df) None = window_mean w (column_of close_price df) i.
Proof.
  intros Hi. unfold MA_column. apply nth_rolling_mean.
  rewrite length_column_of. exact Hi.
Qed.

Lemma MA_column_present (w : nat) (df : list bar) (i : nat) :
  complete df -> (w <= S i)%nat -> (i < length df)%nat ->
  nth i (MA_column w df) None <> None.
Proof.
  intros Hc Hw Hi. rewrite nth_MA_column by exact Hi.
  apply window_mean_present;
    [exact Hw|rewrite length_column_of; exact Hi|apply complete_close; exact Hc].
Qed.

Lemma MA_column_warmup (w : nat) (df : list bar) (i : nat) :
  (S i < w)%nat -> nth i (MA_column w df) None = None.
Proof.
  intros Hw.
  destruct (Nat.lt_ge_cases i (length df)) as [Hi|Hi].
  - rewrite nth_MA_column by exact Hi. unfold window_mean.
    destruct (w <=? S i)%nat eqn:E; [apply Nat.leb_le in E; lia|reflexivity].
  - apply nth_overflow. rewrite length_MA_column. exact Hi.
Qed.

(** The value of [ATR50] at a row with 50 bars behind it. *)
Lemma ATR50_value (df : list bar) (i : nat) :
  complete df -> (50 <= S i)%nat -> (i < length df)%nat ->
  exists xs,
    nth i (ATR50 df) None = Some (Qsum xs / inject_Z (Z.of_nat 50))%Q
    /\ (Qsum xs == Qsum (map (true_range df) (seq (S i - 50) 50)))%Q.
Proof.
  intros Hc Hw Hi. unfold ATR50.
  rewrite nth_rolling_mean by (rewrite length_TR; exact Hi).
  unfold window_mean.
  destruct (50 <=? S i)%nat eqn:E; [|apply Nat.leb_gt in E; lia].
  destruct (all_present_window (TR df) (true_range df) 50 (S i - 50))
    as (xs & -> & Hsum).
  - rewrite length_TR. lia.
  - intros k Hk. rewrite length_TR in Hk. apply TR_true_range; assumption.
  - exists xs. split; [reflexivity|exact Hsum].
Qed.

Lemma nth_KC_upper (df : list bar) (i : nat) :
  nth i (KC_upper df) None
  = lift2 Qplus (nth i (MA_column 50 df) None)
          (option_map (Qmult multiplier) (nth i (ATR50 df) None)).
Proof.
  unfold KC_upper.
  rewrite nth_series_add
    by (rewrite length_series_scale, length_MA_column, length_ATR50;
        reflexivity).
  rewrite nth_series_scale. reflexivity.
Qed.

Lemma nth_KC_lower (df : list bar) (i : nat) :
  nth i (KC_lower df) None
  = lift2 Qminus (nth i (MA_column 50 df) None)
          (option_map (Qmult multiplier) (nth i (ATR50 df) None)).
Proof.
  unfold KC_lower.
  rewrite nth_series_sub
    by (rewrite length_series_scale, length_MA_column, length_ATR50;
        reflexivity).
  rewrite nth_series_scale. reflexivity.
Qed.

Lemma length_indicator_frame (df : list bar) :
  length (indicator_frame df) = length df.
Proof.
  unfold indicator_frame.
  rewrite length_map, length_combine, length_seq. lia.
Qed.

Lemma indicator_frame_bars (df : list bar) :
  map train_bar (indicator_frame df) = df.
Proof.
  unfold indicator_frame. rewrite map_map. cbn [train_bar].
  rewrite (map_snd_indexed (fun b : bar => b)). apply map_id.
Qed.

Lemma nth_indicator_frame (df : list bar) (i : nat) :
  (i < length df)%nat ->
  nth i (indicator_frame df) no_row
  = mkTrainingRow (nth i df no_bar)
                  (nth i (MA_column 7 df) None) (nth i (MA_column 25 df) None)
                  (nth i (MA_column 99 df) None)
                  (nth i (KC_upper df) None) (nth i (KC_lower df) None).
Proof.
  intros Hi. unfold indicator_frame.
  rewrite (nth_indexed _ df i no_row no_bar Hi). reflexivity.
Qed.

Lemma has_required_from_98 (df : list bar) (i : nat) :
  complete df -> (i < length df)%nat ->
  has_required (nth i (indicator_frame df) no_row) = (98 <=? i)%nat.
Proof.
  intros Hc Hi. rewrite nth_indicator_frame by exact Hi.
  unfold has_required. cbn [train_MA7 train_MA25 train_MA99
                             train_KC_upper train_KC_lower].
  destruct (98 <=? i)%nat eqn:E.
  - apply Nat.leb_le in E.
    rewrite nth_KC_upper, nth_KC_lower.
    destruct (ATR50_value df i Hc) as (xs & -> & _); [lia|exact Hi|].
    pose proof (MA_column_present 7 df i Hc) as H7.
    pose proof (MA_column_present 25 df i Hc) as H25.
    pose proof (MA_column_present 99 df i Hc) as H99.
    pose proof (MA_column_present 50 df i Hc) as H50.
    destruct (nth i (MA_column 7 df) None); [|exfalso; apply H7; auto; lia].
    destruct (nth i (MA_column 25 df) None); [|exfalso; apply H25; auto; lia].
    destruct (nth i (MA_column 99 df) None); [|exfalso; apply H99; auto; lia].
    destruct (nth i (MA_column 50 df) None); [|exfalso; apply H50; auto; lia].
    reflexivity.
  - apply Nat.leb_gt in E.
    rewrite (MA_column_warmup 99 df i) by lia. cbn [is_nan negb].
    rewrite !andb_false_r. reflexivity.
Qed.

Lemma filter_from {A : Type} (p : A -> bool) (d : A) (l : list A) (k : nat) :
  (forall i, (i < length l)%nat -> p (nth i l d) = (k <=? i)%nat) ->
  filter p l = skipn k l.
Proof.
  revert k. induction l as [|a l IH]; intros k Hp.
  - destruct k; reflexivity.
  - pose proof (Hp 0%nat) as H0. cbn [nth length] in H0.
    destruct k as [|k].
    + cbn [filter skipn]. rewrite H0 by lia. cbn [Nat.leb]. f_equal.
      rewrite (IH 0%nat); [reflexivity|].
      intros i Hi. apply (Hp (S i)). simpl. lia.
    + cbn [filter skipn]. rewrite H0 by lia. cbn [Nat.leb].
      apply IH. intros i Hi. apply (Hp (S i)). simpl. lia.
Qed.

End TrainingFacts.

(** X10. On a frame whose high, low and close are present in every bar,
    [dropna] on MA7, MA25, MA99 and the two Keltner columns removes
    exactly the first 98 rows: the kept rows are the bars from index 98
    on, in order, and the count printed as discarded is 98, or the whole
    frame when it is shorter. *)
Theorem dropna_keeps_rows_from_98 (df : list bar) :
  complete df ->
  df_final df = skipn 98 (indicator_frame df)
  /\ map train_bar (df_final df) = skipn 98 df
  /\ length (df_final df) = (length df - 98)%nat
  /\ discarded_points df = Nat.min 98 (length df).
Proof.
  intros Hc.
  assert (Hf : df_final df = skipn 98 (indicator_frame df)).
  { unfold df_final, dropna. apply (filter_from has_required no_row).
    intros i Hi. rewrite length_indicator_frame in Hi.
    apply has_required_from_98; assumption. }
  split; [exact Hf|]. split; [|split].
  - rewrite Hf, <- skipn_map, indicator_frame_bars. reflexivity.
  - rewrite Hf, length_skipn, length_indicator_frame. reflexivity.
  - unfold discarded_points.
    rewrite Hf, length_skipn, length_indicator_frame. lia.
Qed.

Lemma dropna_keeps_rows_from_98_witness :
  df_final (hourly_bars 120) = skipn 98 (indicator_frame (hourly_bars 120))
  /\ map train_bar (df_final (hourly_bars 120)) = skipn 98 (hourly_bars 120)
  /\ length (df_final (hourly_bars 120))
     = (length (hourly_bars 120) - 98)%nat
  /\ discarded_points (hourly_bars 120)
     = Nat.min 98 (length (hourly_bars 120)).
Proof.
  apply (dropna_keeps_rows_from_98 (hourly_bars 120)).
  intros b Hb. unfold hourly_bars in Hb. apply in_map_iff in Hb.
  destruct Hb as (i & <- & _).
  do 3 eexists. repeat split; reflexivity.
Defined.

Section MeanFacts.



Lemma Qsum_nonneg (xs : list Q) :
  (forall x, In x xs -> 0 <= x)%Q -> (0 <= Qsum xs)%Q.
Proof.
  induction xs as [|x xs IH]; intros Hb; [change (Qsum []) with 0%Q; lra|].
  cbn [Qsum fold_right]. fold (Qsum xs).
  pose proof (Hb x (or_introl eq_refl)).
  assert (0 <= Qsum xs)%Q by (apply IH; intros y Hy; apply Hb; right; exact Hy).
  lra.
Qed.

Lemma positive_window (w : nat) :
  (0 < w)%nat -> (0 < inject_Z (Z.of_nat w))%Q.
Proof.
  intros Hw. change 0%Q with (inject_Z 0). rewrite <- Zlt_Qlt. lia.
Qed.

Lemma true_range_nonneg (df : list bar) (j : nat) :
  (0 < j)%nat -> (0 <= true_range df j)%Q.
Proof.
  intros Hj. destruct j as [|j]; [lia|]. unfold true_range.
  eapply Qle_trans; [|apply Q.le_max_r].
  eapply Qle_trans; [|apply Q.le_max_l].
  apply Qabs_nonneg.
Qed.

End MeanFacts.



(** X12. In [calculate_indicators], on a frame whose high, low and close
    are present in every bar, every row from index 50 on (so every row
    that is kept) has an ATR50 that is not negative and a Keltner band
    around the 50-bar mean: KC_upper = MA50 + 2.75 ATR50, KC_lower = MA50
    - 2.75 ATR50, and KC_lower <= MA50 <= KC_upper. *)
Theorem keltner_band_around_mean (df : list bar) (i : nat) :
  complete df ->
  (50 <= i < length df)%nat ->
  exists ma atr,
    nth i (MA_column 50 df) None = Some ma
    /\ nth i (ATR50 df) None = Some atr
    /\ nth i (KC_upper df) None = Some (ma + multiplier * atr)%Q
    /\ nth i (KC_lower df) None = Some (ma - multiplier * atr)%Q
    /\ (0 <= atr)%Q
    /\ (ma - multiplier * atr <= ma)%Q
    /\ (ma <= ma + multiplier * atr)%Q.
Proof.
  intros Hc [Hlo Hi].
  destruct (ATR50_value df i Hc) as (xs & Hatr & Hsum); [lia|exact Hi|].
  pose proof (MA_column_present 50 df i Hc) as Hma.
  destruct (nth i (MA_column 50 df) None) as [ma|] eqn:Ema;
    [|exfalso; apply Hma; auto; lia].
  exists ma, (Qsum xs / inject_Z (Z.of_nat 50))%Q.
  split; [reflexivity|]. split; [exact Hatr|].
  rewrite nth_KC_upper, nth_KC_lower, Ema, Hatr.
  split; [reflexivity|]. split; [reflexivity|].
  assert (Hnn : (0 <= Qsum xs / inject_Z (Z.of_nat 50))%Q).
  { apply Qle_shift_div_l; [apply positive_window; lia|].
    rewrite Hsum.
    assert (0 <= Qsum (map (true_range df) (seq (S i - 50) 50)))%Q.
    { apply Qsum_nonneg. intros x Hx. apply in_map_iff in Hx.
      destruct Hx as (j & <- & Hj). apply in_seq in Hj.
      apply true_range_nonneg. lia. }
    lra. }
  split; [exact Hnn|]. unfold multiplier. split; lra.
Qed.

Lemma keltner_band_around_mean_witness :
  exists ma atr,
    nth 60 (MA_column 50 (hourly_bars 120)) None = Some ma
    /\ nth 60 (ATR50 (hourly_bars 120)) None = Some atr
    /\ nth 60 (KC_upper (hourly_bars 120)) None
       = Some (ma + multiplier * atr)%Q
    /\ nth 60 (KC_lower (hourly_bars 120)) None
       = Some (ma - multiplier * atr)%Q
    /\ (0 <= atr)%Q
    /\ (ma - multiplier * atr <= ma)%Q
    /\ (ma <= ma + multiplier * atr)%Q.
Proof.
  apply (keltner_band_around_mean (hourly_bars 120) 60).
  - intros b Hb. unfold hourly_bars in Hb. apply in_map_iff in Hb.
    destruct Hb as (i & <- & _).
    do 3 eexists. repeat split; reflexivity.
  - vm_compute. lia.
Defined.

(** ** The two True Range computations *)

Section PlotFacts.

Lemma length_plot_TR (df : list bar) : length (plot_TR df) = length df.
Proof. unfold plot_TR. rewrite length_map, length_seq. reflexivity. Qed.

Lemma nth_plot_TR (df : list bar) (i : nat) :
  (i < length df)%nat ->
  nth i (plot_TR df) None
  = let high := cell (nth i df no_bar) high_price in
    let low := cell (nth i df no_bar) low_price in
    let previous_close :=
      match i with
      | O => None
      | S j => cell (nth j df no_bar) close_price
      end in
    py_max3 (lift2 Qminus high low)
            (option_map Qabs (lift2 Qminus high previous_close))
            (option_map Qabs (lift2 Qminus low previous_close)).
Proof.
  intros Hi. unfold plot_TR. rewrite nth_map_seq by exact Hi.
  rewrite nth_shift1 by (rewrite length_column_of; exact Hi).
  rewrite !nth_column_of.
  destruct i as [|j]; [reflexivity|].
  rewrite nth_column_of. reflexivity.
Qed.

(** On three numbers Python's [max] and the NaN-skipping maximum of
    pandas are the same rational. *)
Lemma py_max3_present (a b c : Q) :
  exists m, py_max3 (Some a) (Some b) (Some c) = Some m
            /\ (m == Qmax (Qmax a b) c)%Q.
Proof.
  unfold py_max3, float_gt.
  assert (Hab : exists m1,
             (if negb (Qle_bool b a) then Some b else Some a) = Some m1
             /\ (m1 == Qmax a b)%Q).
  { destruct (Qle_bool b a) eqn:E; cbn [negb].
    - exists a. split; [reflexivity|].
      apply Qle_bool_iff in E. symmetry. apply Q.max_l. exact E.
    - exists b. split; [reflexivity|].
      symmetry. apply Q.max_r.
      destruct (Qlt_le_dec a b) as [Hlt|Hle]; [apply Qlt_le_weak; exact Hlt|].
      apply Qle_bool_iff in Hle. rewrite Hle in E. discriminate. }
  destruct Hab as (m1 & -> & Hm1).
  destruct (Qle_bool c m1) eqn:E; cbn [negb].
  - exists m1. split; [reflexivity|].
    apply Qle_bool_iff in E. rewrite <- Hm1. symmetry. apply Q.max_l. exact E.
  - exists c. split; [reflexivity|].
    rewrite <- Hm1. symmetry. apply Q.max_r.
    destruct (Qlt_le_dec m1 c) as [Hlt|Hle]; [apply Qlt_le_weak; exact Hlt|].
    apply Qle_bool_iff in Hle. rewrite Hle in E. discriminate.
Qed.

Lemma plot_TR_true_range (df : list bar) (i : nat) :
  complete df ->
  (i < length df)%nat ->
  exists q, nth i (plot_TR df) None = Some q /\ (q == true_range df i)%Q.
Proof.
  intros Hc Hi. rewrite nth_plot_TR by exact Hi. unfold true_range.
  destruct (Hc (nth i df no_bar)) as (h & l & c & Hh & Hl & _);
    [apply nth_In; exact Hi|].
  cbv zeta. rewrite Hh, Hl.
  destruct i as [|j].
  - exists (h - l)%Q. split; reflexivity.
  - destruct (Hc (nth j df no_bar)) as (_ & _ & pc & _ & _ & Hpc);
      [apply nth_In; lia|].
    rewrite Hpc. cbn [lift2 option_map value].
    destruct (py_max3_present (h - l) (Qabs (h - pc)) (Qabs (l - pc)))
      as (m & -> & Hm).
    exists m. split; [reflexivity|].
    rewrite Hm. symmetry. apply Q.max_assoc.
Qed.

Lemma ATR_50_value (df : list bar) (i : nat) :
  complete df -> (50 <= S i)%nat -> (i < length df)%nat ->
  exists xs,
    nth i (ATR_50 df) None = Some (Qsum xs / inject_Z (Z.of_nat 50))%Q
    /\ (Qsum xs == Qsum (map (true_range df) (seq (S i - 50) 50)))%Q.
Proof.
  intros Hc Hw Hi. unfold ATR_50.
  rewrite nth_rolling_mean by (rewrite length_plot_TR; exact Hi).
  unfold window_mean.
  destruct (50 <=? S i)%nat eqn:E; [|apply Nat.leb_gt in E; lia].
  destruct (all_present_window (plot_TR df) (true_range df) 50 (S i - 50))
    as (xs & -> & Hsum).
  - rewrite length_plot_TR. lia.
  - intros k Hk. rewrite length_plot_TR in Hk.
    apply plot_TR_true_range; assumption.
  - exists xs. split; [reflexivity|exact Hsum].
Qed.

Lemma rolling_mean_warmup (w : nat) (s : series) (i : nat) :
  (S i < w)%nat -> nth i (rolling_mean w s) None = None.
Proof.
  intros Hw.
  destruct (Nat.lt_ge_cases i (length s)) as [Hi|Hi].
  - rewrite nth_rolling_mean by exact Hi. unfold window_mean.
    destruct (w <=? S i)%nat eqn:E; [apply Nat.leb_le in E; lia|reflexivity].
  - apply nth_overflow. rewrite length_rolling_mean. exact Hi.
Qed.

Lemma length_ATR_50 (df : list bar) : length (ATR_50 df) = length df.
Proof. unfold ATR_50. rewrite length_rolling_mean. apply length_plot_TR. Qed.

Lemma nth_Upper_Channel (df : list bar) (i : nat) :
  nth i (Upper_Channel df) None
  = lift2 Qplus (nth i (MA_column 50 df) None)
          (option_map (fun x => x * multiplier)%Q (nth i (ATR_50 df) None)).
Proof.
  unfold Upper_Channel, series_scale_right.
  rewrite nth_series_add
    by (rewrite length_map, length_MA_column, length_ATR_50; reflexivity).
  f_equal.
  exact (map_nth (option_map (fun x => x * multiplier)%Q) (ATR_50 df) None i).
Qed.

Lemma nth_Lower_Channel (df : list bar) (i : nat) :
  nth i (Lower_Channel df) None
  = lift2 Qminus (nth i (MA_column 50 df) None)
          (option_map (fun x => x * multiplier)%Q (nth i (ATR_50 df) None)).
Proof.
  unfold Lower_Channel, series_scale_right.
  rewrite nth_series_sub
    by (rewrite length_map, length_MA_column, length_ATR_50; reflexivity).
  f_equal.
  exact (map_nth (option_map (fun x => x * multiplier)%Q) (ATR_50 df) None i).
Qed.

End PlotFacts.

(** X13. On a frame whose high, low and close are present in every bar,
    [calculate_moving_averages] of plot_btc_ma_kc.py and
    [calculate_indicators] of generate_training_dataset.py compute the
    same True Range, the same ATR(50) and the same two Keltner columns,
    row by row, although the first takes the maximum with Python's [max]
    and the second with the NaN-skipping maximum of pandas. *)
Theorem both_scripts_agree (df : list bar) (i : nat) :
  complete df ->
  (i < length df)%nat ->
  cell_eq (nth i (plot_TR df) None) (nth i (TR df) None)
  /\ cell_eq (nth i (ATR_50 df) None) (nth i (ATR50 df) None)
  /\ cell_eq (nth i (Upper_Channel df) None) (nth i (KC_upper df) None)
  /\ cell_eq (nth i (Lower_Channel df) None) (nth i (KC_lower df) None).
Proof.
  intros Hc Hi. split.
  - destruct (plot_TR_true_range df i Hc Hi) as (q & -> & Hq).
    destruct (TR_true_range df i Hc Hi) as (q' & -> & Hq').
    cbn [cell_eq]. rewrite Hq, Hq'. reflexivity.
  - rewrite nth_Upper_Channel, nth_Lower_Channel, nth_KC_upper, nth_KC_lower.
    destruct (Nat.lt_ge_cases (S i) 50) as [Hw|Hw].
    + unfold ATR_50, ATR50. rewrite !rolling_mean_warmup by exact Hw.
      rewrite (MA_column_warmup 50 df i Hw). repeat split.
    + destruct (ATR_50_value df i Hc Hw Hi) as (xs & -> & Hxs).
      destruct (ATR50_value df i Hc Hw Hi) as (ys & -> & Hys).
      assert (Hatr : (Qsum xs / inject_Z (Z.of_nat 50)
                      == Qsum ys / inject_Z (Z.of_nat 50))%Q)
        by (rewrite Hxs, Hys; reflexivity).
      pose proof (MA_column_present 50 df i Hc Hw Hi) as Hma.
      destruct (nth i (MA_column 50 df) None) as [ma|];
        [|exfalso; apply Hma; reflexivity].
      cbn [cell_eq lift2 option_map].
      split; [exact Hatr|]. split; rewrite Hatr; ring.
Qed.

Lemma both_scripts_agree_witness :
  cell_eq (nth 70 (plot_TR (hourly_bars 80)) None)
          (nth 70 (TR (hourly_bars 80)) None)
  /\ cell_eq (nth 70 (ATR_50 (hourly_bars 80)) None)
             (nth 70 (ATR50 (hourly_bars 80)) None)
  /\ cell_eq (nth 70 (Upper_Channel (hourly_bars 80)) None)
             (nth 70 (KC_upper (hourly_bars 80)) None)
  /\ cell_eq (nth 70 (Lower_Channel (hourly_bars 80)) None)
             (nth 70 (KC_lower (hourly_bars 80)) None).
Proof.
  apply (both_scripts_agree (hourly_bars 80) 70).
  - intros b Hb. unfold hourly_bars in Hb. apply in_map_iff in Hb.
    destruct Hb as (i & <- & _).
    do 3 eexists. repeat split; reflexivity.
  - vm_compute. lia.
Defined.

(** Where a low is missing the two differ: Python's [max] keeps the NaN
    it starts from, the maximum of pandas skips it. *)
Example scripts_differ_on_missing_low :
  let df := [sample_bar 0;
             mkBar (t0 + hour) (t0 + hour + 3599)
                   (fun c => match c with
                             | low_price => None
                             | _ => sample_cell 1 c
                             end)] in
  nth 1 (plot_TR df) None = None /\ nth 1 (TR df) None = Some 3%Q.
Proof. split; reflexivity. Qed.

(** ** [sort_klines] and [main] *)

Section SortFacts.

Lemma ascii_compare_refl (a : ascii) : Ascii.compare a a = Eq.
Proof. unfold Ascii.compare. apply N.compare_refl. Qed.

Lemma ascii_compare_lt_trans (a b c : ascii) :
  Ascii.compare a b = Lt -> Ascii.compare b c = Lt -> Ascii.compare a c = Lt.
Proof.
  unfold Ascii.compare. rewrite !N.compare_lt_iff. lia.
Qed.

Lemma string_compare_le_trans (a b c : string) :
  String.compare a b <> Gt -> String.compare b c <> Gt ->
  String.compare a c <> Gt.
Proof.
  revert b c. induction a as [|x a IH]; intros b c Hab Hbc.
  - destruct c; discriminate.
  - destruct b as [|y b]; [exfalso; apply Hab; reflexivity|].
    destruct c as [|z c]; [exfalso; apply Hbc; reflexivity|].
    cbn [String.compare] in *.
    destruct (Ascii.compare x y) eqn:Exy;
      [|destruct (Ascii.compare y z) eqn:Eyz|exfalso; apply Hab; reflexivity].
    + apply Ascii.compare_eq_iff in Exy. subst y.
      destruct (Ascii.compare x z); [apply (IH b c); assumption|discriminate|
                                     exact Hbc].
    + apply Ascii.compare_eq_iff in Eyz. subst z. rewrite Exy. discriminate.
    + rewrite (ascii_compare_lt_trans x y z Exy Eyz). discriminate.
    + exfalso. apply Hbc. reflexivity.
Qed.

Lemma string_leb_trans (a b c : string) :
  String.leb a b = true -> String.leb b c = true -> String.leb a c = true.
Proof.
  unfold String.leb. intros Hab Hbc.
  assert (H : String.compare a c <> Gt).
  { apply (string_compare_le_trans a b c).
    - destruct (String.compare a b); discriminate.
    - destruct (String.compare b c); discriminate. }
  destruct (String.compare a c); [reflexivity|reflexivity|contradiction].
Qed.

Lemma string_ltb_leb (a b : string) :
  String.ltb a b = true -> String.leb a b = true.
Proof.
  unfold String.ltb, String.leb. destruct (String.compare a b); auto.
Qed.

Lemma string_not_ltb_leb (a b : string) :
  String.ltb a b = false -> String.leb b a = true.
Proof.
  unfold String.ltb, String.leb. rewrite (String.compare_antisym b a).
  destruct (String.compare a b); cbn; auto.
Qed.

Lemma string_ltb_irrefl (a : string) : String.ltb a a = false.
Proof.
  unfold String.ltb.
  assert (E : String.compare a a = Eq).
  { induction a as [|x a IH]; [reflexivity|].
    cbn [String.compare]. rewrite ascii_compare_refl. exact IH. }
  rewrite E. reflexivity.
Qed.

Lemma insert_by_string_perm (x : string * kline) (l : list (string * kline)) :
  Permutation (x :: l) (insert_by_string x l).
Proof.
  induction l as [|y l IH]; [apply Permutation_refl|].
  cbn [insert_by_string]. destruct (String.ltb (fst y) (fst x)).
  - eapply perm_trans; [apply perm_swap|]. apply perm_skip. exact IH.
  - apply Permutation_refl.
Qed.

Lemma sort_by_string_perm (l : list (string * kline)) :
  Permutation l (sort_by_string l).
Proof.
  induction l as [|x l IH]; [apply perm_nil|].
  cbn [sort_by_string].
  eapply perm_trans; [|apply insert_by_string_perm].
  apply perm_skip. exact IH.
Qed.

Lemma insert_by_string_sorted (x : string * kline)
    (l : list (string * kline)) :
  StronglySorted key_le l -> StronglySorted key_le (insert_by_string x l).
Proof.
  induction l as [|y l IH]; intros Hs.
  - constructor; constructor.
  - inversion Hs as [|? ? Hs' Hy]; subst. cbn [insert_by_string].
    destruct (String.ltb (fst y) (fst x)) eqn:E.
    + constructor; [apply IH; exact Hs'|].
      apply (Permutation_Forall (insert_by_string_perm x l)).
      constructor; [apply string_ltb_leb; exact E|exact Hy].
    + constructor; [exact Hs|].
      assert (Hxy : key_le x y) by (apply string_not_ltb_leb; exact E).
      constructor; [exact Hxy|].
      eapply Forall_impl; [|exact Hy].
      intros z Hz. unfold key_le in *.
      eapply string_leb_trans; eassumption.
Qed.

Lemma sort_by_string_sorted (l : list (string * kline)) :
  StronglySorted key_le (sort_by_string l).
Proof.
  induction l as [|x l IH]; [constructor|].
  cbn [sort_by_string]. apply insert_by_string_sorted. exact IH.
Qed.

(** Stability: the records of one key keep their order. *)
Lemma insert_by_string_filter (s : string) (x : string * kline)
    (l : list (string * kline)) :
  filter (fun p => String.eqb (fst p) s) (insert_by_string x l)
  = filter (fun p => String.eqb (fst p) s) (x :: l).
Proof.
  induction l as [|y l IH]; [reflexivity|].
  cbn [insert_by_string]. destruct (String.ltb (fst y) (fst x)) eqn:E;
    [|reflexivity].
  cbn [filter] in *. rewrite IH.
  destruct (String.eqb (fst x) s) eqn:Ex; [|reflexivity].
  destruct (String.eqb (fst y) s) eqn:Ey; [|reflexivity].
  apply String.eqb_eq in Ex, Ey. rewrite Ex, Ey, string_ltb_irrefl in E.
  discriminate.
Qed.

Lemma sort_by_string_filter (s : string) (l : list (string * kline)) :
  filter (fun p => String.eqb (fst p) s) (sort_by_string l)
  = filter (fun p => String.eqb (fst p) s) l.
Proof.
  induction l as [|x l IH]; [reflexivity|].
  cbn [sort_by_string]. rewrite insert_by_string_filter.
  cbn [filter]. rewrite IH. reflexivity.
Qed.

Lemma insert_keyed_strings (x : string * kline) (l : list (string * kline)) :
  insert_keyed (tag x) (map tag l) = Return (map tag (insert_by_string x l)).
Proof.
  induction l as [|y l IH]; [reflexivity|].
  cbn [insert_keyed insert_by_string map tag fst key_lt bind].
  destruct (String.ltb (fst y) (fst x)); [|reflexivity].
  change (insert_keyed (JString (fst x), snd x) (map tag l))
    with (insert_keyed (tag x) (map tag l)).
  rewrite IH. reflexivity.
Qed.

Lemma sort_keyed_strings (l : list (string * kline)) :
  sort_keyed (map tag l) = Return (map tag (sort_by_string l)).
Proof.
  induction l as [|x l IH]; [reflexivity|].
  cbn [sort_keyed map sort_by_string]. rewrite IH. cbn [bind].
  apply insert_keyed_strings.
Qed.

Lemma open_time_keys_strings (klines : list kline) (ks : list string) :
  Forall2 (fun k s => open_time_string k = Some s) klines ks ->
  open_time_keys klines = Return (map JString ks).
Proof.
  induction 1 as [|k s klines ks Hk _ IH]; [reflexivity|].
  cbn [open_time_keys map]. unfold open_time_string in Hk.
  destruct (getitem k "open_time"%string) as [[s'| |]|e]; try discriminate Hk.
  injection Hk as ->. cbn [bind]. rewrite IH. reflexivity.
Qed.

Lemma open_time_keys_missing (klines : list kline) :
  Exists (fun k => getitem k "open_time"%string = Raise KeyError) klines ->
  open_time_keys klines = Raise KeyError.
Proof.
  induction klines as [|k klines IH]; intros Hex; [inversion Hex|].
  cbn [open_time_keys]. unfold bind.
  destruct (getitem k "open_time"%string) as [v|e] eqn:G.
  - inversion Hex as [? ? Hk|? ? Hk]; subst; [rewrite G in Hk; discriminate|].
    rewrite (IH Hk). reflexivity.
  - rewrite (getitem_raises _ _ _ G). reflexivity.
Qed.

Lemma combine_tag (ks : list string) (klines : list kline) :
  combine (map JString ks) klines = map tag (combine ks klines).
Proof.
  revert klines. induction ks as [|s ks IH]; intros klines; [reflexivity|].
  destruct klines as [|k klines]; [reflexivity|].
  cbn [map combine tag fst snd]. f_equal. apply IH.
Qed.

Lemma sort_klines_strings (klines : list kline) (ks : list string) :
  Forall2 (fun k s => open_time_string k = Some s) klines ks ->
  sort_klines klines
  = Return (map snd (sort_by_string (combine ks klines))).
Proof.
  intros Hk. unfold sort_klines.
  rewrite (open_time_keys_strings _ _ Hk). cbn [bind].
  rewrite combine_tag, sort_keyed_strings. cbn [bind].
  rewrite map_map. reflexivity.
Qed.

Lemma combine_snd (klines : list kline) (ks : list string) :
  length klines = length ks -> map snd (combine ks klines) = klines.
Proof.
  revert ks. induction klines as [|k klines IH]; intros ks Hlen.
  - destruct ks; reflexivity.
  - destruct ks as [|s ks]; [discriminate|].
    cbn [combine map snd]. f_equal. apply IH. simpl in Hlen. lia.
Qed.

Lemma combine_keys (klines : list kline) (ks : list string) :
  Forall2 (fun k s => open_time_string k = Some s) klines ks ->
  Forall (fun p => open_time_string (snd p) = Some (fst p)) (combine ks klines).
Proof.
  induction 1 as [|k s klines ks Hk _ IH]; [constructor|].
  cbn [combine]. constructor; [exact Hk|exact IH].
Qed.

End SortFacts.

Section SortedKlines.

Lemma keyed_sorted_klines (l : list (string * kline)) :
  Forall keyed l ->
  StronglySorted key_le l -> StronglySorted kline_le (map snd l).
Proof.
  induction l as [|a l IH]; intros Hk Hs; [constructor|].
  inversion Hk as [|? ? Ha Hk']; subst.
  inversion Hs as [|? ? Hs' Hall]; subst.
  cbn [map]. constructor; [apply IH; assumption|].
  apply Forall_map. rewrite Forall_forall in *.
  intros b Hb. unfold kline_le, keyed, key_le in *.
  rewrite Ha, (Hk' b Hb). apply Hall. exact Hb.
Qed.

Lemma keyed_filter (s : string) (l : list (string * kline)) :
  Forall keyed l ->
  filter (has_open_time s) (map snd l)
  = map snd (filter (fun p => String.eqb (fst p) s) l).
Proof.
  induction 1 as [|a l Ha _ IH]; [reflexivity|].
  cbn [map filter]. unfold has_open_time at 1. rewrite Ha.
  destruct (String.eqb (fst a) s); cbn [map]; rewrite IH; reflexivity.
Qed.

(** In ascending order, two records with the same key are found side by
    side. *)
Lemma sorted_adjacent (s : string) (l : list (string * kline)) :
  StronglySorted key_le l ->
  (2 <= length (filter (fun p => String.eqb (fst p) s) l))%nat ->
  exists pre a b post,
    l = pre ++ a :: b :: post /\ fst a = s /\ fst b = s.
Proof.
  induction l as [|a l IH]; intros Hs Hc; [simpl in Hc; lia|].
  inversion Hs as [|? ? Hs' Hall]; subst.
  cbn [filter] in Hc. destruct (String.eqb (fst a) s) eqn:Ea.
  - apply String.eqb_eq in Ea.
    destruct l as [|b l']; [simpl in Hc; lia|].
    exists [], a, b, l'. split; [reflexivity|]. split; [exact Ea|].
    assert (Hin : exists c, In c (b :: l') /\ fst c = s).
    { destruct (filter (fun p => String.eqb (fst p) s) (b :: l'))
        as [|c cs] eqn:Ef; [simpl in Hc; lia|].
      assert (Hc' : In c (filter (fun p => String.eqb (fst p) s) (b :: l')))
        by (rewrite Ef; left; reflexivity).
      apply filter_In in Hc'. destruct Hc' as [Hc1 Hc2].
      exists c. split; [exact Hc1|apply String.eqb_eq; exact Hc2]. }
    destruct Hin as (c & Hc1 & Hc2).
    apply String.leb_antisym.
    + inversion Hs' as [|? ? _ Hb].
      destruct Hc1 as [->|Hc1];
        [rewrite Hc2; apply string_not_ltb_leb, string_ltb_irrefl|].
      rewrite Forall_forall in Hb. rewrite <- Hc2. apply (Hb c Hc1).
    + inversion Hall as [|? ? Hab _]. unfold key_le in Hab.
      rewrite <- Ea. exact Hab.
  - destruct (IH Hs' Hc) as (pre & x & y & post & -> & Hx & Hy).
    exists (a :: pre), x, y, post. repeat split; assumption.
Qed.

End SortedKlines.

Section ScanDuplicates.
Context `{DatetimeFormat}.

Lemma scan_loop_step (previous x : Z) (rest : list Z)
    (duplicates : list Z) (missing : list string) :
  exists d m,
    unbounded_scan_loop previous (x :: rest) duplicates missing
    = unbounded_scan_loop x rest d m.
Proof.
  cbn [unbounded_scan_loop].
  destruct (x =? previous); [eexists; eexists; reflexivity|].
  destruct (negb (x =? previous + hour)); eexists; eexists; reflexivity.
Qed.

Lemma scan_adjacent_duplicate (before : list Z) (t : Z) (after : list Z) :
  In t (fst (unbounded_scan (before ++ t :: t :: after))).
Proof.
  assert (Hdup : forall d m,
             In t (fst (unbounded_scan_loop t (t :: after) d m))).
  { intros d m. rewrite scan_step_duplicate, scan_loop_grows. cbn [fst].
    apply in_or_app. left. apply in_or_app. right. left. reflexivity. }
  destruct before as [|x before].
  - cbn [app unbounded_scan]. apply Hdup.
  - cbn [app unbounded_scan]. rewrite scan_loop_app.
    destruct (scan_loop_step (last before x) t (t :: after)
                (fst (unbounded_scan_loop x before [] []))
                (snd (unbounded_scan_loop x before [] []))) as (d & m & ->).
    apply Hdup.
Qed.

Lemma parses_parse_open_time (k : kline) (t : Z) :
  parses k t -> parse_open_time k = Return t.
Proof.
  intros (s & Hs & Ht). unfold parse_open_time, open_time_string in *.
  destruct (getitem k "open_time"%string) as [[s'| |]|e]; try discriminate Hs.
  injection Hs as ->. cbn [bind]. rewrite Ht. reflexivity.
Qed.

Lemma parse_times_all (klines : list kline) (times : list Z) :
  Forall2 parses klines times -> parse_times klines = Return times.
Proof.
  induction 1 as [|k t klines times Hk _ IH]; [reflexivity|].
  cbn [parse_times]. rewrite (parses_parse_open_time k t Hk). cbn [bind].
  rewrite IH. reflexivity.
Qed.

Lemma Forall_parses (klines : list kline) :
  Forall (fun k => exists t, parses k t) klines ->
  exists times, Forall2 parses klines times.
Proof.
  induction 1 as [|k klines (t & Hk) _ (times & IH)].
  - exists []. constructor.
  - exists (t :: times). constructor; assumption.
Qed.

End ScanDuplicates.

Section MainFacts.
Context `{DatetimeFormat}.

Lemma Forall_open_time_strings (klines : list kline) :
  Forall (fun k => exists t, parses k t) klines ->
  exists ks, Forall2 (fun k s => open_time_string k = Some s) klines ks.
Proof.
  induction 1 as [|k klines (t & s & Hs & _) _ (ks & IH)].
  - exists []. constructor.
  - exists (s :: ks). constructor; assumption.
Qed.

Lemma report_with_duplicate (duplicates : list Z) (missing : list string)
    (t : Z) :
  In t duplicates ->
  exists rest,
    report duplicates missing
    = (false, ErrorsMessage (DuplicatesLine (map strftime duplicates) :: rest)).
Proof.
  intros Hin. unfold report.
  destruct duplicates as [|d ds]; [contradiction|].
  cbn [nonempty orb app]. eexists. reflexivity.
Qed.

Lemma main_nonempty (klines : list kline) :
  klines <> [] ->
  main klines
  = (sorted_klines <- sort_klines klines ;;
     v <- validate_klines sorted_klines ;;
     Return (Some v)).
Proof.
  destruct klines; [intros Hne; contradiction Hne; reflexivity|reflexivity].
Qed.

Lemma sorted_klines_facts (klines : list kline) (ks : list string) :
  Forall2 (fun k s => open_time_string k = Some s) klines ks ->
  sort_klines klines = Return (map snd (sort_by_string (combine ks klines)))
  /\ Permutation klines (map snd (sort_by_string (combine ks klines)))
  /\ Forall keyed (sort_by_string (combine ks klines))
  /\ forall s,
       filter (has_open_time s) (map snd (sort_by_string (combine ks klines)))
       = filter (has_open_time s) klines.
Proof.
  intros Hk.
  assert (Hkeyed : Forall keyed (combine ks klines))
    by (apply combine_keys; exact Hk).
  assert (Hsnd : map snd (combine ks klines) = klines)
    by (apply combine_snd; apply (Forall2_length Hk)).
  assert (Hsorted : Forall keyed (sort_by_string (combine ks klines)))
    by (apply (Permutation_Forall (sort_by_string_perm _)); exact Hkeyed).
  split; [apply sort_klines_strings; exact Hk|]. split; [|split].
  - rewrite <- Hsnd at 1. apply Permutation_map. apply sort_by_string_perm.
  - exact Hsorted.
  - intros s. rewrite (keyed_filter s _ Hsorted), sort_by_string_filter.
    rewrite <- (keyed_filter s _ Hkeyed), Hsnd. reflexivity.
Qed.

End MainFacts.

(** X14. [sort_klines] raises [KeyError] as soon as one record has no
    [open_time]; on records whose [open_time] are all strings it returns
    the same records in ascending order of those strings, the records
    that share a string keeping the order they came in. *)
Theorem sort_klines_is_a_stable_sort (klines : list kline) :
  (Exists (fun k => getitem k "open_time"%string = Raise KeyError) klines ->
   sort_klines klines = Raise KeyError)
  /\ (forall ks,
         Forall2 (fun k s => open_time_string k = Some s) klines ks ->
         exists sorted,
           sort_klines klines = Return sorted
           /\ Permutation klines sorted
           /\ StronglySorted kline_le sorted
           /\ forall s, filter (has_open_time s) sorted
                        = filter (has_open_time s) klines).
Proof.
  split.
  - intros Hex. unfold sort_klines.
    rewrite (open_time_keys_missing _ Hex). reflexivity.
  - intros ks Hk.
    destruct (sorted_klines_facts klines ks Hk) as (Hs & Hp & Hkeyed & Hf).
    exists (map snd (sort_by_string (combine ks klines))).
    split; [exact Hs|]. split; [exact Hp|]. split; [|exact Hf].
    apply keyed_sorted_klines; [exact Hkeyed|apply sort_by_string_sorted].
Qed.

Lemma sort_klines_is_a_stable_sort_witness :
  sort_klines [kline_at "2024-01-01 00:00:00"%string;
               [("close_price"%string, JNumber 1%Q)]]
  = Raise KeyError
  /\ exists sorted,
       sort_klines
         [kline_at "2024-01-01 02:00:00"%string;
          [("open_time"%string, JString "2024-01-01 00:00:00"%string)];
          kline_at "2024-01-01 00:00:00"%string]
       = Return sorted
       /\ Permutation
            [kline_at "2024-01-01 02:00:00"%string;
             [("open_time"%string, JString "2024-01-01 00:00:00"%string)];
             kline_at "2024-01-01 00:00:00"%string]
            sorted
       /\ StronglySorted kline_le sorted
       /\ forall s,
            filter (has_open_time s) sorted
            = filter (has_open_time s)
                [kline_at "2024-01-01 02:00:00"%string;
                 [("open_time"%string, JString "2024-01-01 00:00:00"%string)];
                 kline_at "2024-01-01 00:00:00"%string].
Proof.
  split.
  - apply (proj1 (sort_klines_is_a_stable_sort
                    [kline_at "2024-01-01 00:00:00"%string;
                     [("close_price"%string, JNumber 1%Q)]])).
    right. left. reflexivity.
  - apply (proj2 (sort_klines_is_a_stable_sort
                    [kline_at "2024-01-01 02:00:00"%string;
                     [("open_time"%string,
                       JString "2024-01-01 00:00:00"%string)];
                     kline_at "2024-01-01 00:00:00"%string])
                 ["2024-01-01 02:00:00"%string; "2024-01-01 00:00:00"%string;
                  "2024-01-01 00:00:00"%string]).
    repeat constructor.
Defined.

Lemma Forall2_parses_bound `{DatetimeFormat} (klines : list kline)
    (times : list Z) (P : Z -> Prop) :
  Forall2 parses klines times ->
  (forall k t, In k klines -> parses k t -> P t) ->
  Forall P times.
Proof.
  induction 1 as [|k t klines times Hk _ IH]; intros HP; [constructor|].
  constructor; [apply (HP k); [left; reflexivity|exact Hk]|].
  apply IH. intros k' t' Hin. apply HP. right. exact Hin.
Qed.

(** X15. [main] sorts before it validates, so a repeated [open_time] is
    found wherever it stands: when all the timestamps parse, none of
    them lies in the last hour before [datetime.max], and two records of
    the loaded list carry the same [open_time] string, the verdict is
    [False] and the first line of the text lists that timestamp among
    the duplicates. *)
Theorem repeated_open_time_is_reported `{DatetimeFormat}
    (l1 l2 l3 : list kline) (k1 k2 : kline) (s : string) (t : Z) :
  open_time_string k1 = Some s ->
  open_time_string k2 = Some s ->
  strptime s = Some t ->
  Forall (fun k => exists t', parses k t') (l1 ++ k1 :: l2 ++ k2 :: l3) ->
  (forall k t', In k (l1 ++ k1 :: l2 ++ k2 :: l3) -> parses k t' ->
                t' + hour <= datetime_max) ->
  exists shown rest,
    main (l1 ++ k1 :: l2 ++ k2 :: l3)
    = Return (Some (false, ErrorsMessage (DuplicatesLine shown :: rest)))
    /\ In (strftime t) shown.
Proof.
  intros H1 H2 Ht Hall Hbound.
  set (klines := l1 ++ k1 :: l2 ++ k2 :: l3) in *.
  destruct (Forall_open_time_strings klines Hall) as (ks & Hks).
  destruct (sorted_klines_facts klines ks Hks) as (Hs & Hp & Hkeyed & Hf).
  set (L := sort_by_string (combine ks klines)) in *.
  assert (Hcount : (2 <= length (filter (fun p => String.eqb (fst p) s) L))%nat).
  { rewrite <- (length_map snd), <- (keyed_filter s L Hkeyed), (Hf s).
    unfold klines. rewrite filter_app. cbn [filter].
    unfold has_open_time at 2. rewrite H1, String.eqb_refl.
    rewrite filter_app. cbn [filter].
    unfold has_open_time at 3. rewrite H2, String.eqb_refl.
    rewrite length_app. cbn [length]. rewrite length_app. cbn [length]. lia. }
  destruct (sorted_adjacent s L (sort_by_string_sorted _) Hcount)
    as (pre & a & b & post & HL & Ha & Hb).
  assert (Hsorted_all : Forall (fun k => exists t', parses k t') (map snd L))
    by (apply (Permutation_Forall Hp); exact Hall).
  destruct (Forall_parses _ Hsorted_all) as (times & Htimes).
  pose proof (parse_times_all _ _ Htimes) as Hparse.
  assert (Hrange : additions_in_range times).
  { apply additions_in_range_all.
    apply (Forall2_parses_bound _ _ _ Htimes).
    intros k t' Hin. apply Hbound.
    apply (Permutation_in _ (Permutation_sym Hp)). exact Hin. }
  assert (Hdec : exists tp tq, times = tp ++ t :: t :: tq).
  { rewrite HL, map_app in Htimes. cbn [map] in Htimes.
    apply Forall2_app_inv_l in Htimes.
    destruct Htimes as (tp & rest & _ & Hrest & ->).
    destruct rest as [|ta rest]; [inversion Hrest|].
    destruct rest as [|tb tq];
      [inversion Hrest as [|? ? ? ? _ Hr]; inversion Hr|].
    assert (Hta : parses (snd a) ta) by (inversion Hrest; assumption).
    assert (Htb : parses (snd b) tb)
      by (inversion Hrest as [|? ? ? ? _ Hr]; inversion Hr; assumption).
    assert (Hkey : forall p t', In p L -> fst p = s -> parses (snd p) t' ->
                                t' = t).
    { intros p t' Hin Hfst (s' & Hs' & Ht').
      rewrite Forall_forall in Hkeyed. rewrite (Hkeyed p Hin), Hfst in Hs'.
      injection Hs' as <-. rewrite Ht in Ht'. injection Ht' as <-.
      reflexivity. }
    exists tp, tq. f_equal.
    rewrite (Hkey a ta), (Hkey b tb); try assumption; try reflexivity;
      rewrite HL; apply in_or_app; right; [right; left|left]; reflexivity. }
  destruct Hdec as (tp & tq & ->).
  assert (Hne : map snd L <> []).
  { rewrite HL, map_app. cbn [map]. destruct (map snd pre); discriminate. }
  pose proof (scan_adjacent_duplicate tp t tq) as Hin.
  destruct (report_with_duplicate
              _ (snd (unbounded_scan (tp ++ t :: t :: tq))) t Hin)
    as (rest & Hrep).
  exists (map strftime (fst (unbounded_scan (tp ++ t :: t :: tq)))), rest.
  split; [|apply in_map; exact Hin].
  rewrite main_nonempty by (unfold klines; destruct l1; discriminate).
  rewrite Hs. cbn [bind].
  rewrite (validate_parsed _ _ Hparse Hne Hrange). cbn [bind].
  rewrite Hrep. reflexivity.
Qed.

Lemma repeated_open_time_is_reported_witness :
  exists shown rest,
    main ([kline_at "2024-01-01 01:00:00"%string]
            ++ kline_at "2024-01-01 02:00:00"%string
            :: [kline_at "2024-01-01 00:00:00"%string]
            ++ kline_at "2024-01-01 02:00:00"%string :: [])
    = Return (Some (false, ErrorsMessage (DuplicatesLine shown :: rest)))
    /\ In (strftime (t0 + 7200)) shown.
Proof.
  apply (@repeated_open_time_is_reported canonical_format
           [kline_at "2024-01-01 01:00:00"%string]
           [kline_at "2024-01-01 00:00:00"%string] []
           (kline_at "2024-01-01 02:00:00"%string)
           (kline_at "2024-01-01 02:00:00"%string)
           "2024-01-01 02:00:00"%string (t0 + 7200)).
  - reflexivity.
  - reflexivity.
  - reflexivity.
  - repeat constructor; eexists; eexists; split; reflexivity.
  - intros k t' Hin (s' & Hs' & Ht').
    cbn [app] in Hin.
    destruct Hin as [<-|[<-|[<-|[<-|[]]]]];
      injection Hs' as <-; injection Ht' as <-; vm_compute; discriminate.
Defined.
